(** * tinygrad scheduler (tinygrad/engine/schedule.py): a shallow embedding

    The development follows the layout of the Python module: the UOp
    graph IR and the records of the scheduler, [ScheduleItem], the
    kernel-lowering helpers of [to_si], the rewrite rules of
    [ops_folding], [merge_bufs] and [break_sched], the assign walk of
    [schedule_uop], and the BFS toposort that closes
    [create_schedule_with_vars].

    Python integers are [Z]; tuples and lists are [list]; insertion-ordered
    [dict]s are association lists with Python's update-in-place behaviour;
    exceptions are the [Err] branch of [result]. *)

From Stdlib Require Import List ZArith Lia Bool String Arith Permutation.
Import ListNotations.

Set Implicit Arguments.

(** ** Exceptions *)

Inductive error : Type :=
| KeyError
| IndexError
| TypeError
| AttributeError
| AssertionError
| OverflowError
| ZeroDivisionError
| RuntimeError (msg : string).

Inductive result (A : Type) : Type :=
| Ok (a : A)
| Err (e : error).

Arguments Ok {A} a.
Arguments Err {A} e.

Definition rbind {A B : Type} (m : result A) (f : A -> result B) : result B :=
  match m with
  | Ok a => f a
  | Err e => Err e
  end.

Declare Scope result_scope.
Delimit Scope result_scope with result.
Notation "x <- m ;; k" := (rbind m (fun x => k))
  (at level 61, m at next level, right associativity) : result_scope.
Local Open Scope result_scope.

(** [unwrap] of tinygrad.helpers: asserts that an optional value is there. *)
Definition unwrap {A : Type} (x : option A) : result A :=
  match x with
  | Some a => Ok a
  | None => Err AssertionError
  end.

(** Tuple indexing with a non-negative index. *)
Definition tuple_get {A : Type} (l : list A) (i : nat) : result A :=
  match nth_error l i with
  | Some a => Ok a
  | None => Err IndexError
  end.

Fixpoint mapM {A B : Type} (f : A -> result B) (l : list A) : result (list B) :=
  match l with
  | [] => Ok []
  | a :: l' => b <- f a ;; bs <- mapM f l' ;; Ok (b :: bs)
  end.

(** ** Helpers of tinygrad.helpers used by the scheduler *)

Section Helpers.
Variable A : Type.
Variable eq_dec : forall x y : A, {x = y} + {x <> y}.

Definition mem (x : A) (l : list A) : bool :=
  if in_dec eq_dec x l then true else false.

(** [dedup(x)] is [list(dict.fromkeys(x))]: the first occurrence of every
    element stays, in order. *)
Fixpoint dedup_acc (seen l : list A) : list A :=
  match l with
  | [] => []
  | a :: l' => if mem a seen then dedup_acc seen l' else a :: dedup_acc (a :: seen) l'
  end.

Definition dedup (l : list A) : list A := dedup_acc [] l.

Lemma mem_true_iff x l : mem x l = true <-> In x l.
Proof. unfold mem; destruct (in_dec eq_dec x l); split; intros; auto; discriminate. Qed.

Lemma mem_false_iff x l : mem x l = false <-> ~ In x l.
Proof. unfold mem; destruct (in_dec eq_dec x l); split; intros; auto; try discriminate; contradiction. Qed.

Lemma dedup_acc_In seen l x :
  In x (dedup_acc seen l) <-> In x l /\ ~ In x seen.
Proof.
  revert seen; induction l as [|a l IH]; intros seen; simpl.
  - tauto.
  - destruct (mem a seen) eqn:E.
    + apply mem_true_iff in E. rewrite IH. split.
      * intros [H1 H2]; auto.
      * intros [[->|H1] H2]; [contradiction | auto].
    + apply mem_false_iff in E. simpl. rewrite IH. simpl. split.
      * intros [->|[H1 H2]]; auto.
      * intros [[->|H1] H2]; auto.
        destruct (eq_dec a x) as [->|N]; auto. right; split; auto.
        intros [?|?]; auto.
Qed.

Lemma dedup_In l x : In x (dedup l) <-> In x l.
Proof. unfold dedup; rewrite dedup_acc_In; simpl; tauto. Qed.

Lemma dedup_acc_NoDup seen l : NoDup (dedup_acc seen l).
Proof.
  revert seen; induction l as [|a l IH]; intros seen; simpl.
  - constructor.
  - destruct (mem a seen) eqn:E; auto.
    constructor; auto. rewrite dedup_acc_In. simpl. tauto.
Qed.

Lemma dedup_NoDup l : NoDup (dedup l).
Proof. apply dedup_acc_NoDup. Qed.
End Helpers.

(** [prod] of tinygrad.helpers on integers. *)
Definition prod (l : list Z) : Z := fold_left Z.mul l 1%Z.

(** ** Insertion-ordered dictionaries

    [dict] keeps keys in insertion order; assigning to a present key keeps
    its place, [del] of an absent key raises [KeyError]. *)

Section Dict.
Variables K V : Type.
Variable K_eq_dec : forall x y : K, {x = y} + {x <> y}.

Definition dict := list (K * V).

Fixpoint dget (d : dict) (k : K) : option V :=
  match d with
  | [] => None
  | (k', v) :: d' => if K_eq_dec k k' then Some v else dget d' k
  end.

Definition dmem (d : dict) (k : K) : bool :=
  match dget d k with Some _ => true | None => false end.

Fixpoint dset (d : dict) (k : K) (v : V) : dict :=
  match d with
  | [] => [(k, v)]
  | (k', v') :: d' => if K_eq_dec k k' then (k', v) :: d' else (k', v') :: dset d' k v
  end.

Fixpoint dremove (d : dict) (k : K) : dict :=
  match d with
  | [] => []
  | (k', v') :: d' => if K_eq_dec k k' then d' else (k', v') :: dremove d' k
  end.

(** [d[k]] *)
Definition dgetitem (d : dict) (k : K) : result V :=
  match dget d k with Some v => Ok v | None => Err KeyError end.

(** [del d[k]] *)
Definition ddel (d : dict) (k : K) : result dict :=
  if dmem d k then Ok (dremove d k) else Err KeyError.

Definition dkeys (d : dict) : list K := map fst d.

Definition dict_wf (d : dict) : Prop := NoDup (dkeys d).

Lemma dget_dset_same d k v : dget (dset d k v) k = Some v.
Proof.
  induction d as [|[k' v'] d IH]; simpl.
  - destruct (K_eq_dec k k); congruence.
  - destruct (K_eq_dec k k') as [->|N]; simpl.
    + destruct (K_eq_dec k' k'); congruence.
    + destruct (K_eq_dec k k'); congruence.
Qed.

Lemma dget_dset_other d k k' v : k' <> k -> dget (dset d k v) k' = dget d k'.
Proof.
  intros N; induction d as [|[k0 v0] d IH]; simpl.
  - destruct (K_eq_dec k' k); congruence.
  - destruct (K_eq_dec k k0) as [->|N0]; simpl.
    + destruct (K_eq_dec k' k0); congruence.
    + destruct (K_eq_dec k' k0); congruence.
Qed.

Lemma dkeys_dset d k v :
  dkeys (dset d k v) = if dmem d k then dkeys d else dkeys d ++ [k].
Proof.
  unfold dmem; induction d as [|[k0 v0] d IH]; simpl; auto.
  destruct (K_eq_dec k k0) as [->|N]; simpl; auto.
  rewrite IH. destruct (dget d k); reflexivity.
Qed.

Lemma dget_None_keys d k : dget d k = None <-> ~ In k (dkeys d).
Proof.
  induction d as [|[k0 v0] d IH]; simpl.
  - tauto.
  - destruct (K_eq_dec k k0) as [->|N].
    + split; [discriminate | intros H; exfalso; auto].
    + rewrite IH. split; intros H; [intros [E|E]; [congruence|auto] | auto].
Qed.

Lemma dget_dremove_other d k k' : k' <> k -> dget (dremove d k) k' = dget d k'.
Proof.
  intros N; induction d as [|[k0 v0] d IH]; simpl; auto.
  destruct (K_eq_dec k k0) as [->|N0]; simpl.
  - destruct (K_eq_dec k' k0); congruence.
  - destruct (K_eq_dec k' k0); congruence.
Qed.

Lemma dkeys_dremove_incl d k x : In x (dkeys (dremove d k)) -> In x (dkeys d).
Proof.
  induction d as [|[k0 v0] d IH]; simpl; auto.
  destruct (K_eq_dec k k0) as [->|N0]; simpl; tauto.
Qed.

Lemma dget_dremove_same d k : dict_wf d -> dget (dremove d k) k = None.
Proof.
  unfold dict_wf; induction d as [|[k0 v0] d IH]; simpl; auto.
  intros H; inversion H; subst.
  destruct (K_eq_dec k k0) as [->|N0]; simpl.
  - apply dget_None_keys; assumption.
  - destruct (K_eq_dec k k0); [congruence | auto].
Qed.

Lemma dict_wf_dset d k v : dict_wf d -> dict_wf (dset d k v).
Proof.
  unfold dict_wf; intros H. rewrite dkeys_dset. unfold dmem.
  destruct (dget d k) eqn:E; auto.
  apply dget_None_keys in E.
  apply NoDup_app; auto.
  - constructor; [simpl; tauto | constructor].
  - intros x Hx [<-|[]]. contradiction.
Qed.

Lemma dict_wf_dremove d k : dict_wf d -> dict_wf (dremove d k).
Proof.
  unfold dict_wf; induction d as [|[k0 v0] d IH]; simpl; auto.
  intros H; inversion H; subst.
  destruct (K_eq_dec k k0) as [->|N0]; simpl; auto.
  constructor; auto. intros Hin; apply dkeys_dremove_incl in Hin; contradiction.
Qed.
End Dict.

(** ** The graph IR (tinygrad.ops, tinygrad.dtype, tinygrad.shape)

    These modules are imported by schedule.py; their data is declared here
    as the scheduler reads it. *)

(** Modelled from the spec: the closed opcode enumeration [Ops] of
    tinygrad.ops, with the movement ops and the ALU group. *)
Inductive Ops : Type :=
| DEVICE | BUFFER | VIEW | CONST | VCONST | BIND | DEFINE_VAR | DEFINE_GLOBAL
| VALID | LOAD | PRELOAD | STORE | SINK | ASSIGN | CONTIGUOUS | DETACH | COPY
| BUFFER_VIEW | REDUCE_AXIS | CAST | BITCAST
| RESHAPE | PERMUTE | EXPAND | PAD | SHRINK | STRIDE
| EXP2 | LOG2 | SIN | SQRT | RECIP | NEG
| ADD | MUL | IDIV | MAX | MOD | CMPLT | CMPNE | XOR | SHL | SHR | OR | AND
| THREEFRY | SUB | FDIV | WHERE | MULACC.

Definition Ops_eq_dec (x y : Ops) : {x = y} + {x <> y}.
Proof. decide equality. Defined.

Definition Ops_eqb (x y : Ops) : bool := if Ops_eq_dec x y then true else false.

(** [GroupOp.ALU]. *)
Definition GroupOp_ALU : list Ops :=
  [EXP2; LOG2; SIN; SQRT; RECIP; NEG;
   ADD; MUL; IDIV; MAX; MOD; CMPLT; CMPNE; XOR; SHL; SHR; OR; AND; THREEFRY; SUB; FDIV;
   WHERE; MULACC].

(** Modelled from the spec: a dtype is a scalar element type, possibly an
    image type with a secondary shape; [ptr] is the pointer type a
    [DEFINE_GLOBAL] carries. *)
Inductive Scalar : Type := void | bool_ | int_ | float_ | half_ | long_.

Inductive DType : Type :=
| DScalar (s : Scalar)
| DImage (s : Scalar) (shape : list Z)
| DPtr (pointee : DType) (size : Z).

Definition dtype_base (d : DType) : DType :=
  match d with
  | DScalar s => DScalar s
  | DImage s _ => DScalar s
  | DPtr p _ => p
  end.

(** A dimension is a Python int or a symbolic [Variable]. *)
Inductive sint : Type :=
| SInt (n : Z)
| SVar (name : string) (vmin vmax : Z).

Definition all_int (l : list sint) : bool :=
  forallb (fun s => match s with SInt _ => true | SVar _ _ _ => false end) l.

(** The integers of a tuple known to be [all_int]. *)
Fixpoint ints (l : list sint) : list Z :=
  match l with
  | [] => []
  | SInt n :: l' => n :: ints l'
  | SVar _ _ _ :: l' => ints l'
  end.

(** The [View] dataclass of tinygrad.shape.view. *)
Record View : Type := mkView {
  v_shape : list sint;
  v_strides : list sint;
  v_offset : sint;
  v_mask : option (list (sint * sint));
  v_contiguous : bool
}.

(** The [ShapeTracker] dataclass: a tuple of views. *)
Record ShapeTracker : Type := mkST { views : list View }.

(** A constant payload: Python [int], [bool] or [float]; a finite float is
    kept as its exact value [m * 2^e]. *)
Inductive ConstType : Type :=
| CInt (n : Z)
| CBool (b : bool)
| CFloat (m e : Z).

(** The [arg] payload of a UOp, by opcode. *)
Inductive Arg : Type :=
| ANone
| AConst (c : ConstType)
| AStr (s : string)
| AST (st : ShapeTracker)
| ABufNum (buffer_num size : Z)
| AReduce (alu : Ops) (axes : list nat)
| AAxes (axes : list sint).

(** The [UOp] node: value-equal on [(op, dtype, src, arg)]. *)
#[local] Unset Elimination Schemes.
Inductive UOp : Type := mkUOp {
  op : Ops;
  dtype : DType;
  src : list UOp;
  arg : Arg
}.
#[local] Set Elimination Schemes.

Definition Scalar_eq_dec (x y : Scalar) : {x = y} + {x <> y}.
Proof. decide equality. Defined.

Definition DType_eq_dec (x y : DType) : {x = y} + {x <> y}.
Proof. decide equality; try apply Scalar_eq_dec; try apply (list_eq_dec Z.eq_dec); apply Z.eq_dec. Defined.

Definition sint_eq_dec (x y : sint) : {x = y} + {x <> y}.
Proof. decide equality; try apply Z.eq_dec; apply string_dec. Defined.

Definition View_eq_dec (x y : View) : {x = y} + {x <> y}.
Proof.
  decide equality; try apply Bool.bool_dec; try apply sint_eq_dec;
    try apply (list_eq_dec sint_eq_dec).
  decide equality. apply list_eq_dec. decide equality; apply sint_eq_dec.
Defined.

Definition ShapeTracker_eq_dec (x y : ShapeTracker) : {x = y} + {x <> y}.
Proof. decide equality. apply (list_eq_dec View_eq_dec). Defined.

Definition ConstType_eq_dec (x y : ConstType) : {x = y} + {x <> y}.
Proof. decide equality; try apply Z.eq_dec; apply Bool.bool_dec. Defined.

Definition Arg_eq_dec (x y : Arg) : {x = y} + {x <> y}.
Proof.
  decide equality; try apply Z.eq_dec; try apply string_dec;
    try apply ConstType_eq_dec; try apply ShapeTracker_eq_dec; try apply Ops_eq_dec;
    try apply (list_eq_dec Nat.eq_dec); apply (list_eq_dec sint_eq_dec).
Defined.

Fixpoint UOp_eq_dec (x y : UOp) {struct x} : {x = y} + {x <> y}.
Proof.
  destruct x as [o d s a], y as [o' d' s' a'].
  destruct (Ops_eq_dec o o') as [->|N]; [|right; congruence].
  destruct (DType_eq_dec d d') as [->|N]; [|right; congruence].
  destruct (Arg_eq_dec a a') as [->|N]; [|right; congruence].
  assert (Hs : {s = s'} + {s <> s'}).
  { revert s'. induction s as [|u s IH]; intros [|u' s'].
    - left; reflexivity.
    - right; discriminate.
    - right; discriminate.
    - destruct (UOp_eq_dec u u') as [->|N]; [|right; congruence].
      destruct (IH s') as [->|N]; [left; reflexivity | right; congruence]. }
  destruct Hs as [->|N]; [left; reflexivity | right; congruence].
Defined.

(** The [Buffer] of tinygrad.device: a Python object compared by identity;
    [buf_id] stands for that identity. *)
Record Buffer : Type := mkBuffer {
  buf_id : Z;
  buf_device : string;
  buf_size : Z;
  buf_dtype : DType
}.

Definition Buffer_eq_dec (x y : Buffer) : {x = y} + {x <> y}.
Proof. decide equality; try apply Z.eq_dec; try apply string_dec; apply DType_eq_dec. Defined.

(** [Metadata] of tinygrad.helpers: a value with equality. *)
Record Metadata : Type := mkMetadata { md_name : string; md_caller : string }.

Definition Metadata_eq_dec (x y : Metadata) : {x = y} + {x <> y}.
Proof. decide equality; apply string_dec. Defined.

(** ** ScheduleItem return type (schedule.py, lines 58-73) *)

Record ScheduleItem : Type := mkScheduleItem {
  ast : UOp;
  bufs : list Buffer;
  metadata : list Metadata;
  assign_preloads : list UOp
}.

Definition ScheduleItem_eq_dec (x y : ScheduleItem) : {x = y} + {x <> y}.
Proof.
  decide equality; try apply (list_eq_dec UOp_eq_dec); try apply (list_eq_dec Metadata_eq_dec);
    try apply (list_eq_dec Buffer_eq_dec); apply UOp_eq_dec.
Defined.

(** [output_idxs]: [tuple(x.src[0].arg for x in self.ast.src)] when the ast
    is a [SINK], [(0,)] otherwise. *)
Definition output_idxs (si : ScheduleItem) : result (list Arg) :=
  if Ops_eqb (op (ast si)) SINK
  then mapM (fun x => s0 <- tuple_get (src x) 0 ;; Ok (arg s0)) (src (ast si))
  else Ok [AConst (CInt 0)].

(** Python's [i == a] for an index [i] of [enumerate] and an arg [a]: an
    int, a bool ([True == 1]) or a float of the same value. *)
Definition index_eq (i : nat) (a : Arg) : bool :=
  match a with
  | AConst (CInt n) => Z.eqb (Z.of_nat i) n
  | AConst (CBool b) => Z.eqb (Z.of_nat i) (if b then 1 else 0)
  | AConst (CFloat m e) =>
      if Z.leb 0 e then Z.eqb (Z.of_nat i) (m * 2 ^ e) else Z.eqb (Z.of_nat i * 2 ^ (- e)) m
  | _ => false
  end.

(** [i in idxs] *)
Definition index_in (i : nat) (idxs : list Arg) : bool := existsb (index_eq i) idxs.

(** [tuple(b for i,b in enumerate(bufs) if keep i)], counting from [i]. *)
Fixpoint select_from {A : Type} (keep : nat -> bool) (i : nat) (l : list A) : list A :=
  match l with
  | [] => []
  | b :: l' => if keep i then b :: select_from keep (S i) l' else select_from keep (S i) l'
  end.

Definition outputs (si : ScheduleItem) : result (list Buffer) :=
  idxs <- output_idxs si ;;
  Ok (select_from (fun i => index_in i idxs) 0 (bufs si)).

Definition inputs (si : ScheduleItem) : result (list Buffer) :=
  idxs <- output_idxs si ;;
  Ok (select_from (fun i => negb (index_in i idxs)) 0 (bufs si)).

(** *** inputs and outputs partition bufs *)

(** [subseq l1 l2]: [l1] is [l2] with some elements dropped, order kept. *)
Inductive subseq {A : Type} : list A -> list A -> Prop :=
| subseq_nil : subseq [] []
| subseq_keep a l1 l2 : subseq l1 l2 -> subseq (a :: l1) (a :: l2)
| subseq_drop a l1 l2 : subseq l1 l2 -> subseq l1 (a :: l2).

Lemma select_from_subseq {A : Type} (keep : nat -> bool) (l : list A) i :
  subseq (select_from keep i l) l.
Proof.
  revert i; induction l as [|b l IH]; intros i; simpl.
  - constructor.
  - destruct (keep i); constructor; apply IH.
Qed.

Lemma select_from_In {A : Type} (keep : nat -> bool) (l : list A) i b :
  In b (select_from keep i l) <->
  exists j, nth_error l j = Some b /\ keep (i + j) = true.
Proof.
  revert i; induction l as [|a l IH]; intros i; simpl.
  - split; [tauto | intros [[|j] [H _]]; discriminate].
  - destruct (keep i) eqn:E; simpl; rewrite IH; split.
    + intros [->|[j [H1 H2]]].
      * exists 0; simpl; rewrite Nat.add_0_r; auto.
      * exists (S j); simpl; rewrite Nat.add_succ_r; auto.
    + intros [[|j] [H1 H2]]; simpl in H1.
      * left; congruence.
      * right; exists j; rewrite Nat.add_succ_r in H2; auto.
    + intros [j [H1 H2]]. exists (S j); simpl; rewrite Nat.add_succ_r; auto.
    + intros [[|j] [H1 H2]]; simpl in H1.
      * rewrite Nat.add_0_r in H2; congruence.
      * exists j; rewrite Nat.add_succ_r in H2; auto.
Qed.

Lemma select_from_partition {A : Type} (keep : nat -> bool) (l : list A) i :
  Permutation l (select_from keep i l ++ select_from (fun j => negb (keep j)) i l).
Proof.
  revert i; induction l as [|a l IH]; intros i; simpl.
  - constructor.
  - destruct (keep i); simpl.
    + constructor; apply IH.
    + apply Permutation_cons_app; apply IH.
Qed.

Lemma nth_error_NoDup_inj {A : Type} (l : list A) i j b :
  NoDup l -> nth_error l i = Some b -> nth_error l j = Some b -> i = j.
Proof.
  intros ND Hi Hj. rewrite NoDup_nth_error in ND. apply ND; [|congruence].
  apply nth_error_Some; congruence.
Qed.

(** The arg of the first source of every node of [xs]. *)
Definition first_src_args (xs : list UOp) : list Arg :=
  map (fun x => match src x with s0 :: _ => arg s0 | [] => ANone end) xs.

Lemma output_idxs_of_stores (xs : list UOp) :
  Forall (fun x => src x <> []) xs ->
  mapM (fun x => s0 <- tuple_get (src x) 0 ;; Ok (arg s0)) xs = Ok (first_src_args xs).
Proof.
  induction 1 as [|x xs Hx _ IH]; simpl; [reflexivity|].
  destruct (src x) as [|s0 rest]; [congruence|].
  simpl. rewrite IH. reflexivity.
Qed.

(** C10.  Take a [ScheduleItem] whose ast, when it is a [SINK], has only
    sources that have a source themselves (the stores).  Then [output_idxs]
    is the tuple of the args of the first sources of the [SINK]'s sources
    (the [DEFINE_GLOBAL] args of the stores), and [(0,)] when the ast is
    not a [SINK]; [outputs] and [inputs] both evaluate; [outputs] holds
    exactly the buffers at the positions of [bufs] listed in
    [output_idxs] and [inputs] those at the other positions, both in the
    order of [bufs]; together they are a rearrangement of [bufs], so
    every position of [bufs] lands in exactly one of the two; a buffer
    that stands once in [bufs] is in exactly one of them. *)
Theorem ScheduleItem_inputs_outputs_partition (si : ScheduleItem) :
  (op (ast si) = SINK -> Forall (fun x => src x <> []) (src (ast si))) ->
  exists idxs outs ins,
    output_idxs si = Ok idxs /\
    idxs = (if Ops_eqb (op (ast si)) SINK then first_src_args (src (ast si))
            else [AConst (CInt 0)]) /\
    outputs si = Ok outs /\ inputs si = Ok ins /\
    (forall b, In b outs <-> exists i, nth_error (bufs si) i = Some b /\ index_in i idxs = true) /\
    (forall b, In b ins <-> exists i, nth_error (bufs si) i = Some b /\ index_in i idxs = false) /\
    subseq outs (bufs si) /\ subseq ins (bufs si) /\
    Permutation (bufs si) (outs ++ ins) /\
    List.length outs + List.length ins = List.length (bufs si) /\
    (NoDup (bufs si) -> forall b, In b (bufs si) ->
       (In b outs /\ ~ In b ins) \/ (In b ins /\ ~ In b outs)).
Proof.
  intros Hast.
  set (idxs := if Ops_eqb (op (ast si)) SINK then first_src_args (src (ast si))
               else [AConst (CInt 0)]).
  assert (Hidx : output_idxs si = Ok idxs).
  { unfold output_idxs, idxs, Ops_eqb in *.
    destruct (Ops_eq_dec (op (ast si)) SINK) as [E|N]; [|reflexivity].
    apply output_idxs_of_stores. apply Hast. exact E. }
  exists idxs. unfold outputs, inputs. rewrite Hidx. simpl.
  eexists; eexists. split; [reflexivity|]. split; [reflexivity|].
  split; [reflexivity|]. split; [reflexivity|].
  pose proof (select_from_partition (fun i => index_in i idxs) (bufs si) 0) as HP.
  repeat split.
  - intros H; apply select_from_In in H; exact H.
  - intros H; apply select_from_In; exact H.
  - intros H; apply select_from_In in H. destruct H as [j [H1 H2]].
    exists j; split; auto. simpl in H2. destruct (index_in j idxs); auto; discriminate.
  - intros [j [H1 H2]]. apply select_from_In. exists j; split; auto. simpl; rewrite H2; auto.
  - apply select_from_subseq.
  - apply select_from_subseq.
  - exact HP.
  - apply Permutation_length in HP. rewrite length_app in HP. lia.
  - intros ND b Hb.
    apply In_nth_error in Hb. destruct Hb as [i Hi].
    destruct (index_in i idxs) eqn:E; [left | right]; split.
    + apply select_from_In; exists i; auto.
    + intros H; apply select_from_In in H; destruct H as [j [H1 H2]]; simpl in H2.
      assert (i = j) by (eapply nth_error_NoDup_inj; eauto). subst j.
      rewrite E in H2; discriminate.
    + apply select_from_In; exists i; simpl; rewrite E; auto.
    + intros H; apply select_from_In in H; destruct H as [j [H1 H2]]; simpl in H2.
      assert (i = j) by (eapply nth_error_NoDup_inj; eauto). subst j.
      congruence.
Qed.

(** ** Interfaces of the external collaborators

    schedule.py calls methods of [ShapeTracker] (tinygrad.shape) and
    properties of [UOp] (tinygrad.ops) whose code is in other modules.  The
    scheduler is embedded over any implementation of the two interfaces;
    what is proved below holds for each of them. *)

Class ShapeAPI : Type := {
  (** [st.shape] *)
  st_shape : ShapeTracker -> list sint;
  (** [st.contiguous] *)
  st_contiguous : ShapeTracker -> bool;
  (** [ShapeTracker.from_shape(shape)] *)
  st_from_shape : list sint -> ShapeTracker;
  (** [st.shrink(mask)] *)
  st_shrink : ShapeTracker -> list (sint * sint) -> ShapeTracker;
  (** [st.invert(shape)] *)
  st_invert : ShapeTracker -> list sint -> option ShapeTracker;
  (** [st.to_uop()] *)
  st_to_uop : ShapeTracker -> UOp
}.

Class UOpAPI : Type := {
  (** [u.st] *)
  uop_st : UOp -> option ShapeTracker;
  (** [u.size] *)
  uop_size : UOp -> result Z;
  (** [u.base] *)
  uop_base : UOp -> UOp;
  (** [u.buf_uop] *)
  uop_buf_uop : UOp -> result UOp;
  (** [u.st_arg] *)
  uop_st_arg : UOp -> result ShapeTracker;
  (** [u.const_arg] *)
  uop_const_arg : UOp -> result ConstType;
  (** [u.const_like(c)] *)
  uop_const_like : UOp -> ConstType -> result UOp;
  (** [u.buffer]: the device buffer behind a [BUFFER] node *)
  uop_buffer : UOp -> Buffer;
  (** [u.is_realized] and [u.device] *)
  uop_is_realized : UOp -> bool;
  uop_device : UOp -> result string;
  (** [u.view(st)] *)
  uop_view : UOp -> ShapeTracker -> UOp;
  (** [u.metadata] *)
  uop_metadata : UOp -> option Metadata;
  (** [UOp.const(dtype, c)] and [u.valid(st)] *)
  uop_const : DType -> ConstType -> UOp;
  uop_valid : UOp -> ShapeTracker -> UOp;
  (** [dtypes.min(dtype)] *)
  dtype_min : DType -> ConstType;
  (** Python's [c * n] and [c ** n] on a float [c = m * 2^e] and an int
      [n]: the float, or the error that Python raises ([OverflowError]
      when [n] is too large for a float or the power is out of range,
      [ZeroDivisionError] on a negative power of zero) *)
  float_mul_int : Z -> Z -> Z -> result ConstType;
  float_pow_int : Z -> Z -> Z -> result ConstType
}.

(** [u.shape] is [unwrap(u.st).shape]. *)
Definition uop_shape `{ShapeAPI} `{UOpAPI} (u : UOp) : result (list sint) :=
  st <- unwrap (uop_st u) ;; Ok (st_shape st).

(** ** Lowering to a kernel AST: the context of [to_si] (lines 172-187) *)

Record ScheduleItemContext : Type := mkSIC {
  sic_var_vals : dict UOp ConstType;
  sic_sts : list ShapeTracker;
  sic_bufs : list UOp
}.

Section ToSI.
Context `{SA : ShapeAPI} `{UA : UOpAPI}.

(** [_append_buf]: [ctx.bufs.append(x)], then
    [UOp(Ops.DEFINE_GLOBAL, x.dtype.ptr(size=x.size), (), len(ctx.bufs)-1)]. *)
Definition _append_buf (ctx : ScheduleItemContext) (x : UOp)
  : result (UOp * ScheduleItemContext) :=
  let ctx' := mkSIC (sic_var_vals ctx) (sic_sts ctx) (sic_bufs ctx ++ [x]) in
  sz <- uop_size x ;;
  Ok (mkUOp DEFINE_GLOBAL (DPtr (dtype x) sz) []
        (AConst (CInt (Z.of_nat (List.length (sic_bufs ctx')) - 1))),
      ctx').

(** Line 231: [tuple(u.buffer for u in si_ctx.bufs if u.size != 0)]. *)
Fixpoint item_bufs (us : list UOp) : result (list Buffer) :=
  match us with
  | [] => Ok []
  | u :: us' =>
      sz <- uop_size u ;;
      bs <- item_bufs us' ;;
      Ok (if Z.eqb sz 0 then bs else uop_buffer u :: bs)
  end.

End ToSI.

Section ToSI_facts.
Context `{SA : ShapeAPI} `{UA : UOpAPI}.




Lemma filter_all_true {A : Type} (p : A -> bool) (l : list A) :
  (forall y, In y l -> p y = true) -> filter p l = l.
Proof.
  induction l as [|a l IH]; intros H; simpl; auto.
  rewrite (H a (or_introl eq_refl)). f_equal. apply IH. intros; apply H; right; auto.
Qed.

End ToSI_facts.

(** ** Schedule context (lines 77-87) *)

Record ScheduleContext : Type := mkCtx {
  tensor_uops : dict UOp (list UOp);
  var_vals : dict UOp ConstType;
  assigns : list UOp;
  realizes : dict UOp UOp;
  allbufs : dict UOp UOp;
  ops_metadata : dict UOp Metadata;
  contiguous : dict UOp UOp;
  children : dict UOp (dict UOp unit);
  becomes_map : dict UOp UOp
}.

Definition empty_ctx : ScheduleContext := mkCtx [] [] [] [] [] [] [] [] [].

Definition set_tensor_uops (ctx : ScheduleContext) (d : dict UOp (list UOp)) : ScheduleContext :=
  mkCtx d (var_vals ctx) (assigns ctx) (realizes ctx) (allbufs ctx) (ops_metadata ctx)
    (contiguous ctx) (children ctx) (becomes_map ctx).

Definition set_var_vals (ctx : ScheduleContext) (d : dict UOp ConstType) : ScheduleContext :=
  mkCtx (tensor_uops ctx) d (assigns ctx) (realizes ctx) (allbufs ctx) (ops_metadata ctx)
    (contiguous ctx) (children ctx) (becomes_map ctx).

Definition set_realizes (ctx : ScheduleContext) (d : dict UOp UOp) : ScheduleContext :=
  mkCtx (tensor_uops ctx) (var_vals ctx) (assigns ctx) d (allbufs ctx) (ops_metadata ctx)
    (contiguous ctx) (children ctx) (becomes_map ctx).

Definition set_ops_metadata (ctx : ScheduleContext) (d : dict UOp Metadata) : ScheduleContext :=
  mkCtx (tensor_uops ctx) (var_vals ctx) (assigns ctx) (realizes ctx) (allbufs ctx) d
    (contiguous ctx) (children ctx) (becomes_map ctx).

Definition set_contiguous (ctx : ScheduleContext) (d : dict UOp UOp) : ScheduleContext :=
  mkCtx (tensor_uops ctx) (var_vals ctx) (assigns ctx) (realizes ctx) (allbufs ctx)
    (ops_metadata ctx) d (children ctx) (becomes_map ctx).

Definition set_becomes_map (ctx : ScheduleContext) (d : dict UOp UOp) : ScheduleContext :=
  mkCtx (tensor_uops ctx) (var_vals ctx) (assigns ctx) (realizes ctx) (allbufs ctx)
    (ops_metadata ctx) (contiguous ctx) (children ctx) d.

(** ** Pattern matchers

    Modelled from the spec: a rule returns an optional node, [None] meaning
    no change; a [PatternMatcher] tries its rules in order and returns the
    first result that is not [None].  A rule here is the pattern and its
    function together: it answers [None] on a node its pattern does not
    match.  A rule may update the context it is handed. *)

Definition rule (C : Type) : Type := C -> UOp -> result (option UOp * C).

Fixpoint pm_rewrite {C : Type} (rules : list (rule C)) (ctx : C) (u : UOp)
  : result (option UOp * C) :=
  match rules with
  | [] => Ok (None, ctx)
  | r :: rs =>
      res <- r ctx u ;;
      match fst res with
      | Some v => Ok (Some v, snd res)
      | None => pm_rewrite rs (snd res) u
      end
  end.

(** Modelled from the spec: [UOp.store(b, st, value)] builds
    [Store(b, st, value)]. *)
Definition UOp_store (b st x : UOp) : UOp := mkUOp STORE (DScalar void) [b; st; x] ANone.

(** ** Rewriting VIEW into LOAD/STORE or fusing (lines 472-496) *)

Section BreakSched.
Context `{SA : ShapeAPI} `{UA : UOpAPI}.

(** [unbind_variable] *)
Definition unbind_variable (ctx : ScheduleContext) (bind var val : UOp)
  : result (option UOp * ScheduleContext) :=
  v1 <- tuple_get (src val) 1 ;;
  c <- uop_const_arg v1 ;;
  match c with
  | CFloat _ _ => Err AssertionError
  | _ =>
      let ret := mkUOp (op var) (dtype var) [] (arg var) in
      let ctx' := set_var_vals ctx (dset UOp_eq_dec (var_vals ctx) ret c) in
      st <- unwrap (uop_st bind) ;;
      Ok (Some (uop_valid ret st), ctx')
  end.

(** [load_realized] *)
Definition load_realized (ctx : ScheduleContext) (b st : UOp)
  : result (option UOp * ScheduleContext) :=
  s <- unwrap (uop_st st) ;;
  Ok (Some (mkUOp (if mem UOp_eq_dec b (assigns ctx) then PRELOAD else LOAD)
              (dtype_base (dtype b)) [b; st_to_uop s] ANone),
      ctx).

(** [store_or_fuse] *)
Definition store_or_fuse (ctx : ScheduleContext) (b x st : UOp)
  : result (option UOp * ScheduleContext) :=
  luops <- dgetitem UOp_eq_dec (tensor_uops ctx) b ;;
  l0 <- tuple_get luops 0 ;;
  let ctx1 := match uop_metadata l0 with
              | Some m => set_ops_metadata ctx (dset UOp_eq_dec (ops_metadata ctx) x m)
              | None => ctx
              end in
  if negb (dmem UOp_eq_dec (realizes ctx1) b) then Ok (Some x, ctx1) else
  shp <- uop_shape st ;;
  let ctx2 := set_realizes ctx1
                (dset UOp_eq_dec (realizes ctx1) b
                   (UOp_store b (st_to_uop (st_from_shape shp)) x)) in
  s <- unwrap (uop_st st) ;;
  Ok (Some (mkUOp LOAD (dtype x) [b; st_to_uop s] ANone), ctx2).

(** [break_sched] *)
Definition break_sched : list (rule ScheduleContext) :=
  [ (* CONST is always fused and generated *)
    (fun ctx u =>
       match u with
       | mkUOp CONST d [st] _ =>
           if Ops_eqb (op st) VIEW
           then c <- uop_const_arg u ;;
                s <- unwrap (uop_st st) ;;
                Ok (Some (uop_valid (uop_const d c) s), ctx)
           else Ok (None, ctx)
       | _ => Ok (None, ctx)
       end);
    (fun ctx u =>
       match u with
       | mkUOp BIND _ [var; val] _ => unbind_variable ctx u var val
       | _ => Ok (None, ctx)
       end);
    (* VIEW of BUFFER either becomes a LOAD/STORE or we fuse it *)
    (fun ctx u =>
       match u with
       | mkUOp VIEW _ [b] _ =>
           if Ops_eqb (op b) BUFFER then load_realized ctx b u else Ok (None, ctx)
       | _ => Ok (None, ctx)
       end);
    (fun ctx u =>
       match u with
       | mkUOp VIEW _ [b; x] _ =>
           if Ops_eqb (op b) BUFFER then store_or_fuse ctx b x u else Ok (None, ctx)
       | _ => Ok (None, ctx)
       end) ].

(** C9.  [break_sched] on a [VIEW] whose only source is a [BUFFER] [b]
    (a realized buffer, nothing stored through the view) answers with the
    node of [load_realized] and leaves the context as it is: the opcode is
    [PRELOAD] exactly when [b] is in [ctx.assigns] and [LOAD] otherwise;
    the sources are [b] and the view's shape-tracker as a node; the dtype
    is the base of [b]'s dtype. *)
Theorem break_sched_view_of_buffer
  (ctx : ScheduleContext) (b : UOp) (d : DType) (a : Arg) (s : ShapeTracker) :
  let view := mkUOp VIEW d [b] a in
  let r := mkUOp (if mem UOp_eq_dec b (assigns ctx) then PRELOAD else LOAD)
             (dtype_base (dtype b)) [b; st_to_uop s] ANone in
  op b = BUFFER ->
  uop_st view = Some s ->
  pm_rewrite break_sched ctx view = Ok (Some r, ctx) /\
  load_realized ctx b view = Ok (Some r, ctx) /\
  (op r = PRELOAD <-> In b (assigns ctx)) /\
  (op r = LOAD <-> ~ In b (assigns ctx)) /\
  src r = [b; st_to_uop s] /\
  dtype r = dtype_base (dtype b).
Proof.
  intros view r Hb Hst.
  assert (Hl : load_realized ctx b view = Ok (Some r, ctx)).
  { unfold load_realized. rewrite Hst. reflexivity. }
  split; [|split]; [|exact Hl|].
  - unfold view at 1. simpl. unfold Ops_eqb. rewrite Hb.
    destruct (Ops_eq_dec BUFFER BUFFER) as [_|N]; [|congruence].
    fold view. rewrite Hl. reflexivity.
  - unfold r. simpl. destruct (mem UOp_eq_dec b (assigns ctx)) eqn:E.
    + apply mem_true_iff in E. repeat split; auto; try discriminate. intros; contradiction.
    + apply mem_false_iff in E. repeat split; auto; try discriminate. intros; contradiction.
Qed.

End BreakSched.

(** ** Buffer merging (lines 403-429) *)

Section MergeBufs.
Context `{SA : ShapeAPI} `{UA : UOpAPI}.

(** [merge] *)
Definition merge (ctx : ScheduleContext) (v1 b1 v2 b2 : UOp)
  : result (option UOp * ScheduleContext) :=
  match uop_st v1, uop_st v2 with
  | Some s1, Some s2 =>
      if ShapeTracker_eq_dec s1 s2 then
        (* if b2 is realized also realize b1 *)
        rz <- (if dmem UOp_eq_dec (realizes ctx) b2
               then ddel UOp_eq_dec (dset UOp_eq_dec (realizes ctx) b1 b1) b2
               else Ok (realizes ctx)) ;;
        (* ops referring to b2 now ref to b1 *)
        t1 <- dgetitem UOp_eq_dec (tensor_uops ctx) b1 ;;
        t2 <- dgetitem UOp_eq_dec (tensor_uops ctx) b2 ;;
        tu <- ddel UOp_eq_dec (dset UOp_eq_dec (tensor_uops ctx) b1 (t1 ++ t2)) b2 ;;
        Ok (Some v1, set_tensor_uops (set_realizes ctx rz) tu)
      else Err AssertionError
  | _, _ => Err AssertionError
  end.

(** [merge_realized]: the loop body, then the loop. *)
Definition early_become (b1 : UOp) (bm : result (dict UOp UOp)) (luop : UOp)
  : result (dict UOp UOp) :=
  m <- bm ;;
  st <- unwrap (uop_st luop) ;;
  Ok (dset UOp_eq_dec m luop (uop_view b1 st)).

Definition merge_realized (ctx : ScheduleContext) (v1 b1 v2 b2 : UOp)
  : result (option UOp * ScheduleContext) :=
  let get b := match dget UOp_eq_dec (tensor_uops ctx) b with Some l => l | None => [] end in
  bm <- fold_left (early_become b1) (get b1 ++ get b2) (Ok (becomes_map ctx)) ;;
  Ok (Some v1, set_becomes_map ctx bm).

(** [merge_bufs] *)
Definition merge_bufs : list (rule ScheduleContext) :=
  [ (* merge base *)
    (fun ctx v2 =>
       match v2 with
       | mkUOp VIEW _ [b2; mkUOp VIEW d1 [b1; x] a1] _ =>
           if Ops_eqb (op b2) BUFFER && Ops_eqb (op b1) BUFFER
           then merge ctx (mkUOp VIEW d1 [b1; x] a1) b1 v2 b2
           else Ok (None, ctx)
       | _ => Ok (None, ctx)
       end);
    (fun ctx v2 =>
       match v2 with
       | mkUOp VIEW _ [b2; mkUOp VIEW d1 [b1] a1] _ =>
           if Ops_eqb (op b2) BUFFER && Ops_eqb (op b1) BUFFER
           then merge_realized ctx (mkUOp VIEW d1 [b1] a1) b1 v2 b2
           else Ok (None, ctx)
       | _ => Ok (None, ctx)
       end);
    (* collapse view *)
    (fun ctx u =>
       match u with
       | mkUOp VIEW _ [b2; mkUOp VIEW dm [mkUOp VIEW d1 [b1; x] a1] am] _ =>
           if Ops_eqb (op b2) BUFFER && Ops_eqb (op b1) BUFFER
           then Ok (Some (mkUOp VIEW dm [mkUOp VIEW d1 [b1; x] a1] am), ctx)
           else Ok (None, ctx)
       | _ => Ok (None, ctx)
       end);
    (fun ctx u =>
       match u with
       | mkUOp VIEW _ [b2; mkUOp VIEW dm [mkUOp VIEW d1 [b1] a1] am] _ =>
           if Ops_eqb (op b2) BUFFER && Ops_eqb (op b1) BUFFER
           then Ok (Some (mkUOp VIEW dm [mkUOp VIEW d1 [b1] a1] am), ctx)
           else Ok (None, ctx)
       | _ => Ok (None, ctx)
       end) ].

End MergeBufs.

Section MergeBufs_facts.
Context `{SA : ShapeAPI} `{UA : UOpAPI}.

Lemma ddel_present {V : Type} (d : dict UOp V) (k : UOp) (v : V) :
  dget UOp_eq_dec d k = Some v -> ddel UOp_eq_dec d k = Ok (dremove UOp_eq_dec d k).
Proof. intros H; unfold ddel, dmem; rewrite H; reflexivity. Qed.

(** C7 (as amended).  On [View(B2, View(B1, op))] with two distinct
    buffers, equal shape-trackers on the two views and tensor links
    recorded for both buffers, [merge_bufs] answers with the inner
    [View(B1, op)]: [B1] is the buffer that stays, whether or not it is in
    [realizes].  In [tensor_uops], [B1] now has its own links followed by
    those of [B2], and [B2] has no entry.  If [B2] was in [realizes] then
    [realizes[B1] = B1] and [B2] has no entry; if it was not, [realizes]
    is as before.  Every other entry and every other field of the context
    is as before. *)
Theorem merge_bufs_inner_buffer_stays
  (ctx : ScheduleContext) (b1 b2 x : UOp) (d1 d2 : DType) (a1 a2 : Arg)
  (s : ShapeTracker) (t1 t2 : list UOp) :
  let v1 := mkUOp VIEW d1 [b1; x] a1 in
  let v2 := mkUOp VIEW d2 [b2; v1] a2 in
  op b1 = BUFFER -> op b2 = BUFFER -> b1 <> b2 ->
  uop_st v1 = Some s -> uop_st v2 = Some s ->
  dget UOp_eq_dec (tensor_uops ctx) b1 = Some t1 ->
  dget UOp_eq_dec (tensor_uops ctx) b2 = Some t2 ->
  dict_wf (tensor_uops ctx) -> dict_wf (realizes ctx) ->
  exists ctx',
    pm_rewrite merge_bufs ctx v2 = Ok (Some v1, ctx') /\
    dget UOp_eq_dec (tensor_uops ctx') b1 = Some (t1 ++ t2) /\
    dget UOp_eq_dec (tensor_uops ctx') b2 = None /\
    (forall k, k <> b1 -> k <> b2 ->
       dget UOp_eq_dec (tensor_uops ctx') k = dget UOp_eq_dec (tensor_uops ctx) k) /\
    (dmem UOp_eq_dec (realizes ctx) b2 = true ->
       dget UOp_eq_dec (realizes ctx') b1 = Some b1 /\
       dget UOp_eq_dec (realizes ctx') b2 = None /\
       forall k, k <> b1 -> k <> b2 ->
         dget UOp_eq_dec (realizes ctx') k = dget UOp_eq_dec (realizes ctx) k) /\
    (dmem UOp_eq_dec (realizes ctx) b2 = false -> realizes ctx' = realizes ctx) /\
    var_vals ctx' = var_vals ctx /\ assigns ctx' = assigns ctx /\
    allbufs ctx' = allbufs ctx /\ ops_metadata ctx' = ops_metadata ctx /\
    contiguous ctx' = contiguous ctx /\ children ctx' = children ctx /\
    becomes_map ctx' = becomes_map ctx.
Proof.
  intros v1 v2 Hb1 Hb2 Hne Hs1 Hs2 Ht1 Ht2 Hwt Hwr.
  assert (Hrun : exists rz,
    (if dmem UOp_eq_dec (realizes ctx) b2
     then ddel UOp_eq_dec (dset UOp_eq_dec (realizes ctx) b1 b1) b2
     else Ok (realizes ctx)) = Ok rz /\
    rz = (if dmem UOp_eq_dec (realizes ctx) b2
          then dremove UOp_eq_dec (dset UOp_eq_dec (realizes ctx) b1 b1) b2
          else realizes ctx)).
  { unfold dmem. destruct (dget UOp_eq_dec (realizes ctx) b2) as [r2|] eqn:E.
    - eexists; split; [|reflexivity].
      apply ddel_present with (v := r2). rewrite dget_dset_other; auto.
    - eexists; split; reflexivity. }
  destruct Hrun as [rz [Hrz Hrzeq]].
  assert (Htu : ddel UOp_eq_dec (dset UOp_eq_dec (tensor_uops ctx) b1 (t1 ++ t2)) b2
                = Ok (dremove UOp_eq_dec (dset UOp_eq_dec (tensor_uops ctx) b1 (t1 ++ t2)) b2)).
  { apply ddel_present with (v := t2). rewrite dget_dset_other; auto. }
  eexists. split.
  - unfold v2, v1. simpl. unfold Ops_eqb. rewrite Hb1, Hb2.
    destruct (Ops_eq_dec BUFFER BUFFER) as [_|N]; [|congruence]. simpl.
    unfold merge. fold v1. fold v2. rewrite Hs1, Hs2.
    destruct (ShapeTracker_eq_dec s s) as [_|N]; [|congruence].
    rewrite Hrz. simpl. unfold dgetitem. rewrite Ht1, Ht2. simpl.
    rewrite Htu. simpl. reflexivity.
  - simpl. repeat split.
    + rewrite dget_dremove_other; auto. apply dget_dset_same.
    + apply dget_dremove_same. apply dict_wf_dset; assumption.
    + intros k N1 N2. rewrite dget_dremove_other; auto. apply dget_dset_other; auto.
    + subst rz. rewrite H. rewrite dget_dremove_other; auto. apply dget_dset_same.
    + subst rz. rewrite H. apply dget_dremove_same. apply dict_wf_dset; assumption.
    + intros k N1 N2. subst rz. rewrite H.
      rewrite dget_dremove_other; auto. apply dget_dset_other; auto.
    + intros H. subst rz. rewrite H. reflexivity.
Qed.

End MergeBufs_facts.

(** ** Schedule-level constant folding (lines 347-401) *)

(** Python's [c * n] and [c ** n] for a constant [c] and an int [n]; a
    [bool] counts as the int 0 or 1, a negative power of an int is a
    float.  On ints the two are exact and raise nothing; on a float they
    raise what Python raises. *)
Definition const_mul `{UOpAPI} (c : ConstType) (n : Z) : result ConstType :=
  match c with
  | CInt a => Ok (CInt (a * n))
  | CBool b => Ok (CInt ((if b then 1 else 0) * n))
  | CFloat m e => float_mul_int m e n
  end.

Definition const_pow `{UOpAPI} (c : ConstType) (n : Z) : result ConstType :=
  match c with
  | CInt a => if Z.leb 0 n then Ok (CInt (a ^ n)) else float_pow_int a 0 n
  | CBool b => if Z.leb 0 n then Ok (CInt ((if b then 1 else 0) ^ n))
               else float_pow_int (if b then 1 else 0) 0 n
  | CFloat m e => float_pow_int m e n
  end.

(** Modelled from the spec: [identity_element] of tinygrad.ops, the
    identity of a reduce op ([Add -> 0], [Mul -> 1], [Max -> dtype_min]);
    any other op is not a key of its table. *)
Definition identity_element `{UOpAPI} (o : Ops) (d : DType) : result ConstType :=
  match o with
  | ADD => Ok (CInt 0)
  | MUL => Ok (CInt 1)
  | MAX => Ok (dtype_min d)
  | _ => Err KeyError
  end.

(** Python's [a == 0] on an arg. *)
Definition arg_is_zero (a : Arg) : bool :=
  match a with
  | AConst (CInt n) => Z.eqb n 0
  | AConst (CBool b) => negb b
  | AConst (CFloat m _) => Z.eqb m 0
  | _ => false
  end.

(** [reduce.arg] is [(alu, axes)]. *)
Definition reduce_arg (u : UOp) : result (Ops * list nat) :=
  match arg u with
  | AReduce o axes => Ok (o, axes)
  | _ => Err TypeError
  end.

Section Folding.
Context `{SA : ShapeAPI} `{UA : UOpAPI}.

(** [symbolic_simple] of tinygrad.ops, the rules [ops_folding] starts with. *)
Variable symbolic_simple : list (rule ScheduleContext).

(** [simplify_reduceop] *)
Definition simplify_reduceop (reduce x : UOp) : result (option UOp) :=
  shp <- uop_shape x ;;
  if negb (all_int shp) then Ok None else
  (* remove reduce on unmasked const *)
  ra <- reduce_arg reduce ;;
  st <- unwrap (uop_st x) ;;
  dims <- mapM (tuple_get (st_shape st)) (snd ra) ;;
  let prshape := prod (ints dims) in
  c <- uop_const_arg x ;;
  match fst ra with
  | ADD => ret <- const_mul c prshape ;; r <- uop_const_like reduce ret ;; Ok (Some r)
  | MUL => ret <- const_pow c prshape ;; r <- uop_const_like reduce ret ;; Ok (Some r)
  | MAX => r <- uop_const_like reduce c ;; Ok (Some r)
  | _ => Ok None
  end.

(** [found_contiguous] *)
Definition found_contiguous (ctx : ScheduleContext) (contig base b : UOp)
  : result (option UOp * ScheduleContext) :=
  match src contig with
  | c0 :: _ =>
      if Ops_eqb (op c0) VIEW then
        match src c0 with
        | old_base :: _ =>
            if Ops_eqb (op old_base) VIEW then
              st <- unwrap (uop_st c0) ;;
              shp <- uop_shape old_base ;;
              match st_invert st shp with
              | Some sti =>
                  Ok (None, set_contiguous ctx
                              (dset UOp_eq_dec (contiguous ctx) old_base (uop_view base sti)))
              | None => Ok (None, ctx)
              end
            else Ok (None, ctx)
        | [] => Ok (None, ctx)
        end
      else Ok (None, ctx)
  | [] => Err IndexError
  end.

(** [replace_contiguous] *)
Definition replace_contiguous (ctx : ScheduleContext) (alu : UOp) : option UOp :=
  let new_src := map (fun s => match dget UOp_eq_dec (contiguous ctx) s with
                               | Some r => r
                               | None => s
                               end) (src alu) in
  if list_eq_dec UOp_eq_dec new_src (src alu) then None
  else Some (mkUOp (op alu) (dtype alu) new_src (arg alu)).

(** [UPat.cvar]: a [CONST] (or [VCONST]) node. *)
Definition is_cvar (x : UOp) : bool := Ops_eqb (op x) CONST || Ops_eqb (op x) VCONST.

(** The rules that [ops_folding] adds to [symbolic_simple], in order. *)

(** op with size 0 is zero *)
Definition fold_size0 : rule ScheduleContext := fun ctx root =>
  if Ops_eqb (op root) SINK then Ok (None, ctx) else
  match uop_st (uop_base root) with
  | None => Ok (None, ctx)
  | Some _ =>
      sz <- uop_size root ;;
      if Z.eqb sz 0
         && negb (Ops_eqb (op (uop_base root)) CONST && arg_is_zero (arg (uop_base root)))
      then r <- uop_const_like root (CInt 0) ;; Ok (Some r, ctx)
      else Ok (None, ctx)
  end.

(** if the uop folded to a CONST we can delete the BUFFER *)
Definition fold_const_buffer : rule ScheduleContext := fun ctx base =>
  match base with
  | mkUOp VIEW _ [b; const] _ =>
      if Ops_eqb (op b) BUFFER && Ops_eqb (op const) CONST
      then c <- uop_const_arg const ;; r <- uop_const_like base c ;; Ok (Some r, ctx)
      else Ok (None, ctx)
  | _ => Ok (None, ctx)
  end.

(** DETACH is a NOOP here *)
Definition fold_detach : rule ScheduleContext := fun ctx detach =>
  if Ops_eqb (op detach) DETACH
  then s0 <- tuple_get (src detach) 0 ;; Ok (Some s0, ctx)
  else Ok (None, ctx).

(** reduce of size 0 is the identity element *)
Definition fold_reduce_empty : rule ScheduleContext := fun ctx reduce =>
  match reduce with
  | mkUOp REDUCE_AXIS _ [x] _ =>
      xsz <- uop_size x ;;
      if negb (Z.eqb xsz 0) then Ok (None, ctx) else
      rsz <- uop_size reduce ;;
      if Z.eqb rsz 0 then Ok (None, ctx) else
      ra <- reduce_arg reduce ;;
      c <- identity_element (fst ra) (dtype reduce) ;;
      r <- uop_const_like reduce c ;;
      Ok (Some r, ctx)
  | _ => Ok (None, ctx)
  end.

(** reduce of const is collapsed *)
Definition fold_reduce_const : rule ScheduleContext := fun ctx reduce =>
  match reduce with
  | mkUOp REDUCE_AXIS _ [x] _ =>
      if is_cvar x then r <- simplify_reduceop reduce x ;; Ok (r, ctx) else Ok (None, ctx)
  | _ => Ok (None, ctx)
  end.

(** COPY(CONST) creates a new CONST on the destination device *)
Definition fold_copy_const : rule ScheduleContext := fun ctx root =>
  match root with
  | mkUOp COPY _ [_; x] _ =>
      if is_cvar x
      then c <- uop_const_arg x ;; r <- uop_const_like root c ;; Ok (Some r, ctx)
      else Ok (None, ctx)
  | _ => Ok (None, ctx)
  end.

(** no COPY to same device, except clone (arg is True) *)
Definition fold_copy_same_device : rule ScheduleContext := fun ctx copy =>
  match copy with
  | mkUOp COPY _ [_; copyin] a =>
      d1 <- uop_device copyin ;;
      d2 <- uop_device copy ;;
      if String.eqb d1 d2 && negb (if Arg_eq_dec a (AConst (CBool true)) then true else false)
      then Ok (Some copyin, ctx) else Ok (None, ctx)
  | _ => Ok (None, ctx)
  end.

(** remove contiguous if we can just view the buffer *)
Definition fold_contiguous_view : rule ScheduleContext := fun ctx root =>
  match root with
  | mkUOp CONTIGUOUS _ [mkUOp VIEW dv [b] av] _ =>
      if Ops_eqb (op b) BUFFER then
        let view := mkUOp VIEW dv [b] av in
        st <- match uop_st view with Some st => Ok st | None => Err AttributeError end ;;
        if negb (st_contiguous st) then Ok (None, ctx) else
        vs <- uop_size view ;;
        bs <- uop_size b ;;
        if Z.eqb vs bs then Ok (Some view, ctx) else Ok (None, ctx)
      else Ok (None, ctx)
  | _ => Ok (None, ctx)
  end.

(** double contiguous is one contiguous *)
Definition fold_double_contiguous : rule ScheduleContext := fun ctx root =>
  match root with
  | mkUOp CONTIGUOUS _ [c] _ =>
      if Ops_eqb (op c) CONTIGUOUS then Ok (Some c, ctx) else Ok (None, ctx)
  | _ => Ok (None, ctx)
  end.

(** support for using a contiguous permuted view instead of the parent view *)
Definition fold_found_contiguous : rule ScheduleContext := fun ctx base =>
  match base with
  | mkUOp VIEW _ [b; contig] _ =>
      if Ops_eqb (op b) BUFFER && Ops_eqb (op contig) CONTIGUOUS
      then found_contiguous ctx contig base b
      else Ok (None, ctx)
  | _ => Ok (None, ctx)
  end.

Definition fold_replace_contiguous : rule ScheduleContext := fun ctx alu =>
  if mem Ops_eq_dec (op alu) GroupOp_ALU
  then Ok (replace_contiguous ctx alu, ctx)
  else Ok (None, ctx).

(** remove CONST/BIND/BUFFER/VIEW from SINK *)
Definition fold_sink : rule ScheduleContext := fun ctx root =>
  if Ops_eqb (op root) SINK then
    let new_src :=
      map uop_base
        (filter (fun x => negb (uop_is_realized x)
                          && negb (mem Ops_eq_dec (op (uop_base x)) [CONST; BIND]))
           (src root)) in
    if list_eq_dec UOp_eq_dec new_src (src root) then Ok (None, ctx)
    else Ok (Some (mkUOp SINK (dtype root) new_src (arg root)), ctx)
  else Ok (None, ctx).

Definition ops_folding_rules : list (rule ScheduleContext) :=
  [ fold_size0; fold_const_buffer; fold_detach; fold_reduce_empty; fold_reduce_const;
    fold_copy_const; fold_copy_same_device; fold_contiguous_view; fold_double_contiguous;
    fold_found_contiguous; fold_replace_contiguous; fold_sink ].

Definition ops_folding : list (rule ScheduleContext) := symbolic_simple ++ ops_folding_rules.

End Folding.

Section Folding_facts.
Context `{SA : ShapeAPI} `{UA : UOpAPI}.
Variable symbolic_simple : list (rule ScheduleContext).

Lemma pm_rewrite_app {C : Type} (l1 l2 : list (rule C)) (ctx ctx' : C) (u : UOp) :
  pm_rewrite l1 ctx u = Ok (None, ctx') ->
  pm_rewrite (l1 ++ l2) ctx u = pm_rewrite l2 ctx' u.
Proof.
  revert ctx; induction l1 as [|r l1 IH]; intros ctx H; simpl in *.
  - inversion H; reflexivity.
  - destruct (r ctx u) as [[[v|] c1]|e]; simpl in *; try discriminate.
    apply IH; assumption.
Qed.

Lemma pm_rewrite_skip {C : Type} (r : rule C) (rs : list (rule C)) (ctx : C) (u : UOp) :
  r ctx u = Ok (None, ctx) -> pm_rewrite (r :: rs) ctx u = pm_rewrite rs ctx u.
Proof. intros H; simpl; rewrite H; reflexivity. Qed.

Lemma pm_rewrite_fire {C : Type} (r : rule C) (rs : list (rule C)) (ctx ctx' : C) (u v : UOp) :
  r ctx u = Ok (Some v, ctx') -> pm_rewrite (r :: rs) ctx u = Ok (Some v, ctx').
Proof. intros H; simpl; rewrite H; reflexivity. Qed.

(** The size-0 rule leaves a node of non-zero size alone. *)
Lemma fold_size0_nonzero (ctx : ScheduleContext) (u : UOp) (n : Z) :
  uop_size u = Ok n -> n <> 0%Z -> fold_size0 ctx u = Ok (None, ctx).
Proof.
  intros Hs Hn. unfold fold_size0.
  destruct (Ops_eqb (op u) SINK); auto.
  destruct (uop_st (uop_base u)); auto.
  rewrite Hs; simpl. apply Z.eqb_neq in Hn. rewrite Hn. reflexivity.
Qed.

(** C6 (as amended).  A [ReduceAxis] over an input of size 0 whose own
    size is not 0, on which [symbolic_simple] has no rewrite, is turned by
    the folding pass into the constant, shaped like the reduce, of the
    identity element of its reduce op; the identity is 0 for [Add], 1 for
    [Mul] and the dtype's minimum for [Max]. *)
Theorem reduce_of_empty_input_is_identity
  (ctx : ScheduleContext) (d : DType) (x : UOp) (o : Ops) (axes : list nat)
  (n : Z) (c : ConstType) (r : UOp) :
  let reduce := mkUOp REDUCE_AXIS d [x] (AReduce o axes) in
  pm_rewrite symbolic_simple ctx reduce = Ok (None, ctx) ->
  uop_size x = Ok 0%Z ->
  uop_size reduce = Ok n -> n <> 0%Z ->
  identity_element o d = Ok c ->
  uop_const_like reduce c = Ok r ->
  pm_rewrite (ops_folding symbolic_simple) ctx reduce = Ok (Some r, ctx) /\
  identity_element ADD d = Ok (CInt 0) /\
  identity_element MUL d = Ok (CInt 1) /\
  identity_element MAX d = Ok (dtype_min d).
Proof.
  intros reduce Hsym Hx Hr Hn Hid Hcl.
  split; [|repeat split; reflexivity].
  unfold ops_folding. rewrite (pm_rewrite_app _ _ _ _ Hsym).
  unfold ops_folding_rules.
  rewrite pm_rewrite_skip by (eapply fold_size0_nonzero; eauto).
  rewrite pm_rewrite_skip by reflexivity.
  rewrite pm_rewrite_skip by reflexivity.
  apply pm_rewrite_fire.
  unfold fold_reduce_empty, reduce. rewrite Hx. cbn [rbind Z.eqb negb].
  fold reduce. rewrite Hr. cbn [rbind].
  apply Z.eqb_neq in Hn. rewrite Hn.
  unfold reduce_arg, reduce; cbn [arg rbind fst dtype].
  rewrite Hid. cbn [rbind]. fold reduce. rewrite Hcl. reflexivity.
Qed.

(** C5 (as amended).  Let [x], the input of a [ReduceAxis], be a constant
    [c].  When the shape of [x] is all-integer, with [prshape] the product
    of the sizes of the reduced axes, [simplify_reduceop] answers the
    constant shaped like the reduce of [c * prshape] for [Add], of
    [c ** prshape] for [Mul], of [c] for [Max], and [None] (no rewrite)
    for any other reduce op; [*] and [**] are Python's, and the error they
    raise on a float ([OverflowError]) is raised by the rule in place of
    an answer.  When the shape of [x] has a symbolic dimension the rule
    answers [None] for every reduce op.  The folding pass gives the
    answer of this rule, or raises its error, on every such node that
    [symbolic_simple] leaves alone and whose input and own sizes are not
    0; where the rule answers [None] the pass leaves the node as it is. *)
Theorem reduce_of_const_folds
  (ctx : ScheduleContext) (d : DType) (x : UOp) (o : Ops) (axes : list nat)
  (st : ShapeTracker) :
  let reduce := mkUOp REDUCE_AXIS d [x] (AReduce o axes) in
  op x = CONST ->
  uop_st x = Some st ->
  (all_int (st_shape st) = true ->
   forall dims c,
     mapM (tuple_get (st_shape st)) axes = Ok dims ->
     uop_const_arg x = Ok c ->
     let prshape := prod (ints dims) in
     simplify_reduceop reduce x =
       match o with
       | ADD => ret <- const_mul c prshape ;; r <- uop_const_like reduce ret ;; Ok (Some r)
       | MUL => ret <- const_pow c prshape ;; r <- uop_const_like reduce ret ;; Ok (Some r)
       | MAX => r <- uop_const_like reduce c ;; Ok (Some r)
       | _ => Ok None
       end) /\
  (all_int (st_shape st) = false -> simplify_reduceop reduce x = Ok None) /\
  (forall nx nr,
     pm_rewrite symbolic_simple ctx reduce = Ok (None, ctx) ->
     uop_size x = Ok nx -> nx <> 0%Z ->
     uop_size reduce = Ok nr -> nr <> 0%Z ->
     pm_rewrite (ops_folding symbolic_simple) ctx reduce =
       (r <- simplify_reduceop reduce x ;; Ok (r, ctx)) /\
     (simplify_reduceop reduce x = Ok None ->
      pm_rewrite (ops_folding symbolic_simple) ctx reduce = Ok (None, ctx)) /\
     (forall e, simplify_reduceop reduce x = Err e ->
      pm_rewrite (ops_folding symbolic_simple) ctx reduce = Err e)).
Proof.
  intros reduce Hop Hst.
  split; [|split].
  { intros Hint dims c Hdims Hc prshape.
    unfold simplify_reduceop, uop_shape. rewrite Hst. cbn [unwrap rbind].
    rewrite Hint. cbn [negb]. unfold reduce_arg, reduce at 1. cbn [arg rbind snd fst].
    rewrite Hdims. cbn [rbind]. rewrite Hc. cbn [rbind]. fold prshape. reflexivity. }
  { intros Hsym. unfold simplify_reduceop, uop_shape. rewrite Hst. cbn [unwrap rbind].
    rewrite Hsym. reflexivity. }
  intros nx nr Hsym Hx Hnx Hr Hnr.
  assert (Hpass : pm_rewrite (ops_folding symbolic_simple) ctx reduce =
                  (r <- simplify_reduceop reduce x ;; Ok (r, ctx))).
  { unfold ops_folding. rewrite (pm_rewrite_app _ _ _ _ Hsym).
    unfold ops_folding_rules.
    rewrite pm_rewrite_skip by (eapply fold_size0_nonzero; eauto).
    rewrite pm_rewrite_skip by reflexivity.
    rewrite pm_rewrite_skip by reflexivity.
    rewrite pm_rewrite_skip.
    2:{ unfold fold_reduce_empty, reduce. rewrite Hx. cbn [rbind].
        apply Z.eqb_neq in Hnx. rewrite Hnx. reflexivity. }
    assert (Hcv : is_cvar x = true) by (unfold is_cvar; rewrite Hop; reflexivity).
    cbn [pm_rewrite]. unfold fold_reduce_const at 1, reduce at 1. rewrite Hcv. fold reduce.
    destruct (simplify_reduceop reduce x) as [[v|]|e]; cbn [rbind fst snd]; reflexivity. }
  split; [exact Hpass|]. split.
  - intros Hnone. rewrite Hpass, Hnone. reflexivity.
  - intros e He. rewrite Hpass, He. reflexivity.
Qed.

End Folding_facts.

(** ** Per-kernel lowering: [schedule_uop] (lines 208-232) *)

Definition assign_cycle_msg : string := "cycle detected in graph".

(** The first line of the message; the help text follows it in the source. *)
Definition self_assign_msg : string := "self operand of augmented assign must be contiguous.".

Section ScheduleUOp.
Context `{SA : ShapeAPI} `{UA : UOpAPI}.

(** The rewrite engine is in tinygrad.ops.  [rewrite_views pre store_bufs] is
    [graph_rewrite(graph_rewrite(pre, multioutput+view_left, store_bufs), view_right)],
    [lower_to_si sink si_ctx] is [graph_rewrite(sink, to_si, si_ctx)] with
    the context it leaves, and [toposort u] lists the keys of [u.toposort]. *)
Variable rewrite_views : UOp -> dict UOp UOp -> result UOp.
Variable lower_to_si : UOp -> ScheduleItemContext -> result (UOp * ScheduleItemContext).
Variable toposort : UOp -> list UOp.

(** [{x.buf_uop:x.src[2] for x in pre.src}] *)
Fixpoint store_bufs_of (stores : list UOp) (acc : dict UOp UOp) : result (dict UOp UOp) :=
  match stores with
  | [] => Ok acc
  | x :: rest =>
      b <- uop_buf_uop x ;;
      v <- tuple_get (src x) 2 ;;
      store_bufs_of rest (dset UOp_eq_dec acc b v)
  end.

(** Lines 224-225, the test on a non-contiguous view [st]: one view, with
    a mask, and shrinking a contiguous tracker of the same shape by the
    mask gives what shrinking [st] by it gives. *)
Definition masked_view_ok (st : ShapeTracker) : bool :=
  match views st with
  | [v] =>
      match v_mask v with
      | Some mask =>
          if ShapeTracker_eq_dec (st_shrink (st_from_shape (st_shape st)) mask) (st_shrink st mask)
          then true else false
      | None => false
      end
  | _ => false
  end.

(** The body of the loop of lines 216-227 on one node [x], with the
    preloads collected so far. *)
Definition assign_step (store_bufs : dict UOp UOp) (preloads : list UOp) (x : UOp)
  : result (list UOp) :=
  (* we only allow a kernel to depend on either the before ASSIGN or after ASSIGN
     version of a BUFFER *)
  _ <- (if Ops_eqb (op x) LOAD
        then b <- uop_buf_uop x ;;
             if mem UOp_eq_dec b preloads then Err (RuntimeError assign_cycle_msg) else Ok tt
        else Ok tt) ;;
  (* PRELOAD tells the toposort this kernel should run before ASSIGN *)
  if Ops_eqb (op x) PRELOAD then
    b <- uop_buf_uop x ;;
    let preloads' := preloads ++ [b] in
    if dmem UOp_eq_dec store_bufs b then
      st <- uop_st_arg x ;;
      if st_contiguous st then Ok preloads'
      else if masked_view_ok st then Ok preloads'
           else Err (RuntimeError self_assign_msg)
    else Ok preloads'
  else Ok preloads.

(** The loop over [list(sink.toposort)[::-1]], given as the list [xs]. *)
Fixpoint assign_walk (store_bufs : dict UOp UOp) (preloads : list UOp) (xs : list UOp)
  : result (list UOp) :=
  match xs with
  | [] => Ok preloads
  | x :: rest =>
      preloads' <- assign_step store_bufs preloads x ;;
      assign_walk store_bufs preloads' rest
  end.

(** The metadata of the ops of [pre], in toposort order, without repeats. *)
Definition item_metadata (ctx : ScheduleContext) (pre : UOp) : list Metadata :=
  dedup Metadata_eq_dec
    (flat_map (fun x => match dget UOp_eq_dec (ops_metadata ctx) x with
                        | Some m => [m]
                        | None => []
                        end) (toposort pre)).

(** [schedule_uop]; the context comes back because the lowering context
    shares [ctx.var_vals].  The process-replay capture only records the
    call and is left out. *)
Definition schedule_uop (pre : UOp) (ctx : ScheduleContext)
  : result (ScheduleItem * ScheduleContext) :=
  (* remove movement ops + substitute LOAD of fused STORE with just the value *)
  store_bufs <- store_bufs_of (src pre) [] ;;
  sink <- rewrite_views pre store_bufs ;;
  (* remove extra uops from SINK + substitue BUFFER with DEFINE_GLOBAL *)
  lowered <- lower_to_si sink (mkSIC (var_vals ctx) [] []) ;;
  let ast := fst lowered in
  let si_ctx := snd lowered in
  (* deal with ASSIGN *)
  assign_preloads <- (match assigns ctx with
                      | [] => Ok []
                      | _ :: _ => assign_walk store_bufs [] (rev (toposort sink))
                      end) ;;
  bs <- item_bufs (sic_bufs si_ctx) ;;
  Ok (mkScheduleItem ast bs (item_metadata ctx pre) (dedup UOp_eq_dec assign_preloads),
      set_var_vals ctx (sic_var_vals si_ctx)).

End ScheduleUOp.

Section ScheduleUOp_facts.
Context `{SA : ShapeAPI} `{UA : UOpAPI}.
Variable rewrite_views : UOp -> dict UOp UOp -> result UOp.
Variable lower_to_si : UOp -> ScheduleItemContext -> result (UOp * ScheduleItemContext).
Variable toposort : UOp -> list UOp.

Lemma assign_walk_app (sb : dict UOp UOp) (xs ys : list UOp) : forall pl,
  assign_walk sb pl (xs ++ ys) = (pl' <- assign_walk sb pl xs ;; assign_walk sb pl' ys).
Proof.
  induction xs as [|x xs IH]; intros pl; simpl; auto.
  destruct (assign_step sb pl x); simpl; auto.
Qed.

Lemma masked_view_ok_iff (st : ShapeTracker) :
  masked_view_ok st = true <->
  exists v mask, views st = [v] /\ v_mask v = Some mask /\
    st_shrink (st_from_shape (st_shape st)) mask = st_shrink st mask.
Proof.
  unfold masked_view_ok. split.
  - destruct (views st) as [|v [|v' vs]]; try discriminate.
    destruct (v_mask v) as [mask|] eqn:Em; try discriminate.
    destruct (ShapeTracker_eq_dec _ _) as [E|N]; try discriminate.
    intros _. exists v, mask; auto.
  - intros (v & mask & Hv & Hm & E). rewrite Hv, Hm.
    destruct (ShapeTracker_eq_dec _ _); congruence.
Qed.

(** The step on a [PRELOAD] of a buffer the kernel stores to. *)
Lemma assign_step_preload_stored (sb : dict UOp UOp) (pl : list UOp) (x b : UOp)
  (st : ShapeTracker) :
  op x = PRELOAD -> uop_buf_uop x = Ok b -> dmem UOp_eq_dec sb b = true ->
  uop_st_arg x = Ok st ->
  assign_step sb pl x =
    if st_contiguous st || masked_view_ok st then Ok (pl ++ [b])
    else Err (RuntimeError self_assign_msg).
Proof.
  intros Hop Hb Hin Hst. unfold assign_step. rewrite Hop. simpl.
  rewrite Hb. simpl. rewrite Hin, Hst. simpl.
  destruct (st_contiguous st); simpl; auto.
Qed.

(** The preloads collected by the walk only grow. *)
Lemma assign_step_grows (sb : dict UOp UOp) (pl pl' : list UOp) (x : UOp) :
  assign_step sb pl x = Ok pl' -> incl pl pl'.
Proof.
  unfold assign_step. intros H.
  destruct (Ops_eqb (op x) LOAD).
  - destruct (uop_buf_uop x) as [b|e]; simpl in H; [|discriminate].
    destruct (mem UOp_eq_dec b pl); simpl in H; [discriminate|].
    destruct (Ops_eqb (op x) PRELOAD).
    + destruct (dmem UOp_eq_dec sb b).
      * destruct (uop_st_arg x) as [st|e]; simpl in H; [|discriminate].
        destruct (st_contiguous st); [|destruct (masked_view_ok st)];
          inversion H; subst; try (intros y Hy; apply in_or_app; left; exact Hy).
      * inversion H; subst. intros y Hy; apply in_or_app; left; exact Hy.
    + inversion H; subst. intros y Hy; exact Hy.
  - simpl in H. destruct (Ops_eqb (op x) PRELOAD).
    + destruct (uop_buf_uop x) as [b|e]; simpl in H; [|discriminate].
      destruct (dmem UOp_eq_dec sb b).
      * destruct (uop_st_arg x) as [st|e]; simpl in H; [|discriminate].
        destruct (st_contiguous st); [|destruct (masked_view_ok st)];
          inversion H; subst; try (intros y Hy; apply in_or_app; left; exact Hy).
      * inversion H; subst. intros y Hy; apply in_or_app; left; exact Hy.
    + inversion H; subst. intros y Hy; exact Hy.
Qed.

Lemma assign_walk_grows (sb : dict UOp UOp) (xs : list UOp) : forall pl pl',
  assign_walk sb pl xs = Ok pl' -> incl pl pl'.
Proof.
  induction xs as [|x xs IH]; intros pl pl' H; simpl in H.
  - inversion H; subst. intros y Hy; exact Hy.
  - destruct (assign_step sb pl x) as [pl1|e] eqn:E; simpl in H; [|discriminate].
    intros y Hy. apply (IH _ _ H). apply (@assign_step_grows sb pl pl1 x E). exact Hy.
Qed.

Lemma assign_step_preload_collects (sb : dict UOp UOp) (pl pl' : list UOp) (x b : UOp) :
  op x = PRELOAD -> uop_buf_uop x = Ok b ->
  assign_step sb pl x = Ok pl' -> In b pl'.
Proof.
  intros Hop Hb H. unfold assign_step in H. rewrite Hop in H. simpl in H.
  rewrite Hb in H. simpl in H.
  destruct (dmem UOp_eq_dec sb b).
  - destruct (uop_st_arg x) as [st|e]; simpl in H; [|discriminate].
    destruct (st_contiguous st); [|destruct (masked_view_ok st)];
      inversion H; subst; try (apply in_or_app; right; left; reflexivity).
  - inversion H; subst. apply in_or_app; right; left; reflexivity.
Qed.

Lemma assign_step_load_rejected (sb : dict UOp UOp) (pl : list UOp) (x b : UOp) :
  op x = LOAD -> uop_buf_uop x = Ok b -> In b pl ->
  assign_step sb pl x = Err (RuntimeError assign_cycle_msg).
Proof.
  intros Hop Hb Hin. unfold assign_step. rewrite Hop. simpl. rewrite Hb. simpl.
  apply (proj2 (mem_true_iff UOp_eq_dec b pl)) in Hin. rewrite Hin. reflexivity.
Qed.

(** X4.  What the walk of lines 216-227 does detect: a [LOAD] of a buffer
    met after a [PRELOAD] of the same buffer stops the walk, and with the
    assign-cycle error when nothing was raised before it. *)
Lemma load_after_preload_is_rejected (sb : dict UOp UOp)
  (before mid after : list UOp) (p l b : UOp) (pl0 : list UOp) :
  op p = PRELOAD -> uop_buf_uop p = Ok b ->
  op l = LOAD -> uop_buf_uop l = Ok b ->
  (exists e, assign_walk sb pl0 (before ++ p :: mid ++ l :: after) = Err e) /\
  (forall pl1, assign_walk sb pl0 (before ++ p :: mid) = Ok pl1 ->
     assign_walk sb pl0 (before ++ p :: mid ++ l :: after)
       = Err (RuntimeError assign_cycle_msg)).
Proof.
  intros Hp Hpb Hl Hlb.
  assert (Hkey : forall pl1, assign_walk sb pl0 (before ++ p :: mid) = Ok pl1 ->
            assign_walk sb pl0 (before ++ p :: mid ++ l :: after)
              = Err (RuntimeError assign_cycle_msg)).
  { intros pl1 H1.
    replace (before ++ p :: mid ++ l :: after) with ((before ++ p :: mid) ++ l :: after)
      by (rewrite <- app_assoc; reflexivity).
    rewrite assign_walk_app, H1. cbn [rbind assign_walk].
    rewrite (@assign_step_load_rejected sb pl1 l b Hl Hlb); [reflexivity|].
    rewrite assign_walk_app in H1.
    destruct (assign_walk sb pl0 before) as [pla|e]; cbn [rbind] in H1; [|discriminate].
    cbn [assign_walk] in H1.
    destruct (assign_step sb pla p) as [plb|e] eqn:Ep; cbn [rbind] in H1; [|discriminate].
    apply (@assign_walk_grows sb mid plb pl1 H1).
    apply (@assign_step_preload_collects sb pla plb p b Hp Hpb Ep). }
  split; [|exact Hkey].
  destruct (assign_walk sb pl0 (before ++ p :: mid)) as [pl1|e] eqn:E.
  - eexists. apply (Hkey pl1). reflexivity.
  - exists e.
    replace (before ++ p :: mid ++ l :: after) with ((before ++ p :: mid) ++ l :: after)
      by (rewrite <- app_assoc; reflexivity).
    rewrite assign_walk_app, E. reflexivity.
Qed.

(** C4 (as amended).  In a context with at least one assign, let [x] be a
    [PRELOAD], met by the walk of [schedule_uop], of a buffer that the
    kernel also stores to, and [st] its view.  If the call returns an item
    then [st] is contiguous, or is a single view whose mask [m] makes the
    shrink by [m] of a contiguous tracker of the same shape equal to the
    shrink of [st] by [m].  In every other case the call fails; it fails
    with the non-contiguous self-assign error whenever the lowering pass
    and the walk up to [x] raised nothing before. *)
Theorem preload_of_stored_buffer_needs_contiguous_or_masked
  (pre : UOp) (ctx : ScheduleContext) (store_bufs : dict UOp UOp) (sink : UOp)
  (before after : list UOp) (x b : UOp) (st : ShapeTracker) :
  assigns ctx <> [] ->
  store_bufs_of (src pre) [] = Ok store_bufs ->
  rewrite_views pre store_bufs = Ok sink ->
  rev (toposort sink) = before ++ x :: after ->
  op x = PRELOAD -> uop_buf_uop x = Ok b -> dmem UOp_eq_dec store_bufs b = true ->
  uop_st_arg x = Ok st ->
  (forall r, schedule_uop rewrite_views lower_to_si toposort pre ctx = Ok r ->
     st_contiguous st = true \/
     exists v mask, views st = [v] /\ v_mask v = Some mask /\
       st_shrink (st_from_shape (st_shape st)) mask = st_shrink st mask) /\
  (st_contiguous st = false -> masked_view_ok st = false ->
     (exists e, schedule_uop rewrite_views lower_to_si toposort pre ctx = Err e) /\
     (forall lowered pl,
        lower_to_si sink (mkSIC (var_vals ctx) [] []) = Ok lowered ->
        assign_walk store_bufs [] before = Ok pl ->
        schedule_uop rewrite_views lower_to_si toposort pre ctx
          = Err (RuntimeError self_assign_msg))).
Proof.
  intros Hne Hsb Hrw Hwalk Hop Hb Hin Hst.
  assert (Hrun : schedule_uop rewrite_views lower_to_si toposort pre ctx =
    (lowered <- lower_to_si sink (mkSIC (var_vals ctx) [] []) ;;
     assign_preloads <- (pl <- assign_walk store_bufs [] before ;;
                         pl' <- (if st_contiguous st || masked_view_ok st then Ok (pl ++ [b])
                                 else Err (RuntimeError self_assign_msg)) ;;
                         assign_walk store_bufs pl' after) ;;
     bs <- item_bufs (sic_bufs (snd lowered)) ;;
     Ok (mkScheduleItem (fst lowered) bs (item_metadata toposort ctx pre)
           (dedup UOp_eq_dec assign_preloads),
         set_var_vals ctx (sic_var_vals (snd lowered))))).
  { unfold schedule_uop. rewrite Hsb. cbn [rbind]. rewrite Hrw. cbn [rbind].
    destruct (lower_to_si sink _) as [lowered|e]; cbn [rbind]; auto.
    destruct (assigns ctx) as [|a0 l0]; [congruence|].
    rewrite Hwalk, assign_walk_app. cbn [assign_walk].
    destruct (assign_walk store_bufs [] before) as [pl|e]; cbn [rbind]; auto.
    rewrite assign_step_preload_stored with (b := b) (st := st) by assumption. reflexivity. }
  split.
  - intros r Hr. rewrite Hrun in Hr.
    destruct (lower_to_si sink _) as [lowered|e]; cbn [rbind] in Hr; [|discriminate].
    destruct (assign_walk store_bufs [] before) as [pl|e]; cbn [rbind] in Hr; [|discriminate].
    destruct (st_contiguous st) eqn:Ec; [left; reflexivity|].
    destruct (masked_view_ok st) eqn:Em; [|discriminate].
    right. apply masked_view_ok_iff; assumption.
  - intros Ec Em. rewrite Hrun, Ec, Em. cbn [orb]. split.
    + destruct (lower_to_si sink _) as [lowered|e]; cbn [rbind]; [|eexists; reflexivity].
      destruct (assign_walk store_bufs [] before) as [pl|e]; cbn [rbind]; eexists; reflexivity.
    + intros lowered pl Hl Hp. rewrite Hl, Hp. reflexivity.
Qed.


End ScheduleUOp_facts.

(** ** The kernel graph and its BFS (lines 549-570) *)

Section KernelGraph.
Variable A : Type.
Variable A_eq_dec : forall x y : A, {x = y} + {x <> y}.

(** [graph] and [in_degree] are [defaultdict]s that are read and written by
    key and never iterated: total maps with the default value. *)
Record KGraph : Type := mkKG {
  kg_graph : A -> list A;
  kg_in_degree : A -> Z
}.

Definition kg_empty : KGraph := mkKG (fun _ => []) (fun _ => 0%Z).

Definition upd {B : Type} (f : A -> B) (k : A) (v : B) : A -> B :=
  fun x => if A_eq_dec x k then v else f x.

(** [graph[u].append(v); in_degree[v] += 1] *)
Definition add_edge (g : KGraph) (u v : A) : KGraph :=
  mkKG (upd (kg_graph g) u (kg_graph g u ++ [v]))
       (upd (kg_in_degree g) v (kg_in_degree g v + 1)%Z).

(** [in_degree[x] -= 1; if in_degree[x] == 0: queue.append(x)] *)
Definition relax (st : (A -> Z) * list A) (x : A) : (A -> Z) * list A :=
  let d := upd (fst st) x (fst st x - 1)%Z in
  if Z.eqb (d x) 0 then (d, snd st ++ [x]) else (d, snd st).

(** The [while queue] loop; [None] when the fuel runs out. *)
Fixpoint bfs (fuel : nat) (graph : A -> list A) (in_degree : A -> Z)
  (queue schedule : list A) : option (list A) :=
  match queue with
  | [] => Some schedule
  | si :: q =>
      match fuel with
      | O => None
      | S f =>
          let st := fold_left relax (graph si) (in_degree, q) in
          bfs f graph (fst st) (snd st) (schedule ++ [si])
      end
  end.

(** Enough fuel for the loop on the kernels [P]. *)
Definition bfs_fuel (in_degree : A -> Z) (P : list A) : nat :=
  List.length P + list_sum (map (fun x => Z.to_nat (in_degree x)) P).

(** [u] stands before [x] in [s]. *)
Definition before (s : list A) (u x : A) : Prop :=
  exists l1 l2 l3, s = l1 ++ u :: l2 ++ x :: l3.

Lemma upd_same {B : Type} (f : A -> B) k v : upd f k v k = v.
Proof. unfold upd; destruct (A_eq_dec k k); congruence. Qed.

Lemma upd_other {B : Type} (f : A -> B) k v x : x <> k -> upd f k v x = f x.
Proof. unfold upd; destruct (A_eq_dec x k); congruence. Qed.

(** *** What one pass over [graph[si]] does *)

Lemma relax_fold (l : list A) : forall d q d' q',
  fold_left relax l (d, q) = (d', q') ->
  (forall y, d' y = (d y - Z.of_nat (count_occ A_eq_dec l y))%Z) /\
  exists pushed,
    q' = q ++ pushed /\ NoDup pushed /\
    forall y, In y pushed -> In y l /\ (1 <= d y)%Z /\ (d' y <= 0)%Z.
Proof.
  induction l as [|x l IH]; intros d q d' q' H; simpl in H.
  - inversion H; subst. split.
    + intros y; simpl; lia.
    + exists []. rewrite app_nil_r. split; [reflexivity|]. split; [constructor|].
      intros y [].
  - unfold relax at 2 in H. cbn [fst snd] in H. rewrite upd_same in H.
    set (d1 := upd d x (d x - 1)%Z) in *.
    assert (Hd1 : forall y, d1 y = (d y - (if A_eq_dec x y then 1 else 0))%Z).
    { intros y. unfold d1. destruct (A_eq_dec x y) as [<-|N].
      - rewrite upd_same; lia.
      - rewrite upd_other by congruence; lia. }
    assert (Hcount : forall y, (Z.of_nat (count_occ A_eq_dec (x :: l) y)
                     = (if A_eq_dec x y then 1 else 0) + Z.of_nat (count_occ A_eq_dec l y))%Z).
    { intros y; simpl. destruct (A_eq_dec x y); lia. }
    destruct (Z.eqb (d x - 1) 0) eqn:E.
    + apply IH in H. destruct H as [Hd' (pushed & Hq & Hnd & Hp)].
      split.
      * intros y. rewrite Hd', Hd1, Hcount. lia.
      * exists (x :: pushed). split; [rewrite Hq, <- app_assoc; reflexivity|].
        apply Z.eqb_eq in E. split.
        -- constructor; auto. intros Hin. apply Hp in Hin.
           destruct Hin as (_ & H1 & _). rewrite Hd1 in H1.
           destruct (A_eq_dec x x); [lia | congruence].
        -- intros y [<-|Hin].
           ++ repeat split; [left; reflexivity | lia |].
              rewrite Hd', Hd1. destruct (A_eq_dec x x); [lia | congruence].
           ++ apply Hp in Hin. destruct Hin as (Hl & H1 & H2).
              repeat split; [right; assumption | | assumption].
              rewrite Hd1 in H1. destruct (A_eq_dec x y); lia.
    + apply IH in H. destruct H as [Hd' (pushed & Hq & Hnd & Hp)].
      split.
      * intros y. rewrite Hd', Hd1, Hcount. lia.
      * exists pushed. repeat split; auto.
        -- right. apply Hp; assumption.
        -- destruct (Hp y H) as (_ & H1 & _). rewrite Hd1 in H1.
           destruct (A_eq_dec x y); lia.
        -- apply Hp; assumption.
Qed.

(** *** The loop ends *)

Definition potential (d : A -> Z) (q U : list A) : nat :=
  List.length q + list_sum (map (fun x => Z.to_nat (d x)) U).

Lemma sum_upd_le (d : A -> Z) (x : A) (U : list A) :
  list_sum (map (fun y => Z.to_nat (upd d x (d x - 1)%Z y)) U)
  <= list_sum (map (fun y => Z.to_nat (d y)) U).
Proof.
  induction U as [|u U IH]; simpl; auto.
  unfold upd at 1. destruct (A_eq_dec u x) as [->|N]; lia.
Qed.

Lemma sum_upd_lt (d : A -> Z) (x : A) (U : list A) :
  In x U -> (1 <= d x)%Z ->
  list_sum (map (fun y => Z.to_nat (upd d x (d x - 1)%Z y)) U)
  < list_sum (map (fun y => Z.to_nat (d y)) U).
Proof.
  intros Hin Hpos. induction U as [|u U IH]; simpl; [contradiction|].
  pose proof (sum_upd_le d x U) as Hle.
  destruct Hin as [->|Hin].
  - rewrite upd_same. lia.
  - specialize (IH Hin). unfold upd at 1. destruct (A_eq_dec u x) as [->|N]; lia.
Qed.

Lemma relax_potential (U : list A) (d : A -> Z) (q : list A) (x : A) :
  In x U ->
  potential (fst (relax (d, q) x)) (snd (relax (d, q) x)) U <= potential d q U.
Proof.
  intros Hin. unfold relax, potential. cbn [fst snd]. rewrite upd_same.
  destruct (Z.eqb (d x - 1) 0) eqn:E; cbn [fst snd].
  - apply Z.eqb_eq in E. rewrite length_app; simpl.
    pose proof (@sum_upd_lt d x U Hin). lia.
  - pose proof (sum_upd_le d x U). lia.
Qed.

Lemma relax_fold_potential (U l : list A) : forall d q,
  incl l U ->
  potential (fst (fold_left relax l (d, q))) (snd (fold_left relax l (d, q))) U
  <= potential d q U.
Proof.
  induction l as [|x l IH]; intros d q Hl; simpl; auto.
  destruct (relax (d, q) x) as [d1 q1] eqn:E.
  etransitivity; [apply IH; intros y Hy; apply Hl; right; assumption|].
  pose proof (@relax_potential U d q x (Hl x (or_introl eq_refl))) as H.
  rewrite E in H. exact H.
Qed.

Lemma bfs_terminates (graph : A -> list A) (U : list A) :
  (forall u, incl (graph u) U) ->
  forall fuel d q s, potential d q U <= fuel -> bfs fuel graph d q s <> None.
Proof.
  intros Hg. induction fuel as [|f IH]; intros d q s Hpot.
  - destruct q as [|si q]; simpl; [discriminate|].
    unfold potential in Hpot; simpl in Hpot; lia.
  - destruct q as [|si q]; simpl; [discriminate|].
    apply IH.
    pose proof (@relax_fold_potential U (graph si) d q (Hg si)) as H.
    unfold potential in *; simpl in Hpot. lia.
Qed.

(** *** Edges and in-degrees agree *)

(** All edges end in [U], and [in_degree] counts the edges into a kernel. *)
Definition kg_wf (U : list A) (g : KGraph) : Prop :=
  forall u, incl (kg_graph g u) U.

Definition edges_into (graph : A -> list A) (us : list A) (x : A) : nat :=
  list_sum (map (fun u => count_occ A_eq_dec (graph u) x) us).

Definition kg_balanced (U : list A) (g : KGraph) : Prop :=
  forall x, kg_in_degree g x = Z.of_nat (edges_into (kg_graph g) U x).

Lemma sum_change_one (U : list A) (h h' : A -> nat) (u : A) (k : nat) :
  NoDup U -> In u U ->
  h' u = h u + k -> (forall w, w <> u -> h' w = h w) ->
  list_sum (map h' U) = list_sum (map h U) + k.
Proof.
  intros ND Hin Hu Hw. induction U as [|a U IH]; simpl; [contradiction|].
  inversion ND as [|? ? Hna ND']; subst.
  destruct Hin as [->|Hin].
  - rewrite Hu. assert (E : map h' U = map h U).
    { apply map_ext_in. intros w Hwin. apply Hw. intros ->. contradiction. }
    rewrite E. lia.
  - rewrite (IH ND' Hin). rewrite (Hw a); [lia|]. intros ->. contradiction.
Qed.

Lemma add_edge_wf (U : list A) (g : KGraph) (u v : A) :
  In v U -> kg_wf U g -> kg_wf U (add_edge g u v).
Proof.
  intros Hv Hg w x Hx. simpl in Hx. unfold upd in Hx.
  destruct (A_eq_dec w u) as [->|N].
  - apply in_app_or in Hx. destruct Hx as [Hx|[<-|[]]]; [apply (Hg u x Hx) | assumption].
  - apply (Hg w x Hx).
Qed.

Lemma add_edge_balanced (U : list A) (g : KGraph) (u v : A) :
  NoDup U -> In u U -> kg_balanced U g -> kg_balanced U (add_edge g u v).
Proof.
  intros ND Hu Hb x. simpl. unfold edges_into.
  rewrite (@sum_change_one U (fun w => count_occ A_eq_dec (kg_graph g w) x)
             (fun w => count_occ A_eq_dec (upd (kg_graph g) u (kg_graph g u ++ [v]) w) x)
             u (if A_eq_dec v x then 1 else 0) ND Hu).
  - unfold upd at 1. specialize (Hb x). unfold edges_into in Hb.
    destruct (A_eq_dec x v) as [->|N].
    + destruct (A_eq_dec v v); [lia | congruence].
    + destruct (A_eq_dec v x); [congruence | lia].
  - rewrite upd_same, count_occ_app. simpl. destruct (A_eq_dec v x); lia.
  - intros w N. rewrite upd_other by assumption. reflexivity.
Qed.

Lemma add_edge_In (g : KGraph) (u v : A) : In v (kg_graph (add_edge g u v) u).
Proof. simpl. rewrite upd_same. apply in_or_app; right; left; reflexivity. Qed.

Lemma add_edge_mono (g : KGraph) (u v w x : A) :
  In x (kg_graph g w) -> In x (kg_graph (add_edge g u v) w).
Proof.
  intros H. simpl. unfold upd. destruct (A_eq_dec w u) as [->|N]; auto.
  apply in_or_app; left; assumption.
Qed.

(** *** The order of the schedule *)

Section Order.
Variable graph : A -> list A.
Variable U : list A.
Hypothesis U_nodup : NoDup U.
Hypothesis graph_in_U : forall u, incl (graph u) U.

(** The edges into [x] from the kernels not yet in [s]. *)
Definition pending (s : list A) (x : A) : nat :=
  edges_into graph (filter (fun u => negb (mem A_eq_dec u s)) U) x.

Record bfs_inv (d : A -> Z) (q s : list A) : Prop := mk_bfs_inv {
  inv_nodup : NoDup (s ++ q);
  inv_incl : incl (s ++ q) U;
  inv_degree : forall x, d x = Z.of_nat (pending s x);
  inv_ready : forall x, In x (s ++ q) -> d x = 0%Z;
  inv_order : forall u x, In x s -> In u U -> In x (graph u) -> before s u x
}.

Lemma list_sum_ge (l : list nat) (a : nat) : In a l -> a <= list_sum l.
Proof.
  induction l as [|b l IH]; simpl; [contradiction|].
  intros [->|H]; [lia | specialize (IH H); lia].
Qed.

Lemma pending_zero_pred (s : list A) (u x : A) :
  pending s x = 0 -> In u U -> In x (graph u) -> In u s.
Proof.
  intros Hp Hu Hx. destruct (in_dec A_eq_dec u s) as [Hin|Hnin]; auto.
  exfalso. unfold pending, edges_into in Hp.
  assert (Hmem : In (count_occ A_eq_dec (graph u) x)
            (map (fun u0 => count_occ A_eq_dec (graph u0) x)
               (filter (fun u0 => negb (mem A_eq_dec u0 s)) U))).
  { apply in_map_iff. exists u. split; auto. apply filter_In. split; auto.
    apply (proj2 (mem_false_iff A_eq_dec u s)) in Hnin. rewrite Hnin. reflexivity. }
  apply list_sum_ge in Hmem. apply (count_occ_In A_eq_dec) in Hx. lia.
Qed.

Lemma pending_step (s : list A) (si x : A) :
  In si U -> ~ In si s ->
  pending s x = pending (s ++ [si]) x + count_occ A_eq_dec (graph si) x.
Proof.
  intros Hin Hnin. unfold pending, edges_into.
  clear graph_in_U. induction U as [|a U' IH]; simpl; [contradiction|].
  inversion U_nodup as [|? ? Hna ND']; subst.
  destruct Hin as [->|Hin].
  - apply (proj2 (mem_false_iff A_eq_dec si s)) in Hnin. rewrite Hnin. simpl.
    assert (Hsi : mem A_eq_dec si (s ++ [si]) = true).
    { apply mem_true_iff. apply in_or_app; right; left; reflexivity. }
    rewrite Hsi. simpl.
    assert (E : filter (fun u => negb (mem A_eq_dec u (s ++ [si]))) U'
              = filter (fun u => negb (mem A_eq_dec u s)) U').
    { apply filter_ext_in. intros w Hw. f_equal.
      destruct (mem A_eq_dec w s) eqn:E1.
      - apply mem_true_iff. apply mem_true_iff in E1. apply in_or_app; left; assumption.
      - apply mem_false_iff. apply mem_false_iff in E1. intros H.
        apply in_app_or in H. destruct H as [H|[<-|[]]]; contradiction. }
    rewrite E. lia.
  - assert (Ha : mem A_eq_dec a (s ++ [si]) = mem A_eq_dec a s).
    { destruct (mem A_eq_dec a s) eqn:E1.
      - apply mem_true_iff. apply mem_true_iff in E1. apply in_or_app; left; assumption.
      - apply mem_false_iff. apply mem_false_iff in E1. intros H.
        apply in_app_or in H. destruct H as [H|[<-|[]]]; contradiction. }
    rewrite Ha. specialize (IH ND' Hin).
    destruct (mem A_eq_dec a s); simpl; lia.
Qed.

Lemma before_app (s : list A) (u x y : A) : before s u x -> before (s ++ [y]) u x.
Proof.
  intros (l1 & l2 & l3 & ->). exists l1, l2, (l3 ++ [y]).
  rewrite <- !app_assoc. simpl. rewrite <- app_assoc. reflexivity.
Qed.

Lemma before_last (s : list A) (u x : A) : In u s -> before (s ++ [x]) u x.
Proof.
  intros H. apply in_split in H. destruct H as (l1 & l2 & ->).
  exists l1, l2, []. rewrite <- app_assoc. reflexivity.
Qed.

Lemma bfs_inv_step (d : A -> Z) (si : A) (q s : list A) (d' : A -> Z) (q' : list A) :
  bfs_inv d (si :: q) s ->
  fold_left relax (graph si) (d, q) = (d', q') ->
  bfs_inv d' q' (s ++ [si]).
Proof.
  intros [Hnd Hincl Hdeg Hready Hord] Hfold.
  apply relax_fold in Hfold. destruct Hfold as [Hd' (pushed & -> & Hpnd & Hp)].
  assert (HsiU : In si U) by (apply Hincl; apply in_or_app; right; left; reflexivity).
  assert (Hsis : ~ In si s).
  { intros H. apply NoDup_remove_2 in Hnd. apply Hnd. apply in_or_app; left; assumption. }
  assert (Hdeg' : forall x, d' x = Z.of_nat (pending (s ++ [si]) x)).
  { intros x. rewrite Hd', Hdeg, (@pending_step s si x HsiU Hsis). lia. }
  assert (Hold : forall x, In x (s ++ si :: q) -> d' x = 0%Z).
  { intros x Hx. pose proof (Hready x Hx) as H0. pose proof (Hdeg' x) as H1.
    rewrite Hd' in H1. rewrite Hd'. lia. }
  constructor.
  - rewrite <- app_assoc. simpl. rewrite app_comm_cons, app_assoc.
    apply NoDup_app; auto.
    intros x Hx Hpx. apply Hp in Hpx. destruct Hpx as (_ & H1 & _).
    rewrite (Hready x Hx) in H1. lia.
  - intros x Hx. rewrite <- app_assoc in Hx. simpl in Hx.
    rewrite app_comm_cons, app_assoc in Hx. apply in_app_or in Hx.
    destruct Hx as [Hx|Hx]; [apply Hincl; assumption|].
    apply Hp in Hx. destruct Hx as (Hx & _). exact (graph_in_U si x Hx).
  - exact Hdeg'.
  - intros x Hx. rewrite <- app_assoc in Hx. simpl in Hx.
    rewrite app_comm_cons, app_assoc in Hx. apply in_app_or in Hx.
    destruct Hx as [Hx|Hx]; [apply Hold; assumption|].
    apply Hp in Hx. destruct Hx as (_ & _ & H2). pose proof (Hdeg' x). lia.
  - intros u x Hx Hu Hxu. apply in_app_or in Hx. destruct Hx as [Hx|[<-|[]]].
    + apply before_app. apply Hord; assumption.
    + apply before_last. apply (@pending_zero_pred s u si); auto.
      assert (H0 : d si = 0%Z) by (apply Hready; apply in_or_app; right; left; reflexivity).
      rewrite Hdeg in H0. lia.
Qed.

Lemma bfs_order : forall fuel d q s r,
  bfs_inv d q s ->
  bfs fuel graph d q s = Some r ->
  NoDup r /\ incl r U /\ incl s r /\
  forall u x, In x r -> In u U -> In x (graph u) -> before r u x.
Proof.
  induction fuel as [|f IH]; intros d q s r Hinv Hrun.
  - destruct q as [|si q]; simpl in Hrun; [|discriminate].
    inversion Hrun; subst. destruct Hinv as [Hnd Hincl _ _ Hord].
    rewrite app_nil_r in *. repeat split; auto. intros x Hx; exact Hx.
  - destruct q as [|si q]; simpl in Hrun.
    + inversion Hrun; subst. destruct Hinv as [Hnd Hincl _ _ Hord].
      rewrite app_nil_r in *. repeat split; auto. intros x Hx; exact Hx.
    + destruct (fold_left relax (graph si) (d, q)) as [d' q'] eqn:E.
      cbn [fst snd] in Hrun.
      pose proof (bfs_inv_step Hinv E) as Hinv'.
      destruct (IH _ _ _ _ Hinv' Hrun) as (H1 & H2 & H3 & H4).
      repeat split; auto. intros x Hx. apply H3. apply in_or_app; left; assumption.
Qed.

Lemma bfs_inv_init (d : A -> Z) (P : list A) :
  NoDup P -> incl P U ->
  (forall x, d x = Z.of_nat (edges_into graph U x)) ->
  bfs_inv d (filter (fun si => Z.eqb (d si) 0) P) [].
Proof.
  intros ND Hincl Hd. constructor; simpl.
  - apply NoDup_filter. assumption.
  - intros x Hx. apply filter_In in Hx. apply Hincl. tauto.
  - intros x. rewrite Hd. unfold pending. f_equal. f_equal.
    symmetry. apply filter_all_true. intros y _. reflexivity.
  - intros x Hx. apply filter_In in Hx. apply Z.eqb_eq. tauto.
  - intros u x [].
Qed.

End Order.

End KernelGraph.


(** ** Schedule creation and BFS toposort (lines 547-572)

    [is] between two items of [prescheduled] is equality of values here:
    the items of one schedule write different buffers, so they are
    pairwise different values (the theorems ask for [NoDup]). *)

(** The message of the last check; the two counts follow it in the source. *)
Definition schedule_cycle_msg : string := "cycle detected in graph, grouped".

Section ScheduleAssembly.
Context `{UA : UOpAPI}.

(** [schedule_targets = {out:si for si in prescheduled for out in si.outputs}] *)
Fixpoint schedule_targets_of (prescheduled : list ScheduleItem)
  (acc : dict Buffer ScheduleItem) : result (dict Buffer ScheduleItem) :=
  match prescheduled with
  | [] => Ok acc
  | si :: rest =>
      outs <- outputs si ;;
      schedule_targets_of rest (fold_left (fun d out => dset Buffer_eq_dec d out si) outs acc)
  end.

(** realize outputs before a parent is assigned to *)
Definition parents_assigns_of (targets : dict Buffer ScheduleItem) (si : ScheduleItem)
  : list ScheduleItem :=
  dedup ScheduleItem_eq_dec
    (flat_map (fun x => match dget Buffer_eq_dec targets (uop_buffer x) with
                        | Some xsi => if ScheduleItem_eq_dec xsi si then [] else [xsi]
                        | None => []
                        end) (assign_preloads si)).

(** realize outputs after all parents are realized *)
Definition scheduled_parents_of (targets : dict Buffer ScheduleItem) (si : ScheduleItem)
  (ins : list Buffer) : list ScheduleItem :=
  dedup ScheduleItem_eq_dec
    (flat_map (fun x => match dget Buffer_eq_dec targets x with
                        | Some xsi =>
                            if mem ScheduleItem_eq_dec xsi (parents_assigns_of targets si)
                            then [] else [xsi]
                        | None => []
                        end) ins).

(** The body of the loop [for si in prescheduled] of lines 551-561. *)
Definition add_kernel_children (targets : dict Buffer ScheduleItem)
  (g : KGraph ScheduleItem) (si : ScheduleItem) : result (KGraph ScheduleItem) :=
  ins <- inputs si ;;
  let g1 := fold_left (fun g assign => add_edge ScheduleItem_eq_dec g si assign)
              (parents_assigns_of targets si) g in
  Ok (fold_left (fun g x => add_edge ScheduleItem_eq_dec g x si)
        (scheduled_parents_of targets si ins) g1).

Fixpoint kernel_graph (targets : dict Buffer ScheduleItem) (g : KGraph ScheduleItem)
  (prescheduled : list ScheduleItem) : result (KGraph ScheduleItem) :=
  match prescheduled with
  | [] => Ok g
  | si :: rest => g' <- add_kernel_children targets g si ;; kernel_graph targets g' rest
  end.

(** Lines 547-572: the schedule, or the error raised; [None] only if the
    BFS ran out of fuel. *)
Definition assemble_schedule (prescheduled : list ScheduleItem)
  : option (result (list ScheduleItem)) :=
  match (targets <- schedule_targets_of prescheduled [] ;;
         kernel_graph targets (kg_empty ScheduleItem) prescheduled) with
  | Err e => Some (Err e)
  | Ok g =>
      (* do BFS *)
      let queue := filter (fun si => Z.eqb (kg_in_degree g si) 0) prescheduled in
      match bfs ScheduleItem_eq_dec (bfs_fuel (kg_in_degree g) prescheduled)
              (kg_graph g) (kg_in_degree g) queue [] with
      | None => None
      | Some schedule =>
          (* confirm everything was scheduled correctly *)
          if Nat.eqb (List.length schedule) (List.length prescheduled)
          then Some (Ok schedule)
          else Some (Err (RuntimeError schedule_cycle_msg))
      end
  end.

End ScheduleAssembly.

Section KernelGraphFold.
Variable A : Type.
Variable A_eq_dec : forall x y : A, {x = y} + {x <> y}.
Variable Y : Type.
Variables (f h : Y -> A).

(** A loop that adds the edge [f y -> h y] for every [y] of a list. *)
Lemma add_edges_fold (U : list A) (l : list Y) : forall g,
  (forall y, In y l -> In (f y) U /\ In (h y) U) ->
  let g' := fold_left (fun g y => add_edge A_eq_dec g (f y) (h y)) l g in
  (kg_wf U g -> kg_wf U g') /\
  (NoDup U -> kg_balanced A_eq_dec U g -> kg_balanced A_eq_dec U g') /\
  (forall w x, In x (kg_graph g w) -> In x (kg_graph g' w)) /\
  (forall y, In y l -> In (h y) (kg_graph g' (f y))).
Proof.
  induction l as [|y l IH]; intros g Hl; simpl.
  - repeat split; auto. intros y [].
  - destruct (IH (add_edge A_eq_dec g (f y) (h y))) as (H1 & H2 & H3 & H4).
    { intros z Hz. apply Hl. right; assumption. }
    destruct (Hl y (or_introl eq_refl)) as [Hf Hh].
    repeat split.
    + intros Hwf. apply H1. apply add_edge_wf; assumption.
    + intros ND Hb. apply H2; auto. apply add_edge_balanced; assumption.
    + intros w x Hx. apply H3. apply add_edge_mono. assumption.
    + intros z [<-|Hz].
      * apply H3. apply add_edge_In.
      * apply H4. assumption.
Qed.

End KernelGraphFold.

Section ScheduleAssembly_facts.
Context `{UA : UOpAPI}.

(** Every target is a kernel of [Q] that writes the buffer. *)
Definition targets_ok (Q : list ScheduleItem) (t : dict Buffer ScheduleItem) : Prop :=
  forall b k, dget Buffer_eq_dec t b = Some k ->
    In k Q /\ exists outs, outputs k = Ok outs /\ In b outs.

Lemma dget_fold_dset (si : ScheduleItem) (outs : list Buffer) : forall acc b,
  dget Buffer_eq_dec (fold_left (fun d out => dset Buffer_eq_dec d out si) outs acc) b
  = if mem Buffer_eq_dec b outs then Some si else dget Buffer_eq_dec acc b.
Proof.
  induction outs as [|o outs IH]; intros acc b; [reflexivity|].
  cbn [fold_left]. rewrite IH.
  destruct (mem Buffer_eq_dec b outs) eqn:E1;
    destruct (mem Buffer_eq_dec b (o :: outs)) eqn:E2; auto.
  - apply mem_true_iff in E1. apply mem_false_iff in E2.
    exfalso; apply E2; right; assumption.
  - apply mem_false_iff in E1. apply mem_true_iff in E2.
    destruct E2 as [->|E2]; [apply dget_dset_same | contradiction].
  - apply mem_false_iff in E2. apply dget_dset_other.
    intros ->. apply E2. left; reflexivity.
Qed.

Lemma schedule_targets_ok (Q : list ScheduleItem) (l : list ScheduleItem) : forall acc t,
  schedule_targets_of l acc = Ok t ->
  incl l Q -> targets_ok Q acc -> targets_ok Q t.
Proof.
  induction l as [|si l IH]; intros acc t H Hl Hacc; simpl in H.
  - inversion H; subst; assumption.
  - destruct (outputs si) as [outs|e] eqn:Eo; simpl in H; [|discriminate].
    apply IH in H; auto.
    + intros x Hx. apply Hl. right; assumption.
    + intros b k Hk. rewrite dget_fold_dset in Hk.
      destruct (mem Buffer_eq_dec b outs) eqn:Em.
      * inversion Hk; subst. split; [apply Hl; left; reflexivity|].
        exists outs. split; auto. apply mem_true_iff in Em. assumption.
      * apply Hacc. assumption.
Qed.

Lemma schedule_targets_cover (l : list ScheduleItem) : forall acc t b,
  schedule_targets_of l acc = Ok t ->
  (dget Buffer_eq_dec acc b <> None \/
   exists si outs, In si l /\ outputs si = Ok outs /\ In b outs) ->
  dget Buffer_eq_dec t b <> None.
Proof.
  induction l as [|si l IH]; intros acc t b H Hb; simpl in H.
  - inversion H; subst. destruct Hb as [Hb|(si & outs & [] & _)]. assumption.
  - destruct (outputs si) as [outs|e] eqn:Eo; simpl in H; [|discriminate].
    apply (IH _ _ b) in H; auto.
    rewrite dget_fold_dset.
    destruct (mem Buffer_eq_dec b outs) eqn:Em; [left; discriminate|].
    destruct Hb as [Hb|(si' & outs' & [<-|Hin] & Ho & Hbo)].
    + left; assumption.
    + rewrite Eo in Ho. inversion Ho; subst.
      apply mem_false_iff in Em. contradiction.
    + right. exists si', outs'. auto.
Qed.

Lemma parents_assigns_In (t : dict Buffer ScheduleItem) (si k : ScheduleItem) :
  In k (parents_assigns_of t si) <->
  exists x, In x (assign_preloads si) /\
    dget Buffer_eq_dec t (uop_buffer x) = Some k /\ k <> si.
Proof.
  unfold parents_assigns_of. rewrite dedup_In, in_flat_map. split.
  - intros (x & Hx & Hk). exists x. split; auto.
    destruct (dget Buffer_eq_dec t (uop_buffer x)) as [xsi|]; [|contradiction].
    destruct (ScheduleItem_eq_dec xsi si) as [->|N]; [contradiction|].
    destruct Hk as [<-|[]]. auto.
  - intros (x & Hx & Hk & N). exists x. split; auto. rewrite Hk.
    destruct (ScheduleItem_eq_dec k si); [contradiction | left; reflexivity].
Qed.

Lemma scheduled_parents_In (t : dict Buffer ScheduleItem) (si k : ScheduleItem)
  (ins : list Buffer) :
  In k (scheduled_parents_of t si ins) <->
  exists b, In b ins /\ dget Buffer_eq_dec t b = Some k /\
    ~ In k (parents_assigns_of t si).
Proof.
  unfold scheduled_parents_of. rewrite dedup_In, in_flat_map. split.
  - intros (b & Hb & Hk). exists b. split; auto.
    destruct (dget Buffer_eq_dec t b) as [xsi|]; [|contradiction].
    destruct (mem ScheduleItem_eq_dec xsi (parents_assigns_of t si)) eqn:Em; [contradiction|].
    destruct Hk as [<-|[]]. apply mem_false_iff in Em. auto.
  - intros (b & Hb & Hk & N). exists b. split; auto. rewrite Hk.
    apply (proj2 (mem_false_iff ScheduleItem_eq_dec _ _)) in N. rewrite N. left; reflexivity.
Qed.

(** The edges one kernel adds, and what the loop keeps. *)
Lemma add_kernel_children_spec (Q : list ScheduleItem) (t : dict Buffer ScheduleItem)
  (g g' : KGraph ScheduleItem) (si : ScheduleItem) :
  add_kernel_children t g si = Ok g' ->
  In si Q -> targets_ok Q t ->
  (kg_wf Q g -> kg_wf Q g') /\
  (NoDup Q -> kg_balanced ScheduleItem_eq_dec Q g -> kg_balanced ScheduleItem_eq_dec Q g') /\
  (forall w x, In x (kg_graph g w) -> In x (kg_graph g' w)) /\
  (forall k, In k (parents_assigns_of t si) -> In k (kg_graph g' si)) /\
  (forall ins k, inputs si = Ok ins -> In k (scheduled_parents_of t si ins) ->
     In si (kg_graph g' k)).
Proof.
  intros H Hsi Ht. unfold add_kernel_children in H.
  destruct (inputs si) as [ins|e] eqn:Ei; simpl in H; [|discriminate].
  inversion H; subst; clear H.
  destruct (@add_edges_fold ScheduleItem ScheduleItem_eq_dec ScheduleItem
              (fun _ => si) (fun a => a) Q (parents_assigns_of t si) g)
    as (A1 & A2 & A3 & A4).
  { intros y Hy. split; auto. apply parents_assigns_In in Hy.
    destruct Hy as (x & _ & Hk & _). apply (Ht _ _ Hk). }
  cbv beta in A1, A2, A3, A4.
  set (g1 := fold_left (fun g0 y => add_edge ScheduleItem_eq_dec g0 si y)
               (parents_assigns_of t si) g) in *.
  destruct (@add_edges_fold ScheduleItem ScheduleItem_eq_dec ScheduleItem
              (fun a => a) (fun _ => si) Q (scheduled_parents_of t si ins) g1)
    as (B1 & B2 & B3 & B4).
  { intros y Hy. split; auto. apply scheduled_parents_In in Hy.
    destruct Hy as (b & _ & Hk & _). apply (Ht _ _ Hk). }
  cbv beta in B1, B2, B3, B4.
  repeat split.
  - intros Hw. apply B1, A1, Hw.
  - intros ND Hb. apply B2; auto.
  - intros w x Hx. apply B3, A3, Hx.
  - intros k Hk. apply B3, A4, Hk.
  - intros ins' k Hins Hk. inversion Hins; subst. apply B4, Hk.
Qed.

Lemma kernel_graph_spec (Q : list ScheduleItem) (t : dict Buffer ScheduleItem)
  (l : list ScheduleItem) : forall g g',
  kernel_graph t g l = Ok g' ->
  incl l Q -> targets_ok Q t ->
  (kg_wf Q g -> kg_wf Q g') /\
  (NoDup Q -> kg_balanced ScheduleItem_eq_dec Q g -> kg_balanced ScheduleItem_eq_dec Q g') /\
  (forall w x, In x (kg_graph g w) -> In x (kg_graph g' w)) /\
  (forall si k, In si l -> In k (parents_assigns_of t si) -> In k (kg_graph g' si)) /\
  (forall si ins k, In si l -> inputs si = Ok ins ->
     In k (scheduled_parents_of t si ins) -> In si (kg_graph g' k)).
Proof.
  induction l as [|si l IH]; intros g g' H Hl Ht; simpl in H.
  - inversion H; subst. repeat split; auto; intros; contradiction.
  - destruct (add_kernel_children t g si) as [g1|e] eqn:E1; simpl in H; [|discriminate].
    destruct (@add_kernel_children_spec Q t g g1 si E1 (Hl si (or_introl eq_refl)) Ht)
      as (A1 & A2 & A3 & A4 & A5).
    destruct (IH g1 g' H) as (B1 & B2 & B3 & B4 & B5); auto.
    { intros x Hx. apply Hl. right; assumption. }
    repeat split.
    + intros Hw. apply B1, A1, Hw.
    + intros ND Hb. apply B2; auto.
    + intros w x Hx. apply B3, A3, Hx.
    + intros s k [<-|Hs] Hk; [apply B3, A4, Hk | apply (B4 s k Hs Hk)].
    + intros s ins k [<-|Hs] Hi Hk; [apply B3, (A5 ins k Hi Hk) | apply (B5 s ins k Hs Hi Hk)].
Qed.

Lemma kg_empty_wf (Q : list ScheduleItem) : kg_wf Q (kg_empty ScheduleItem).
Proof. intros u x []. Qed.

Lemma kg_empty_balanced (Q : list ScheduleItem) :
  kg_balanced ScheduleItem_eq_dec Q (kg_empty ScheduleItem).
Proof.
  intros x. simpl. unfold edges_into. simpl.
  induction Q as [|a Q IH]; simpl; auto.
Qed.

Lemma targets_ok_empty (Q : list ScheduleItem) : targets_ok Q [].
Proof. intros b k H; discriminate. Qed.

(** X1.  The loop of the BFS (lines 566-570) always ends, whatever the
    dependencies of the kernels, cyclic ones included: the fuel of
    [assemble_schedule] is enough on every list of kernels, so the call
    returns a schedule or raises. *)
Lemma assemble_schedule_total (prescheduled : list ScheduleItem) :
  assemble_schedule prescheduled <> None.
Proof.
  unfold assemble_schedule.
  destruct (schedule_targets_of prescheduled []) as [t|e] eqn:Et; cbn [rbind]; [|discriminate].
  destruct (kernel_graph t (kg_empty ScheduleItem) prescheduled) as [g|e] eqn:Eg; [|discriminate].
  assert (Ht : targets_ok prescheduled t).
  { eapply schedule_targets_ok; eauto; [intros x Hx; exact Hx | apply targets_ok_empty]. }
  destruct (@kernel_graph_spec prescheduled t prescheduled _ _ Eg) as (Hwf & _); auto.
  { intros x Hx; exact Hx. }
  specialize (Hwf (kg_empty_wf prescheduled)).
  destruct (bfs _ _ _ _ _ _) as [s|] eqn:Eb.
  - destruct (Nat.eqb _ _); discriminate.
  - exfalso. revert Eb. apply (@bfs_terminates _ ScheduleItem_eq_dec (kg_graph g) prescheduled Hwf).
    unfold potential, bfs_fuel.
    pose proof (filter_length_le (fun si => Z.eqb (kg_in_degree g si) 0) prescheduled). lia.
Qed.

(** The order of a returned schedule follows the edges that the loop of
    lines 551-561 adds.  Let [schedule] be the list returned for the
    kernels [prescheduled] (pairwise different), and [targets] the map
    from a buffer to the kernel that writes it.  Then [schedule] is a
    rearrangement of [prescheduled]; every target is a kernel of the
    schedule that has the buffer among its outputs, and every output of a
    kernel has a target.  If [b] is an input of [K] and its target [K'] is
    not one of the [parents_assigns] of [K] (line 558), then [K'] stands
    before [K].  If [x] is an assign-preload of [K] and the target [K'] of
    its buffer is not [K] (line 553), then [K] stands before [K']. *)
Theorem schedule_respects_dependencies
  (prescheduled schedule : list ScheduleItem) (targets : dict Buffer ScheduleItem) :
  NoDup prescheduled ->
  schedule_targets_of prescheduled [] = Ok targets ->
  assemble_schedule prescheduled = Some (Ok schedule) ->
  Permutation prescheduled schedule /\
  (forall b K', dget Buffer_eq_dec targets b = Some K' ->
     In K' schedule /\ exists outs, outputs K' = Ok outs /\ In b outs) /\
  (forall K' outs b, In K' prescheduled -> outputs K' = Ok outs -> In b outs ->
     exists K'', dget Buffer_eq_dec targets b = Some K'') /\
  (forall K K' ins b,
     In K prescheduled -> inputs K = Ok ins -> In b ins ->
     dget Buffer_eq_dec targets b = Some K' ->
     ~ In K' (parents_assigns_of targets K) ->
     before schedule K' K) /\
  (forall K K' x,
     In K prescheduled -> In x (assign_preloads K) ->
     dget Buffer_eq_dec targets (uop_buffer x) = Some K' -> K' <> K ->
     before schedule K K').
Proof.
  intros ND Et Hrun. unfold assemble_schedule in Hrun. rewrite Et in Hrun. cbn [rbind] in Hrun.
  destruct (kernel_graph targets (kg_empty ScheduleItem) prescheduled) as [g|e] eqn:Eg;
    [|inversion Hrun].
  destruct (bfs _ _ _ _ _ _) as [s|] eqn:Eb; [|discriminate].
  destruct (Nat.eqb (List.length s) (List.length prescheduled)) eqn:El; [|inversion Hrun].
  inversion Hrun; subst s; clear Hrun. apply Nat.eqb_eq in El.
  assert (Ht : targets_ok prescheduled targets).
  { eapply schedule_targets_ok; eauto; [intros x Hx; exact Hx | apply targets_ok_empty]. }
  destruct (@kernel_graph_spec prescheduled targets prescheduled _ _ Eg)
    as (Hwf & Hbal & _ & HPA & HSP); auto.
  { intros x Hx; exact Hx. }
  specialize (Hwf (kg_empty_wf prescheduled)).
  specialize (Hbal ND (kg_empty_balanced prescheduled)).
  assert (Hinv : bfs_inv ScheduleItem_eq_dec (kg_graph g) prescheduled (kg_in_degree g)
                   (filter (fun si => Z.eqb (kg_in_degree g si) 0) prescheduled) []).
  { apply bfs_inv_init; auto. intros x Hx; exact Hx. }
  destruct (@bfs_order _ ScheduleItem_eq_dec (kg_graph g) prescheduled ND Hwf _ _ _ _ _ Hinv Eb)
    as (NDs & Hincl & _ & Hord).
  assert (Hall : incl prescheduled schedule).
  { apply NoDup_length_incl; auto. lia. }
  split; [|split; [|split; [|split]]].
  - apply NoDup_Permutation; auto. intros x; split; [apply Hall | apply Hincl].
  - intros b K' Hk. destruct (Ht b K' Hk) as [Hin Hout]. split; auto.
  - intros K' outs b HK Ho Hb.
    destruct (dget Buffer_eq_dec targets b) as [K''|] eqn:E; [exists K''; reflexivity|].
    exfalso. revert E. apply (@schedule_targets_cover prescheduled [] targets b Et).
    right. exists K', outs. auto.
  - intros K K' ins b HK Hi Hb Hk Hn.
    apply Hord; [apply Hall; assumption | apply (Ht b K' Hk) |].
    apply (HSP K ins K' HK Hi). apply scheduled_parents_In. exists b. auto.
  - intros K K' x HK Hx Hk Hn.
    apply Hord; [apply Hall; apply (Ht _ K' Hk) | assumption |].
    apply (HPA K K' HK). apply parents_assigns_In. exists x. auto.
Qed.

End ScheduleAssembly_facts.


(** ** A small implementation of the two interfaces

    Concrete graphs below are run on this implementation.  It keeps to what
    the scheduler relies on: a [VIEW] carries its shape-tracker, a
    [BUFFER] carries [(buffer_num, size)], a load or store reads its
    shape-tracker from its second source. *)

Definition sint_hi (s : sint) : Z :=
  match s with SInt n => n | SVar _ _ hi => hi end.

Definition sint_sub (a b : sint) : sint :=
  match a, b with
  | SInt x, SInt y => SInt (x - y)
  | _, _ => a
  end.

(** [strides_for_shape] of tinygrad.shape.view on integer shapes: row-major
    strides, 0 on the axes of size 1. *)
Fixpoint strides_for_shape (shape : list sint) : list sint :=
  match shape with
  | [] => []
  | d :: rest =>
      (if Z.eqb (sint_hi d) 1 then SInt 0 else SInt (prod (map sint_hi rest)))
        :: strides_for_shape rest
  end.

Definition ref_shape (st : ShapeTracker) : list sint :=
  match rev (views st) with
  | v :: _ => v_shape v
  | [] => []
  end.

Definition ref_st_size (st : ShapeTracker) : Z := prod (map sint_hi (ref_shape st)).

Definition ref_contiguous (st : ShapeTracker) : bool :=
  match views st with
  | [v] => v_contiguous v
  | _ => false
  end.

Definition ref_from_shape (shape : list sint) : ShapeTracker :=
  mkST [mkView shape (strides_for_shape shape) (SInt 0) None true].

(** [smax(0, smin(x - ax, ay - ax))]: a bound [x] of the old mask moved
    into the window [(ax, ay)]. *)
Definition move_bound (x ax ay : sint) : sint :=
  match x, ax, ay with
  | SInt x', SInt ax', SInt ay' => SInt (Z.max 0 (Z.min (x' - ax') (ay' - ax')))
  | _, _, _ => sint_sub x ax
  end.

(** [View.shrink]: the old mask is moved into the window, and a mask that
    covers the whole new shape is dropped. *)
Definition ref_shrink_view (v : View) (m : list (sint * sint)) : View :=
  let shape' := map (fun xy => sint_sub (snd xy) (fst xy)) m in
  let off' := fold_left Z.add (map (fun p => sint_hi (fst (fst p)) * sint_hi (snd p))%Z
                                 (combine m (v_strides v))) (sint_hi (v_offset v)) in
  let mask' := match v_mask v with
               | None => None
               | Some vm =>
                   let nmask :=
                     map (fun p => (move_bound (fst (fst p)) (fst (snd p)) (snd (snd p)),
                                    move_bound (snd (fst p)) (fst (snd p)) (snd (snd p))))
                       (combine vm m) in
                   if forallb (fun p =>
                                 (if sint_eq_dec (fst (fst p)) (SInt 0) then true else false)
                                 && (if sint_eq_dec (snd (fst p)) (snd p) then true else false))
                        (combine nmask shape')
                   then None else Some nmask
               end in
  let strides' := map (fun p => if Z.eqb (sint_hi (fst p)) 1 then SInt 0 else snd p)
                    (combine shape' (v_strides v)) in
  mkView shape' strides' (SInt off') mask'
    (Z.eqb off' 0 &&
     (match mask' with None => true | Some _ => false end) &&
     (if list_eq_dec sint_eq_dec strides' (strides_for_shape shape') then true else false)).

Definition ref_shrink (st : ShapeTracker) (m : list (sint * sint)) : ShapeTracker :=
  match rev (views st) with
  | v :: vs => mkST (rev (ref_shrink_view v m :: vs))
  | [] => st
  end.

Definition ref_to_uop (st : ShapeTracker) : UOp := mkUOp VIEW (DScalar void) [] (AST st).

#[export] Instance ref_ShapeAPI : ShapeAPI := {|
  st_shape := ref_shape;
  st_contiguous := ref_contiguous;
  st_from_shape := ref_from_shape;
  st_shrink := ref_shrink;
  st_invert := fun st shape =>
    if list_eq_dec sint_eq_dec (ref_shape st) shape
    then (if ref_contiguous st then Some st else None)
    else None;
  st_to_uop := ref_to_uop
|}.

(** [st.reduce(axes)]: the reduced axes become 1. *)
Definition ref_reduce (shape : list sint) (axes : list nat) : list sint :=
  map (fun p => if mem Nat.eq_dec (fst p) axes then SInt 1 else snd p)
    (combine (seq 0 (List.length shape)) shape).

Fixpoint ref_st (u : UOp) : option ShapeTracker :=
  match u with
  | mkUOp VIEW _ _ (AST st) => Some st
  | mkUOp (LOAD | PRELOAD | STORE) _ (_ :: v :: _) _ => ref_st v
  | mkUOp (BUFFER | DEVICE | DEFINE_GLOBAL | DEFINE_VAR | BIND | LOAD | PRELOAD | STORE) _ _ _ => None
  | mkUOp _ _ s a =>
      (fix first (l : list UOp) : option ShapeTracker :=
         match l with
         | [] => None
         | x :: l' =>
             match ref_st x with
             | Some st =>
                 Some (ref_from_shape
                         match a with
                         | AReduce _ axes => ref_reduce (ref_shape st) axes
                         | _ => ref_shape st
                         end)
             | None => first l'
             end
         end) s
  end.

Definition ref_size (u : UOp) : result Z :=
  match op u, arg u with
  | BUFFER, ABufNum _ sz => Ok sz
  | _, _ => st <- unwrap (ref_st u) ;; Ok (ref_st_size st)
  end.

Definition ref_base (u : UOp) : UOp :=
  match u with
  | mkUOp VIEW _ [x] _ => if Ops_eqb (op x) BUFFER then u else x
  | _ => u
  end.

Fixpoint ref_buf_uop (u : UOp) : result UOp :=
  match u with
  | mkUOp BUFFER _ _ _ => Ok u
  | mkUOp ASSIGN _ (t :: _) _ => ref_buf_uop t
  | mkUOp (LOAD | PRELOAD | STORE | VIEW) _ (b :: _) _ => Ok b
  | _ => Err AssertionError
  end.

Definition ref_st_arg (u : UOp) : result ShapeTracker :=
  match u with
  | mkUOp (LOAD | PRELOAD | STORE) _ (_ :: v :: _) _ => unwrap (ref_st v)
  | _ => Err AssertionError
  end.

Definition ref_const_arg (u : UOp) : result ConstType :=
  match op u, arg u with
  | CONST, AConst c => Ok c
  | _, _ => Err AssertionError
  end.

Definition ref_const_like (u : UOp) (c : ConstType) : result UOp :=
  Ok (mkUOp CONST (dtype_base (dtype u)) [] (AConst c)).

Definition ref_buffer (u : UOp) : Buffer :=
  match arg u with
  | ABufNum n sz => mkBuffer n "CPU" sz (dtype u)
  | _ => mkBuffer (-1) "" 0 (dtype u)
  end.

Fixpoint ref_device (u : UOp) : result string :=
  match u with
  | mkUOp DEVICE _ _ (AStr s) => Ok s
  | mkUOp _ _ (x :: _) _ => ref_device x
  | _ => Err AssertionError
  end.

(** The least value of a dtype; [CFloat (-1) 1024] stands for [-inf]. *)
Definition ref_dtype_min (d : DType) : ConstType :=
  match dtype_base d with
  | DScalar bool_ => CBool false
  | DScalar int_ => CInt (- 2 ^ 31)
  | DScalar long_ => CInt (- 2 ^ 63)
  | _ => CFloat (-1) 1024
  end.

(** Whether [m * 2^e] is within the range of a binary64 float. *)
Definition float_in_range (m e : Z) : bool :=
  Z.eqb m 0 || Z.ltb (Z.log2 (Z.abs m) + e) 1024.

(** Python's [c * n] and [c ** n] on a float [c = m * 2^e], without the
    rounding to 53 bits.  The int [n] is made a float first
    ([OverflowError] when it is out of range).  A product out of range is
    an infinity ([CFloat 1 1024] and [CFloat (-1) 1024] stand for [inf]
    and [-inf]); a power out of range raises [OverflowError]; a negative
    power of zero raises [ZeroDivisionError], and a negative power of
    another float is cut after 1100 binary digits. *)
Definition ref_float_mul_int (m e n : Z) : result ConstType :=
  if negb (float_in_range n 0) then Err OverflowError
  else if float_in_range (m * n) e then Ok (CFloat (m * n) e)
  else Ok (CFloat (Z.sgn (m * n)) 1024).

Definition ref_float_pow_int (m e n : Z) : result ConstType :=
  if negb (float_in_range n 0) then Err OverflowError
  else if Z.leb 0 n then
    if float_in_range (m ^ n) (e * n) then Ok (CFloat (m ^ n) (e * n))
    else Err OverflowError
  else if Z.eqb m 0 then Err ZeroDivisionError
  else Ok (CFloat (2 ^ 1100 / m ^ (- n)) (e * n - 1100)).

#[export] Instance ref_UOpAPI : UOpAPI := {|
  uop_st := ref_st;
  uop_size := ref_size;
  uop_base := ref_base;
  uop_buf_uop := ref_buf_uop;
  uop_st_arg := ref_st_arg;
  uop_const_arg := ref_const_arg;
  uop_const_like := ref_const_like;
  uop_buffer := ref_buffer;
  uop_is_realized := fun u =>
    match ref_base u with
    | mkUOp VIEW _ [b] _ => Ops_eqb (op b) BUFFER
    | _ => false
    end;
  uop_device := ref_device;
  uop_view := fun u st => mkUOp VIEW (dtype u) [u] (AST st);
  uop_metadata := fun _ => None;
  uop_const := fun d c => mkUOp CONST d [] (AConst c);
  uop_valid := fun u st => mkUOp WHERE (dtype u)
                 [mkUOp VALID (DScalar bool_) [ref_to_uop st] ANone; u;
                  mkUOp CONST (dtype u) [] (AConst (CInt 0))] ANone;
  dtype_min := ref_dtype_min;
  float_mul_int := ref_float_mul_int;
  float_pow_int := ref_float_pow_int
|}.

(** *** Graphs used in the examples *)

Definition dev : UOp := mkUOp DEVICE (DScalar void) [] (AStr "CPU").

(** [BUFFER] number [n] of [size] floats. *)
Definition buf (n size : Z) : UOp := mkUOp BUFFER (DScalar float_) [dev] (ABufNum n size).

(** The contiguous shape-tracker of an integer shape, and its transpose
    for a two-dimensional one. *)
Definition contig (shape : list Z) : ShapeTracker := ref_from_shape (map SInt shape).

Definition permuted (a b : Z) : ShapeTracker :=
  mkST [mkView [SInt b; SInt a] [SInt 1; SInt b] (SInt 0) None false].

Definition view_of (st : ShapeTracker) : UOp := ref_to_uop st.

Definition dglobal (i size : Z) : UOp :=
  mkUOp DEFINE_GLOBAL (DPtr (DScalar float_) size) [] (AConst (CInt i)).

Definition load (b : UOp) (st : ShapeTracker) : UOp :=
  mkUOp LOAD (DScalar float_) [b; view_of st] ANone.

Definition preload (b : UOp) (st : ShapeTracker) : UOp :=
  mkUOp PRELOAD (DScalar float_) [b; view_of st] ANone.

Definition store (b : UOp) (st : ShapeTracker) (v : UOp) : UOp :=
  mkUOp STORE (DScalar void) [b; view_of st; v] ANone.

Definition sink (stores : list UOp) : UOp := mkUOp SINK (DScalar void) stores ANone.

Definition alu (o : Ops) (xs : list UOp) : UOp := mkUOp o (DScalar float_) xs ANone.

(** ** Runs on concrete graphs *)

(** [u.toposort] for the examples: the sources of a node in order, each
    with its own sources first, then the node; a node met again keeps its
    first place. *)
Fixpoint ref_toposort_from (u : UOp) (acc : list UOp) {struct u} : list UOp :=
  if mem UOp_eq_dec u acc then acc else
  match u with
  | mkUOp _ _ s _ =>
      (fix go (l : list UOp) (acc : list UOp) : list UOp :=
         match l with
         | [] => acc
         | p :: l' => go l' (ref_toposort_from p acc)
         end) s acc ++ [u]
  end.

Definition ref_toposort (u : UOp) : list UOp := ref_toposort_from u [].

(** Two realized buffers of four floats and an output buffer. *)
Definition buf_a : UOp := buf 1 4.
Definition buf_b : UOp := buf 2 4.
Definition buf_out : UOp := buf 3 4.

(** A kernel that adds the value of [buf_b] before an assign to its value
    after the assign, the pre-assign operand first. *)
Definition kernel_preload_then_load : UOp :=
  sink [store buf_out (contig [4%Z])
          (alu ADD [preload buf_b (contig [4%Z]); load buf_b (contig [4%Z])])].

(** The same sum with the operands swapped. *)
Definition kernel_load_then_preload : UOp :=
  sink [store buf_out (contig [4%Z])
          (alu ADD [load buf_b (contig [4%Z]); preload buf_b (contig [4%Z])])].

(** A kernel that assigns to [buf_b] reading it through a transposed view,
    and that also reads [buf_a] both before and after an assign to it. *)
Definition kernel_transposed_self_assign : UOp :=
  sink [store buf_b (contig [2%Z; 2%Z])
          (alu ADD [alu ADD [preload buf_b (permuted 2 2); load buf_a (contig [2%Z; 2%Z])];
                    preload buf_a (contig [2%Z; 2%Z])])].

(** A kernel that only assigns to [buf_b] through the transposed view. *)
Definition kernel_transposed_only : UOp :=
  sink [store buf_b (contig [2%Z; 2%Z]) (alu NEG [preload buf_b (permuted 2 2)])].

(** The engine on a kernel it has nothing to rewrite in, and a lowering
    that hands the context back. *)
Definition no_rewrite (pre : UOp) (_ : dict UOp UOp) : result UOp := Ok pre.
Definition no_lowering (u : UOp) (c : ScheduleItemContext)
  : result (UOp * ScheduleItemContext) := Ok (u, c).

Definition ctx_assigns (bs : list UOp) : ScheduleContext := mkCtx [] [] bs [] [] [] [] [] [].

(** C3.  The walk of [schedule_uop] meets the [LOAD] of [buf_b] before the
    [PRELOAD] of [buf_b] in [kernel_preload_then_load]: whenever the two
    rewrite passes leave this kernel as it is and raise nothing,
    [schedule_uop] returns an item whose [assign_preloads] hold [buf_b],
    and no assign-cycle error, although the kernel loads [buf_b]; with
    the operands of the sum swapped the same walk raises the assign-cycle
    error. *)
Theorem load_met_before_preload_is_not_rejected
  (rewrite_views : UOp -> dict UOp UOp -> result UOp)
  (lower_to_si : UOp -> ScheduleItemContext -> result (UOp * ScheduleItemContext))
  (ctx : ScheduleContext) (sb : dict UOp UOp)
  (lowered : UOp * ScheduleItemContext) (bs : list Buffer) :
  assigns ctx <> [] ->
  store_bufs_of (src kernel_preload_then_load) [] = Ok sb ->
  rewrite_views kernel_preload_then_load sb = Ok kernel_preload_then_load ->
  lower_to_si kernel_preload_then_load (mkSIC (var_vals ctx) [] []) = Ok lowered ->
  item_bufs (sic_bufs (snd lowered)) = Ok bs ->
  In (load buf_b (contig [4%Z])) (ref_toposort kernel_preload_then_load) /\
  (exists si ctx',
     schedule_uop rewrite_views lower_to_si ref_toposort kernel_preload_then_load ctx
       = Ok (si, ctx') /\
     assign_preloads si = [buf_b]) /\
  assign_walk sb [] (rev (ref_toposort kernel_load_then_preload))
    = Err (RuntimeError assign_cycle_msg).
Proof.
  intros Hne Hsb Hrw Hlow Hbufs.
  assert (Esb : sb = [(buf_out,
                       alu ADD [preload buf_b (contig [4%Z]); load buf_b (contig [4%Z])])]).
  { vm_compute in Hsb. inversion Hsb. reflexivity. }
  split; [|split].
  - vm_compute. tauto.
  - unfold schedule_uop. rewrite Hsb. cbn [rbind]. rewrite Hrw. cbn [rbind].
    rewrite Hlow. cbn [rbind].
    destruct (assigns ctx) as [|a0 l0]; [congruence|].
    assert (Hw : assign_walk sb [] (rev (ref_toposort kernel_preload_then_load)) = Ok [buf_b]).
    { subst sb. vm_compute. reflexivity. }
    rewrite Hw. cbn [rbind]. rewrite Hbufs. cbn [rbind].
    eexists; eexists; split; [reflexivity|]. vm_compute. reflexivity.
  - subst sb. vm_compute. reflexivity.
Qed.

Lemma load_met_before_preload_witness :
  exists si ctx',
    schedule_uop no_rewrite no_lowering ref_toposort kernel_preload_then_load
      (ctx_assigns [buf_b]) = Ok (si, ctx') /\
    assign_preloads si = [buf_b].
Proof.
  refine (proj1 (proj2 (@load_met_before_preload_is_not_rejected no_rewrite no_lowering
    (ctx_assigns [buf_b]) _ _ [] _ eq_refl eq_refl eq_refl eq_refl))).
  discriminate.
Defined.

(** *** C4 on concrete kernels *)

Lemma preload_of_stored_buffer_witness :
  schedule_uop no_rewrite no_lowering ref_toposort kernel_transposed_only (ctx_assigns [buf_b])
    = Err (RuntimeError self_assign_msg).
Proof.
  refine (proj2 (proj2 (@preload_of_stored_buffer_needs_contiguous_or_masked _ _
    no_rewrite no_lowering ref_toposort kernel_transposed_only (ctx_assigns [buf_b])
    _ kernel_transposed_only
    [kernel_transposed_only;
     store buf_b (contig [2%Z; 2%Z]) (alu NEG [preload buf_b (permuted 2 2)]);
     alu NEG [preload buf_b (permuted 2 2)]]
    [view_of (permuted 2 2); view_of (contig [2%Z; 2%Z]); buf_b; dev]
    (preload buf_b (permuted 2 2)) buf_b (permuted 2 2)
    _ eq_refl eq_refl eq_refl eq_refl eq_refl eq_refl eq_refl) eq_refl eq_refl)
    _ _ eq_refl eq_refl).
  discriminate.
Defined.

(** C4, the sentence of the spec read to the letter: any [PRELOAD] of a
    stored buffer through a view that is neither contiguous nor maskable
    makes the walk fail with the self-assign error. In
    [kernel_transposed_self_assign] the walk meets the [LOAD] of [buf_a]
    after its [PRELOAD] first, and fails with the assign-cycle error. *)
Lemma transposed_self_assign_fails_with_cycle_error :
  ~ (forall (sb : dict UOp UOp) (xs : list UOp) (x b : UOp) (st : ShapeTracker),
       In x xs -> op x = PRELOAD -> uop_buf_uop x = Ok b ->
       dmem UOp_eq_dec sb b = true -> uop_st_arg x = Ok st ->
       st_contiguous st = false -> masked_view_ok st = false ->
       assign_walk sb [] xs = Err (RuntimeError self_assign_msg)).
Proof.
  intros H.
  specialize (H [(buf_b, alu ADD [alu ADD [preload buf_b (permuted 2 2);
                                           load buf_a (contig [2%Z; 2%Z])];
                                  preload buf_a (contig [2%Z; 2%Z])])]
                (rev (ref_toposort kernel_transposed_self_assign))
                (preload buf_b (permuted 2 2)) buf_b (permuted 2 2)).
  assert (Hin : In (preload buf_b (permuted 2 2))
                  (rev (ref_toposort kernel_transposed_self_assign))).
  { vm_compute. tauto. }
  specialize (H Hin eq_refl eq_refl eq_refl eq_refl eq_refl eq_refl).
  vm_compute in H. discriminate H.
Qed.

(** A masked view that the test of line 226 lets through: the four
    elements in the middle of six.  Shrunk by its mask it is the shrink of
    the contiguous view of shape (6,). *)
Definition masked_middle : ShapeTracker :=
  mkST [mkView [SInt 6] [SInt 1] (SInt 0) (Some [(SInt 1, SInt 5)]) false].

Lemma masked_middle_is_let_through :
  st_contiguous masked_middle = false /\
  masked_view_ok masked_middle = true /\
  (st_shrink (st_from_shape (st_shape masked_middle)) [(SInt 1, SInt 5)]
     = st_shrink masked_middle [(SInt 1, SInt 5)]).
Proof. repeat split. Qed.

(** *** C10 on a concrete item *)

Definition item_add : ScheduleItem :=
  mkScheduleItem
    (sink [store (dglobal 0 4) (contig [4%Z])
             (alu ADD [load (dglobal 1 4) (contig [4%Z]); load (dglobal 2 4) (contig [4%Z])])])
    [uop_buffer buf_out; uop_buffer buf_a; uop_buffer buf_b] [] [].

Lemma ScheduleItem_partition_witness :
  outputs item_add = Ok [uop_buffer buf_out] /\
  inputs item_add = Ok [uop_buffer buf_a; uop_buffer buf_b] /\
  Permutation (bufs item_add) ([uop_buffer buf_out] ++ [uop_buffer buf_a; uop_buffer buf_b]).
Proof.
  assert (Hast : op (ast item_add) = SINK -> Forall (fun x => src x <> []) (src (ast item_add))).
  { intros _. repeat constructor. discriminate. }
  destruct (@ScheduleItem_inputs_outputs_partition item_add Hast)
    as (idxs & outs & ins & _ & _ & Ho & Hi & _ & _ & _ & _ & HP & _).
  vm_compute in Ho. vm_compute in Hi.
  inversion Ho; inversion Hi; subst outs ins.
  split; [reflexivity | split; [reflexivity | exact HP]].
Defined.

(** *** C9 on a concrete view *)

Lemma break_sched_view_of_buffer_witness :
  pm_rewrite break_sched (ctx_assigns [buf_b]) (mkUOp VIEW (DScalar float_) [buf_b] (AST (contig [4%Z])))
    = Ok (Some (preload buf_b (contig [4%Z])), ctx_assigns [buf_b]) /\
  pm_rewrite break_sched (ctx_assigns [buf_b]) (mkUOp VIEW (DScalar float_) [buf_a] (AST (contig [4%Z])))
    = Ok (Some (load buf_a (contig [4%Z])), ctx_assigns [buf_b]).
Proof.
  split.
  - exact (proj1 (@break_sched_view_of_buffer ref_ShapeAPI ref_UOpAPI (ctx_assigns [buf_b])
                    buf_b (DScalar float_) (AST (contig [4%Z])) (contig [4%Z]) eq_refl eq_refl)).
  - exact (proj1 (@break_sched_view_of_buffer ref_ShapeAPI ref_UOpAPI (ctx_assigns [buf_b])
                    buf_a (DScalar float_) (AST (contig [4%Z])) (contig [4%Z]) eq_refl eq_refl)).
Defined.

(** *** C7 on a concrete context *)

(** [View(buf_b, View(buf_a, op))] with equal shape-trackers; [buf_b] is in
    [realizes], [buf_a] is not. *)
Definition inner_op : UOp := alu NEG [load buf_out (contig [4%Z])].
Definition inner_view : UOp := mkUOp VIEW (DScalar float_) [buf_a; inner_op] (AST (contig [4%Z])).
Definition outer_view : UOp := mkUOp VIEW (DScalar float_) [buf_b; inner_view] (AST (contig [4%Z])).
Definition tensor_a : UOp := alu NEG [alu SQRT []].
Definition tensor_b : UOp := alu NEG [alu EXP2 []].

Definition ctx_merge : ScheduleContext :=
  mkCtx [(buf_a, [tensor_a]); (buf_b, [tensor_b])] [] [] [(buf_b, inner_view)] [] [] [] [] [].

Lemma merge_bufs_witness :
  exists ctx',
    pm_rewrite merge_bufs ctx_merge outer_view = Ok (Some inner_view, ctx') /\
    dget UOp_eq_dec (tensor_uops ctx') buf_a = Some [tensor_a; tensor_b] /\
    dget UOp_eq_dec (realizes ctx') buf_a = Some buf_a /\
    dget UOp_eq_dec (realizes ctx') buf_b = None.
Proof.
  destruct (@merge_bufs_inner_buffer_stays ref_UOpAPI ctx_merge buf_a buf_b inner_op
              (DScalar float_) (DScalar float_) (AST (contig [4%Z])) (AST (contig [4%Z]))
              (contig [4%Z]) [tensor_a] [tensor_b])
    as (ctx' & Hr & Ht1 & _ & _ & Hrz & _); try reflexivity.
  - discriminate.
  - repeat constructor; simpl; intuition discriminate.
  - repeat constructor; simpl; intuition discriminate.
  - exists ctx'. destruct (Hrz eq_refl) as (H1 & H2 & _). auto.
Defined.

(** C7, the sentence of the spec read to the letter: when [B1] is not
    realized, [B2] is the buffer of the node that stays. Here [buf_a] (as
    [B1]) is not in [realizes] and the node that stays is still the view of
    [buf_a]. *)
Lemma merge_keeps_inner_buffer_when_not_realized :
  ~ (forall (ctx : ScheduleContext) (b1 b2 x : UOp) (d1 d2 : DType) (a1 a2 : Arg),
       op b1 = BUFFER -> op b2 = BUFFER -> b1 <> b2 ->
       dmem UOp_eq_dec (realizes ctx) b1 = false ->
       forall r ctx',
         pm_rewrite merge_bufs ctx (mkUOp VIEW d2 [b2; mkUOp VIEW d1 [b1; x] a1] a2)
           = Ok (Some r, ctx') ->
         uop_buf_uop r = Ok b2).
Proof.
  intros H.
  assert (Hne : buf_a <> buf_b) by discriminate.
  specialize (H ctx_merge buf_a buf_b inner_op (DScalar float_) (DScalar float_)
                (AST (contig [4%Z])) (AST (contig [4%Z])) eq_refl eq_refl Hne eq_refl
                inner_view _ eq_refl).
  vm_compute in H. discriminate H.
Qed.

(** *** C5 and C6 on concrete reduces *)

(** The constant 2 of shape (4, 4), and the constant 2 of a symbolic
    shape (n,) with n between 1 and 8. *)
Definition const_2_of_4x4 : UOp :=
  mkUOp CONST (DScalar int_)
    [view_of (mkST [mkView [SInt 4; SInt 4] [SInt 0; SInt 0] (SInt 0) None false])]
    (AConst (CInt 2)).

Definition const_2_of_n : UOp :=
  mkUOp CONST (DScalar int_)
    [view_of (mkST [mkView [SVar "n" 1 8] [SInt 0] (SInt 0) None false])]
    (AConst (CInt 2)).

Definition reduce_of (o : Ops) (axes : list nat) (x : UOp) : UOp :=
  mkUOp REDUCE_AXIS (dtype x) [x] (AReduce o axes).

(** The float constant 2.0 of shape (2000,). *)
Definition const_2f_of_2000 : UOp :=
  mkUOp CONST (DScalar float_)
    [view_of (mkST [mkView [SInt 2000] [SInt 0] (SInt 0) None false])]
    (AConst (CFloat 1 1)).

Lemma reduce_of_const_witness :
  pm_rewrite (ops_folding []) empty_ctx (reduce_of ADD [0; 1] const_2_of_4x4)
    = Ok (Some (mkUOp CONST (DScalar int_) [] (AConst (CInt 32))), empty_ctx) /\
  pm_rewrite (ops_folding []) empty_ctx (reduce_of MUL [1] const_2_of_4x4)
    = Ok (Some (mkUOp CONST (DScalar int_) [] (AConst (CInt 16))), empty_ctx) /\
  pm_rewrite (ops_folding []) empty_ctx (reduce_of MAX [0] const_2_of_4x4)
    = Ok (Some (mkUOp CONST (DScalar int_) [] (AConst (CInt 2))), empty_ctx) /\
  pm_rewrite (ops_folding []) empty_ctx (reduce_of MUL [0] const_2f_of_2000)
    = Err OverflowError /\
  pm_rewrite (ops_folding []) empty_ctx (reduce_of ADD [0] const_2_of_n)
    = Ok (None, empty_ctx).
Proof.
  pose proof (@reduce_of_const_folds ref_ShapeAPI ref_UOpAPI [] empty_ctx (DScalar int_)
    const_2_of_4x4 ADD [0; 1] (contig [4%Z; 4%Z]) eq_refl eq_refl) as (_ & _ & Hadd).
  pose proof (@reduce_of_const_folds ref_ShapeAPI ref_UOpAPI [] empty_ctx (DScalar int_)
    const_2_of_4x4 MUL [1] (contig [4%Z; 4%Z]) eq_refl eq_refl) as (_ & _ & Hmul).
  pose proof (@reduce_of_const_folds ref_ShapeAPI ref_UOpAPI [] empty_ctx (DScalar int_)
    const_2_of_4x4 MAX [0] (contig [4%Z; 4%Z]) eq_refl eq_refl) as (_ & _ & Hmax).
  pose proof (@reduce_of_const_folds ref_ShapeAPI ref_UOpAPI [] empty_ctx (DScalar float_)
    const_2f_of_2000 MUL [0] (contig [2000%Z]) eq_refl eq_refl) as (Hpow & _ & Hovf).
  pose proof (@reduce_of_const_folds ref_ShapeAPI ref_UOpAPI [] empty_ctx (DScalar int_)
    const_2_of_n ADD [0] (mkST [mkView [SVar "n" 1 8] [SInt 1] (SInt 0) None true])
    eq_refl eq_refl) as (_ & Hsym & Hn).
  split; [|split; [|split; [|split]]].
  - refine (eq_trans (proj1 (Hadd 16%Z 1%Z eq_refl eq_refl ltac:(discriminate)
                               eq_refl ltac:(discriminate))) _).
    reflexivity.
  - refine (eq_trans (proj1 (Hmul 16%Z 4%Z eq_refl eq_refl ltac:(discriminate)
                               eq_refl ltac:(discriminate))) _).
    reflexivity.
  - refine (eq_trans (proj1 (Hmax 16%Z 4%Z eq_refl eq_refl ltac:(discriminate)
                               eq_refl ltac:(discriminate))) _).
    reflexivity.
  - apply (proj2 (proj2 (Hovf 2000%Z 1%Z eq_refl eq_refl ltac:(discriminate)
                           eq_refl ltac:(discriminate)))).
    rewrite (Hpow eq_refl [SInt 2000] (CFloat 1 1) eq_refl eq_refl).
    reflexivity.
  - apply (proj1 (proj2 (Hn 8%Z 1%Z eq_refl eq_refl ltac:(discriminate)
                           eq_refl ltac:(discriminate)))).
    apply Hsym. reflexivity.
Defined.

(** C5, the sentence of the spec read to the letter: every sum over an
    unmasked constant is rewritten to a constant. Over the symbolic shape
    the pass leaves the reduce as it is. *)
Lemma reduce_of_symbolic_const_is_not_folded :
  ~ (forall (ctx : ScheduleContext) (x : UOp) (axes : list nat) (c : ConstType),
       op x = CONST -> uop_const_arg x = Ok c ->
       exists r, pm_rewrite (ops_folding []) ctx (reduce_of ADD axes x) = Ok (Some r, ctx)).
Proof.
  intros H.
  destruct (H empty_ctx const_2_of_n [0] (CInt 2) eq_refl eq_refl) as [r Hr].
  vm_compute in Hr. discriminate Hr.
Qed.

(** The constant 2 of the empty shape (0,): the size-0 rule comes first in
    the pass, and the maximum folds to the identity of [Max], not to 2. *)
Definition const_2_of_0 : UOp :=
  mkUOp CONST (DScalar int_)
    [view_of (mkST [mkView [SInt 0] [SInt 0] (SInt 0) None false])]
    (AConst (CInt 2)).

Lemma max_of_empty_const_is_identity :
  pm_rewrite (ops_folding []) empty_ctx (reduce_of MAX [0] const_2_of_0)
    = Ok (Some (mkUOp CONST (DScalar int_) [] (AConst (CInt (- 2 ^ 31)))), empty_ctx).
Proof. vm_compute. reflexivity. Qed.

(** An empty input of shape (0,), and one of shape (0, 4). *)
Definition empty_0 : UOp := mkUOp VIEW (DScalar int_) [buf 7 0] (AST (contig [0%Z])).
Definition empty_0x4 : UOp := mkUOp VIEW (DScalar int_) [buf 7 0] (AST (contig [0%Z; 4%Z])).

Lemma reduce_of_empty_input_witness :
  pm_rewrite (ops_folding []) empty_ctx (reduce_of MUL [0] empty_0)
    = Ok (Some (mkUOp CONST (DScalar int_) [] (AConst (CInt 1))), empty_ctx).
Proof.
  exact (proj1 (@reduce_of_empty_input_is_identity ref_ShapeAPI ref_UOpAPI [] empty_ctx
    (DScalar int_) empty_0 MUL [0] 1%Z (CInt 1)
    (mkUOp CONST (DScalar int_) [] (AConst (CInt 1)))
    eq_refl eq_refl eq_refl ltac:(discriminate) eq_refl eq_refl)).
Defined.

(** C6, the sentence of the spec read to the letter: every reduce over an
    input of size 0 becomes the constant of the identity of its op. The
    product over axis 1 of the shape (0, 4) has size 0 itself; the pass
    makes it the constant 0, and the identity of [Mul] is 1. *)
Lemma reduce_of_empty_input_with_empty_output_is_zero :
  ~ (forall (ctx : ScheduleContext) (x : UOp) (o : Ops) (axes : list nat)
            (c : ConstType) (r : UOp),
       uop_size x = Ok 0%Z ->
       identity_element o (dtype x) = Ok c ->
       uop_const_like (reduce_of o axes x) c = Ok r ->
       pm_rewrite (ops_folding []) ctx (reduce_of o axes x) = Ok (Some r, ctx)).
Proof.
  intros H.
  specialize (H empty_ctx empty_0x4 MUL [1] (CInt 1) _ eq_refl eq_refl eq_refl).
  vm_compute in H. discriminate H.
Qed.

(** *** The order of a concrete schedule *)

(** [kernel_assign] writes [buf_b]; [kernel_reader] reads [buf_b] as it was
    before that assign and writes [buf_out]. *)
Definition kernel_assign : ScheduleItem :=
  mkScheduleItem
    (sink [store (dglobal 0 4) (contig [4%Z]) (alu NEG [load (dglobal 1 4) (contig [4%Z])])])
    [uop_buffer buf_b; uop_buffer buf_a] [] [].

Definition kernel_reader : ScheduleItem :=
  mkScheduleItem
    (sink [store (dglobal 0 4) (contig [4%Z]) (alu SQRT [load (dglobal 1 4) (contig [4%Z])])])
    [uop_buffer buf_out; uop_buffer buf_b] [] [buf_b].

Lemma kernel_reader_not_kernel_assign : kernel_reader <> kernel_assign.
Proof.
  intros E. apply (f_equal (fun si => List.length (assign_preloads si))) in E. discriminate E.
Qed.

Lemma schedule_respects_dependencies_witness :
  assemble_schedule [kernel_assign; kernel_reader] = Some (Ok [kernel_reader; kernel_assign]) /\
  before [kernel_reader; kernel_assign] kernel_reader kernel_assign.
Proof.
  assert (ND : NoDup [kernel_assign; kernel_reader]).
  { constructor; [|constructor; [intros [] | constructor]].
    intros [E|[]]. apply kernel_reader_not_kernel_assign. exact E. }
  assert (Hrun : assemble_schedule [kernel_assign; kernel_reader]
                 = Some (Ok [kernel_reader; kernel_assign])) by (vm_compute; reflexivity).
  assert (Hne : kernel_assign <> kernel_reader).
  { intros E. apply kernel_reader_not_kernel_assign. symmetry. exact E. }
  split; [exact Hrun|].
  exact (proj2 (proj2 (proj2 (proj2
    (@schedule_respects_dependencies ref_UOpAPI
       [kernel_assign; kernel_reader] [kernel_reader; kernel_assign]
       [(uop_buffer buf_b, kernel_assign); (uop_buffer buf_out, kernel_reader)]
       ND eq_refl Hrun))))
    kernel_reader kernel_assign buf_b
    (or_intror (or_introl eq_refl)) (or_introl eq_refl) eq_refl Hne).
Defined.

(** A kernel that writes an input of [K] does not always stand before [K]:
    [kernel_assign] writes [buf_b], an input of [kernel_reader], and stands
    after it, because [kernel_reader] reads [buf_b] as an assign-preload
    (the order that the comment of line 552 asks for). *)
Lemma preloading_reader_precedes_writer_of_its_input :
  ~ (forall (prescheduled schedule : list ScheduleItem),
       NoDup prescheduled ->
       assemble_schedule prescheduled = Some (Ok schedule) ->
       forall K K' b ins outs,
         In K schedule -> In K' schedule -> K' <> K ->
         inputs K = Ok ins -> In b ins ->
         outputs K' = Ok outs -> In b outs ->
         before schedule K' K).
Proof.
  intros H.
  assert (ND : NoDup [kernel_assign; kernel_reader]).
  { constructor; [|constructor; [intros [] | constructor]].
    intros [E|[]]. apply kernel_reader_not_kernel_assign. exact E. }
  assert (Hrun : assemble_schedule [kernel_assign; kernel_reader]
                 = Some (Ok [kernel_reader; kernel_assign])) by (vm_compute; reflexivity).
  assert (Hne : kernel_assign <> kernel_reader).
  { intros E. apply kernel_reader_not_kernel_assign. symmetry. exact E. }
  specialize (H _ _ ND Hrun kernel_reader kernel_assign (uop_buffer buf_b)
                [uop_buffer buf_b] [uop_buffer buf_b]
                (or_introl eq_refl) (or_intror (or_introl eq_refl)) Hne
                eq_refl (or_introl eq_refl) eq_refl (or_introl eq_refl)).
  destruct H as (l1 & l2 & l3 & E).
  destruct l1 as [|a [|a' l1]]; simpl in E.
  - apply kernel_reader_not_kernel_assign.
    apply (f_equal (hd kernel_reader)) in E. exact E.
  - apply (f_equal (@List.length _)) in E. simpl in E.
    rewrite length_app in E. simpl in E. lia.
  - apply (f_equal (@List.length _)) in E. simpl in E.
    rewrite length_app in E. simpl in E. lia.
Qed.

(** ** More on the kernel graph and its BFS (lines 547-572) *)

Section BeforeOrder.
Variable A : Type.

(** In a list without repeats an element splits the list in one way. *)
Lemma split_unique (x : A) : forall (a b c d : list A),
  NoDup (a ++ x :: b) -> a ++ x :: b = c ++ x :: d -> a = c /\ b = d.
Proof.
  induction a as [|y a IH]; intros b c d ND E.
  - destruct c as [|z c]; simpl in E.
    + inversion E; auto.
    + inversion E; subst. exfalso. simpl in ND. inversion ND as [|? ? Hn _]; subst.
      apply Hn. apply in_or_app. right. left. reflexivity.
  - destruct c as [|z c]; simpl in E.
    + inversion E; subst. exfalso. simpl in ND. inversion ND as [|? ? Hn _]; subst.
      apply Hn. apply in_or_app. right. left. reflexivity.
    + inversion E; subst. simpl in ND. inversion ND; subst.
      destruct (IH b c d) as [-> ->]; auto.
Qed.

Lemma before_irrefl (s : list A) (u : A) : NoDup s -> ~ before s u u.
Proof.
  intros ND (l1 & l2 & l3 & E). subst s.
  apply NoDup_remove_2 in ND. apply ND.
  apply in_or_app. right. apply in_or_app. right. left. reflexivity.
Qed.

Lemma before_trans (s : list A) (u x y : A) :
  NoDup s -> before s u x -> before s x y -> before s u y.
Proof.
  intros ND (l1 & l2 & l3 & E1) (m1 & m2 & m3 & E2).
  assert (E : (l1 ++ u :: l2) ++ x :: l3 = m1 ++ x :: m2 ++ y :: m3).
  { rewrite <- app_assoc. simpl. congruence. }
  apply split_unique in E.
  - destruct E as [E3 E4]. exists l1, (l2 ++ x :: m2), m3.
    rewrite E1, E4. rewrite <- app_assoc. reflexivity.
  - rewrite <- app_assoc. simpl. rewrite <- E1. exact ND.
Qed.

(** A chain of one or more steps of [R]. *)
Inductive chain (R : A -> A -> Prop) : A -> A -> Prop :=
| chain_one u x : R u x -> chain R u x
| chain_step u x y : R u x -> chain R x y -> chain R u y.

Lemma chain_before (R : A -> A -> Prop) (s : list A) :
  NoDup s -> (forall u x, R u x -> before s u x) ->
  forall u x, chain R u x -> before s u x.
Proof.
  intros ND HR u x H. induction H as [u x H|u x y H _ IH].
  - apply HR; assumption.
  - apply (@before_trans s u x y ND); [apply HR; assumption | exact IH].
Qed.

(** The queue of the BFS is served first in, first out: what is in the
    queue now is the next part of the schedule, in this order. *)
Lemma bfs_queue_first (A_eq_dec : forall x y : A, {x = y} + {x <> y})
  (graph : A -> list A) : forall fuel d q s r,
  bfs A_eq_dec fuel graph d q s = Some r -> exists rest, r = s ++ q ++ rest.
Proof.
  induction fuel as [|f IH]; intros d q s r H.
  - destruct q as [|si q]; simpl in H; [|discriminate].
    inversion H; subst. exists []. rewrite !app_nil_r. reflexivity.
  - destruct q as [|si q]; simpl in H.
    + inversion H; subst. exists []. rewrite !app_nil_r. reflexivity.
    + destruct (fold_left (relax A_eq_dec) (graph si) (d, q)) as [d' q'] eqn:E.
      cbn [fst snd] in H.
      destruct (relax_fold A_eq_dec _ _ _ E) as (_ & pushed & Hq & _).
      apply IH in H. destruct H as [rest Hr].
      exists (pushed ++ rest). rewrite Hr, Hq. rewrite <- !app_assoc. reflexivity.
Qed.

End BeforeOrder.

Section KernelGraphEdges.
Variable A : Type.
Variable A_eq_dec : forall x y : A, {x = y} + {x <> y}.
Variable Y : Type.
Variables (f h : Y -> A).

(** A loop that adds the edge [f y -> h y] for every [y] of a list adds no
    other edge. *)
Lemma add_edges_fold_inv (l : list Y) : forall g w x,
  In x (kg_graph (fold_left (fun g y => add_edge A_eq_dec g (f y) (h y)) l g) w) ->
  In x (kg_graph g w) \/ exists y, In y l /\ f y = w /\ h y = x.
Proof.
  induction l as [|y l IH]; intros g w x H; simpl in H; [left; exact H|].
  apply IH in H. destruct H as [H|(z & Hz & Hf & Hh)].
  - unfold add_edge in H. cbn [kg_graph] in H. unfold upd in H.
    destruct (A_eq_dec w (f y)) as [->|N]; [|left; exact H].
    apply in_app_or in H. destruct H as [H|[<-|[]]]; [left; exact H|].
    right. exists y. split; [left; reflexivity | split; reflexivity].
  - right. exists z. split; [right; exact Hz | split; assumption].
Qed.

Lemma filter_subseq (keep : A -> bool) (l : list A) : subseq (filter keep l) l.
Proof.
  induction l as [|a l IH]; simpl; [constructor|].
  destruct (keep a); constructor; exact IH.
Qed.

Lemma edges_into_zero (graph : A -> list A) (U : list A) (x : A) :
  edges_into A_eq_dec graph U x = 0 <-> forall u, In u U -> ~ In x (graph u).
Proof.
  unfold edges_into. induction U as [|a U IH]; simpl.
  - split; [intros _ u [] | reflexivity].
  - split.
    + intros H u [<-|Hu].
      * apply (count_occ_not_In A_eq_dec). lia.
      * apply IH; [lia | exact Hu].
    + intros H.
      assert (H0 : count_occ A_eq_dec (graph a) x = 0).
      { apply (count_occ_not_In A_eq_dec). apply H. left; reflexivity. }
      assert (H1 : list_sum (map (fun u => count_occ A_eq_dec (graph u) x) U) = 0).
      { apply IH. intros u Hu. apply H. right; exact Hu. }
      lia.
Qed.

End KernelGraphEdges.

Section ScheduleAssembly_edges.
Context `{UA : UOpAPI}.

(** [u] has to run before [x]: [x] reads a buffer written by [u] that is
    not one of its assign-preload parents (line 558), or [u] preloads a
    buffer that [x] assigns to (line 553). *)
Definition must_precede (P : list ScheduleItem) (targets : dict Buffer ScheduleItem)
  (u x : ScheduleItem) : Prop :=
  In u P /\ In x P /\
  ((exists ins b, inputs x = Ok ins /\ In b ins /\
      dget Buffer_eq_dec targets b = Some u /\ ~ In u (parents_assigns_of targets x)) \/
   (exists p, In p (assign_preloads u) /\
      dget Buffer_eq_dec targets (uop_buffer p) = Some x /\ x <> u)).

Lemma outputs_inputs_ok (si : ScheduleItem) (outs : list Buffer) :
  outputs si = Ok outs -> exists ins, inputs si = Ok ins.
Proof.
  unfold outputs, inputs. destruct (output_idxs si) as [idxs|e]; simpl; [|discriminate].
  intros _. eexists. reflexivity.
Qed.

Lemma schedule_targets_inputs (l : list ScheduleItem) : forall acc t,
  schedule_targets_of l acc = Ok t -> forall si, In si l -> exists ins, inputs si = Ok ins.
Proof.
  induction l as [|a l IH]; intros acc t H si Hsi; [contradiction|].
  simpl in H. destruct (outputs a) as [outs|e] eqn:Eo; simpl in H; [|discriminate].
  destruct Hsi as [<-|Hsi].
  - apply (@outputs_inputs_ok a outs Eo).
  - apply (IH _ _ H si Hsi).
Qed.

Lemma kernel_graph_ok (t : dict Buffer ScheduleItem) (l : list ScheduleItem) :
  (forall si, In si l -> exists ins, inputs si = Ok ins) ->
  forall g, exists g', kernel_graph t g l = Ok g'.
Proof.
  induction l as [|a l IH]; intros Hl g; simpl.
  - exists g; reflexivity.
  - destruct (Hl a (or_introl eq_refl)) as [ins Hi].
    unfold add_kernel_children. rewrite Hi. cbn [rbind].
    apply IH. intros si Hsi. apply Hl. right; exact Hsi.
Qed.

(** The edges one kernel adds are those of lines 554 and 560. *)
Lemma add_kernel_children_inv (t : dict Buffer ScheduleItem)
  (g g' : KGraph ScheduleItem) (si : ScheduleItem) (w x : ScheduleItem) :
  add_kernel_children t g si = Ok g' -> In x (kg_graph g' w) ->
  In x (kg_graph g w) \/
  (w = si /\ In x (parents_assigns_of t si)) \/
  (x = si /\ exists ins, inputs si = Ok ins /\ In w (scheduled_parents_of t si ins)).
Proof.
  intros H Hx. unfold add_kernel_children in H.
  destruct (inputs si) as [ins|e] eqn:Ei; simpl in H; [|discriminate].
  inversion H; subst; clear H.
  apply (@add_edges_fold_inv ScheduleItem ScheduleItem_eq_dec ScheduleItem
           (fun a => a) (fun _ => si)) in Hx.
  destruct Hx as [Hx|(y & Hy & <- & <-)].
  - apply (@add_edges_fold_inv ScheduleItem ScheduleItem_eq_dec ScheduleItem
             (fun _ => si) (fun a => a)) in Hx.
    destruct Hx as [Hx|(y & Hy & <- & <-)]; [left; exact Hx|].
    right; left. split; [reflexivity | exact Hy].
  - right; right. split; [reflexivity|]. exists ins. split; [reflexivity | exact Hy].
Qed.

Lemma kernel_graph_inv (t : dict Buffer ScheduleItem) (l : list ScheduleItem) :
  forall g g' w x,
  kernel_graph t g l = Ok g' -> In x (kg_graph g' w) ->
  In x (kg_graph g w) \/
  (In w l /\ In x (parents_assigns_of t w)) \/
  (In x l /\ exists ins, inputs x = Ok ins /\ In w (scheduled_parents_of t x ins)).
Proof.
  induction l as [|si l IH]; intros g g' w x H Hx; simpl in H.
  - inversion H; subst. left; exact Hx.
  - destruct (add_kernel_children t g si) as [g1|e] eqn:E1; simpl in H; [|discriminate].
    destruct (IH _ _ _ _ H Hx) as [H1|[[Hw Hp]|[Hxl Hs]]].
    + destruct (@add_kernel_children_inv t g g1 si w x E1 H1) as [H2|[[-> Hp]|[-> Hs]]].
      * left; exact H2.
      * right; left. split; [left; reflexivity | exact Hp].
      * right; right. split; [left; reflexivity | exact Hs].
    + right; left. split; [right; exact Hw | exact Hp].
    + right; right. split; [right; exact Hxl | exact Hs].
Qed.

(** The edges of the kernel graph are the pairs of [must_precede]. *)
Lemma kernel_graph_edges (P : list ScheduleItem) (t : dict Buffer ScheduleItem)
  (g : KGraph ScheduleItem) :
  schedule_targets_of P [] = Ok t ->
  kernel_graph t (kg_empty ScheduleItem) P = Ok g ->
  forall u x, In x (kg_graph g u) <-> must_precede P t u x.
Proof.
  intros Et Eg u x.
  assert (Ht : targets_ok P t).
  { eapply schedule_targets_ok; eauto; [intros y Hy; exact Hy | apply targets_ok_empty]. }
  destruct (@kernel_graph_spec UA P t P _ _ Eg) as (_ & _ & _ & HPA & HSP); auto.
  { intros y Hy; exact Hy. }
  split.
  - intros Hx. destruct (@kernel_graph_inv t P _ g u x Eg Hx) as [[]|[[Hu Hp]|[Hxl (ins & Hi & Hs)]]].
    + pose proof Hp as Hp'. apply parents_assigns_In in Hp'.
      destruct Hp' as (p & Hp1 & Hp2 & Hp3).
      split; [exact Hu|]. split; [apply (Ht _ _ Hp2)|].
      right. exists p. auto.
    + pose proof Hs as Hs'. apply scheduled_parents_In in Hs'.
      destruct Hs' as (b & Hb1 & Hb2 & Hb3).
      split; [apply (Ht _ _ Hb2)|]. split; [exact Hxl|].
      left. exists ins, b. auto.
  - intros (Hu & Hx & [(ins & b & Hi & Hb & Hk & Hn)|(p & Hp & Hk & Hn)]).
    + apply (HSP x ins u Hx Hi). apply scheduled_parents_In. exists b. auto.
    + apply (HPA u x Hu). apply parents_assigns_In. exists p. auto.
Qed.

(** How a call of [assemble_schedule] goes once the targets are built: the
    graph is built, the BFS ends, and the count decides. *)
Lemma assemble_schedule_runs (P : list ScheduleItem) (t : dict Buffer ScheduleItem) :
  schedule_targets_of P [] = Ok t ->
  exists g s,
    kernel_graph t (kg_empty ScheduleItem) P = Ok g /\
    bfs ScheduleItem_eq_dec (bfs_fuel (kg_in_degree g) P) (kg_graph g) (kg_in_degree g)
      (filter (fun si => Z.eqb (kg_in_degree g si) 0) P) [] = Some s /\
    assemble_schedule P =
      Some (if Nat.eqb (List.length s) (List.length P) then Ok s
            else Err (RuntimeError schedule_cycle_msg)).
Proof.
  intros Et.
  destruct (@kernel_graph_ok t P (@schedule_targets_inputs P [] t Et) (kg_empty ScheduleItem))
    as [g Eg].
  assert (Ht : targets_ok P t).
  { eapply schedule_targets_ok; eauto; [intros y Hy; exact Hy | apply targets_ok_empty]. }
  destruct (@kernel_graph_spec UA P t P _ _ Eg) as (Hwf & _); auto.
  { intros y Hy; exact Hy. }
  specialize (Hwf (kg_empty_wf P)).
  destruct (bfs ScheduleItem_eq_dec (bfs_fuel (kg_in_degree g) P) (kg_graph g) (kg_in_degree g)
              (filter (fun si => Z.eqb (kg_in_degree g si) 0) P) []) as [s|] eqn:Eb.
  - exists g, s. split; [exact Eg|]. split; [exact Eb|].
    unfold assemble_schedule. rewrite Et. cbn [rbind]. rewrite Eg, Eb.
    destruct (Nat.eqb _ _); reflexivity.
  - exfalso. revert Eb. apply (@bfs_terminates _ ScheduleItem_eq_dec (kg_graph g) P Hwf).
    unfold potential, bfs_fuel.
    pose proof (filter_length_le (fun si => Z.eqb (kg_in_degree g si) 0) P). lia.
Qed.

(** In a schedule that holds every kernel, each kernel stands after the
    kernels that have to run before it. *)
Lemma bfs_respects_must_precede (P s : list ScheduleItem) (t : dict Buffer ScheduleItem)
  (g : KGraph ScheduleItem) :
  NoDup P ->
  schedule_targets_of P [] = Ok t ->
  kernel_graph t (kg_empty ScheduleItem) P = Ok g ->
  bfs ScheduleItem_eq_dec (bfs_fuel (kg_in_degree g) P) (kg_graph g) (kg_in_degree g)
    (filter (fun si => Z.eqb (kg_in_degree g si) 0) P) [] = Some s ->
  List.length s = List.length P ->
  NoDup s /\ forall u x, must_precede P t u x -> before s u x.
Proof.
  intros ND Et Eg Eb El.
  assert (Ht : targets_ok P t).
  { eapply schedule_targets_ok; eauto; [intros y Hy; exact Hy | apply targets_ok_empty]. }
  destruct (@kernel_graph_spec UA P t P _ _ Eg) as (Hwf & Hbal & _); auto.
  { intros y Hy; exact Hy. }
  specialize (Hwf (kg_empty_wf P)).
  specialize (Hbal ND (kg_empty_balanced P)).
  assert (Hinv : bfs_inv ScheduleItem_eq_dec (kg_graph g) P (kg_in_degree g)
                   (filter (fun si => Z.eqb (kg_in_degree g si) 0) P) []).
  { apply bfs_inv_init; auto. intros y Hy; exact Hy. }
  destruct (@bfs_order _ ScheduleItem_eq_dec (kg_graph g) P ND Hwf _ _ _ _ _ Hinv Eb)
    as (NDs & Hincl & _ & Hord).
  assert (Hall : incl P s) by (apply NoDup_length_incl; auto; lia).
  split; [exact NDs|].
  intros u x Hux. pose proof Hux as (Hu & Hx & _).
  apply Hord; [apply Hall; exact Hx | exact Hu |].
  apply (@kernel_graph_edges P t g Et Eg). exact Hux.
Qed.

End ScheduleAssembly_edges.

Section ScheduleAssembly_more.
Context `{UA : UOpAPI}.

(** X2.  Cycle check of lines 563-572.  The edges are the ones the loop of
    lines 551-561 adds, [must_precede]: from [u] to [x] when [x] reads a
    buffer that [u] writes and [u] is not one of the [parents_assigns] of
    [x] (a read edge that line 558 drops does not count), or when [u]
    preloads a buffer that [x], another kernel, writes.  If these edges
    close a cycle (a chain of kernels, each with an edge to the next, that
    comes back to its first kernel), the BFS cannot place all the
    kernels: the call ends, returns no schedule and raises the cycle
    [RuntimeError]. *)
Theorem dependency_cycle_raises_cycle_error
  (P : list ScheduleItem) (t : dict Buffer ScheduleItem) (K : ScheduleItem) :
  NoDup P ->
  schedule_targets_of P [] = Ok t ->
  chain (must_precede P t) K K ->
  assemble_schedule P = Some (Err (RuntimeError schedule_cycle_msg)).
Proof.
  intros ND Et Hcycle.
  destruct (@assemble_schedule_runs UA P t Et) as (g & s & Eg & Eb & Ea).
  rewrite Ea. destruct (Nat.eqb (List.length s) (List.length P)) eqn:El; [|reflexivity].
  exfalso. apply Nat.eqb_eq in El.
  destruct (@bfs_respects_must_precede UA P s t g ND Et Eg Eb El) as [NDs Hord].
  apply (@before_irrefl _ s K NDs).
  apply (@chain_before _ (must_precede P t) s NDs Hord K K Hcycle).
Qed.

(** X3.  Start of the BFS (line 564).  In a returned schedule the kernels
    that have nothing to wait for (no kernel of the list has to run before
    them) come first, in the order they have in [prescheduled]; every
    other kernel comes after them. *)
Theorem kernels_with_no_parent_come_first
  (P s : list ScheduleItem) (t : dict Buffer ScheduleItem) :
  NoDup P ->
  schedule_targets_of P [] = Ok t ->
  assemble_schedule P = Some (Ok s) ->
  exists roots rest,
    s = roots ++ rest /\ subseq roots P /\
    forall x, In x roots <-> (In x P /\ forall u, ~ must_precede P t u x).
Proof.
  intros ND Et Hrun.
  destruct (@assemble_schedule_runs UA P t Et) as (g & s' & Eg & Eb & Ea).
  rewrite Ea in Hrun.
  destruct (Nat.eqb (List.length s') (List.length P)); [|discriminate].
  inversion Hrun; subst s'; clear Hrun.
  destruct (@bfs_queue_first _ ScheduleItem_eq_dec _ _ _ _ _ _ Eb) as [rest Hs]. simpl in Hs.
  assert (Ht : targets_ok P t).
  { eapply schedule_targets_ok; eauto; [intros y Hy; exact Hy | apply targets_ok_empty]. }
  destruct (@kernel_graph_spec UA P t P _ _ Eg) as (_ & Hbal & _); auto.
  { intros y Hy; exact Hy. }
  specialize (Hbal ND (kg_empty_balanced P)).
  exists (filter (fun si => Z.eqb (kg_in_degree g si) 0) P), rest.
  split; [exact Hs|]. split; [apply filter_subseq|].
  intros x. rewrite filter_In, Z.eqb_eq, (Hbal x).
  assert (Hz : Z.of_nat (edges_into ScheduleItem_eq_dec (kg_graph g) P x) = 0%Z
               <-> forall u, In u P -> ~ In x (kg_graph g u)).
  { split; intros H.
    - apply (edges_into_zero ScheduleItem_eq_dec). lia.
    - apply (edges_into_zero ScheduleItem_eq_dec) in H. lia. }
  rewrite Hz. split; intros [Hx H]; (split; [exact Hx|]).
  - intros u Hux. pose proof Hux as (Hu & _).
    apply (H u Hu). apply (@kernel_graph_edges UA P t g Et Eg). exact Hux.
  - intros u Hu Hin. apply (H u). apply (@kernel_graph_edges UA P t g Et Eg). exact Hin.
Qed.

End ScheduleAssembly_more.

(** *** Two kernels that read each other's output *)

Definition kernel_ping : ScheduleItem :=
  mkScheduleItem
    (sink [store (dglobal 0 4) (contig [4%Z]) (alu NEG [load (dglobal 1 4) (contig [4%Z])])])
    [uop_buffer buf_a; uop_buffer buf_b] [] [].

Definition kernel_pong : ScheduleItem :=
  mkScheduleItem
    (sink [store (dglobal 0 4) (contig [4%Z]) (alu SQRT [load (dglobal 1 4) (contig [4%Z])])])
    [uop_buffer buf_b; uop_buffer buf_a] [] [].

Lemma kernel_ping_not_kernel_pong : kernel_ping <> kernel_pong.
Proof. intros E. apply (f_equal bufs) in E. discriminate E. Qed.

Lemma dependency_cycle_witness :
  assemble_schedule [kernel_ping; kernel_pong] = Some (Err (RuntimeError schedule_cycle_msg)).
Proof.
  assert (ND : NoDup [kernel_ping; kernel_pong]).
  { constructor; [|constructor; [intros [] | constructor]].
    intros [E|[]]. apply kernel_ping_not_kernel_pong. symmetry. exact E. }
  apply (@dependency_cycle_raises_cycle_error ref_UOpAPI
           [kernel_ping; kernel_pong]
           [(uop_buffer buf_a, kernel_ping); (uop_buffer buf_b, kernel_pong)]
           kernel_ping ND eq_refl).
  apply (@chain_step _ _ kernel_ping kernel_pong kernel_ping); [|apply chain_one].
  - split; [left; reflexivity|]. split; [right; left; reflexivity|].
    left. exists [uop_buffer buf_a], (uop_buffer buf_a).
    split; [reflexivity|]. split; [left; reflexivity|]. split; [reflexivity|].
    intros [].
  - split; [right; left; reflexivity|]. split; [left; reflexivity|].
    left. exists [uop_buffer buf_b], (uop_buffer buf_b).
    split; [reflexivity|]. split; [left; reflexivity|]. split; [reflexivity|].
    intros [].
Defined.

Lemma kernels_with_no_parent_witness :
  exists roots rest,
    [kernel_reader; kernel_assign] = roots ++ rest /\
    subseq roots [kernel_assign; kernel_reader] /\
    forall x, In x roots <->
      (In x [kernel_assign; kernel_reader] /\
       forall u, ~ must_precede [kernel_assign; kernel_reader]
                     [(uop_buffer buf_b, kernel_assign); (uop_buffer buf_out, kernel_reader)]
                     u x).
Proof.
  assert (ND : NoDup [kernel_assign; kernel_reader]).
  { constructor; [|constructor; [intros [] | constructor]].
    intros [E|[]]. apply kernel_reader_not_kernel_assign. exact E. }
  assert (Hrun : assemble_schedule [kernel_assign; kernel_reader]
                 = Some (Ok [kernel_reader; kernel_assign])) by (vm_compute; reflexivity).
  exact (@kernels_with_no_parent_come_first ref_UOpAPI
           [kernel_assign; kernel_reader] [kernel_reader; kernel_assign]
           [(uop_buffer buf_b, kernel_assign); (uop_buffer buf_out, kernel_reader)]
           ND eq_refl Hrun).
Defined.

(** *** A read edge that line 558 drops *)

Section DroppedReadEdge.
Context `{UA : UOpAPI}.

(** C2.  Where the order of lines 551-561 parts from the claim.  Let [K]
    preload a buffer that another kernel [K'] writes, and let [b] be an
    input of [K] that [K'] writes too and that is not one of the buffers
    [K] preloads.  [K'] is then one of the [parents_assigns] of [K], and
    line 558 leaves it out of the [scheduled_parents] of [K] whatever the
    input it writes.  So in every schedule that is returned [K] stands
    before [K'] and not after it: [K] reads [b] before the kernel that
    writes [b] has run, where the claim has [K'] before [K]. *)
Theorem plain_input_is_read_before_its_writer_runs
  (prescheduled schedule : list ScheduleItem) (targets : dict Buffer ScheduleItem)
  (K K' : ScheduleItem) (ins : list Buffer) (b : Buffer) (x : UOp) :
  NoDup prescheduled ->
  schedule_targets_of prescheduled [] = Ok targets ->
  assemble_schedule prescheduled = Some (Ok schedule) ->
  In K prescheduled ->
  inputs K = Ok ins -> In b ins ->
  dget Buffer_eq_dec targets b = Some K' ->
  ~ In b (map uop_buffer (assign_preloads K)) ->
  In x (assign_preloads K) ->
  dget Buffer_eq_dec targets (uop_buffer x) = Some K' ->
  K' <> K ->
  In K schedule /\ In K' schedule /\
  (exists outs, outputs K' = Ok outs /\ In b outs /\ In (uop_buffer x) outs) /\
  In K' (parents_assigns_of targets K) /\
  ~ In K' (scheduled_parents_of targets K ins) /\
  before schedule K K' /\ ~ before schedule K' K.
Proof.
  intros ND Et Hrun HK Hins Hb Htb Hplain Hx Htx Hne.
  destruct (@schedule_respects_dependencies UA prescheduled schedule targets ND Et Hrun)
    as (Hperm & Htargets & _ & _ & Hpre).
  assert (NDs : NoDup schedule) by (apply (Permutation_NoDup Hperm ND)).
  assert (Hpa : In K' (parents_assigns_of targets K)).
  { apply parents_assigns_In. exists x. auto. }
  assert (Hbefore : before schedule K K') by (apply (Hpre K K' x HK Hx Htx Hne)).
  destruct (Htargets b K' Htb) as (HK' & outs & Ho & Hbo).
  destruct (Htargets (uop_buffer x) K' Htx) as (_ & outs' & Ho' & Hxo).
  rewrite Ho in Ho'. inversion Ho'; subst outs'.
  split; [apply (Permutation_in _ Hperm HK)|]. split; [exact HK'|].
  split; [exists outs; auto|]. split; [exact Hpa|].
  split.
  - intros Hsp. apply scheduled_parents_In in Hsp.
    destruct Hsp as (b' & _ & _ & Hn). apply Hn. exact Hpa.
  - split; [exact Hbefore|]. intros Hafter.
    apply (@before_irrefl _ schedule K NDs).
    apply (@before_trans _ schedule K K' K NDs Hbefore Hafter).
Qed.

End DroppedReadEdge.

Definition buf_c : UOp := buf 4 4.

(** [kernel_two_outputs] writes [buf_b] and [buf_c] from [buf_a];
    [kernel_mixed_reader] adds the value that [kernel_two_outputs] gives
    to [buf_b] to the value that [buf_c] had before it was assigned to,
    and writes [buf_out]. *)
Definition kernel_two_outputs : ScheduleItem :=
  mkScheduleItem
    (sink [store (dglobal 0 4) (contig [4%Z]) (alu NEG [load (dglobal 2 4) (contig [4%Z])]);
           store (dglobal 1 4) (contig [4%Z]) (alu SQRT [load (dglobal 2 4) (contig [4%Z])])])
    [uop_buffer buf_b; uop_buffer buf_c; uop_buffer buf_a] [] [].

Definition kernel_mixed_reader : ScheduleItem :=
  mkScheduleItem
    (sink [store (dglobal 0 4) (contig [4%Z])
             (alu ADD [load (dglobal 1 4) (contig [4%Z]); load (dglobal 2 4) (contig [4%Z])])])
    [uop_buffer buf_out; uop_buffer buf_b; uop_buffer buf_c] [] [buf_c].

Lemma plain_input_is_read_before_its_writer_runs_witness :
  assemble_schedule [kernel_two_outputs; kernel_mixed_reader]
    = Some (Ok [kernel_mixed_reader; kernel_two_outputs]) /\
  inputs kernel_mixed_reader = Ok [uop_buffer buf_b; uop_buffer buf_c] /\
  outputs kernel_two_outputs = Ok [uop_buffer buf_b; uop_buffer buf_c] /\
  before [kernel_mixed_reader; kernel_two_outputs] kernel_mixed_reader kernel_two_outputs /\
  ~ before [kernel_mixed_reader; kernel_two_outputs] kernel_two_outputs kernel_mixed_reader.
Proof.
  assert (Hne : kernel_two_outputs <> kernel_mixed_reader).
  { intros E. apply (f_equal (fun si => List.length (assign_preloads si))) in E. discriminate E. }
  assert (ND : NoDup [kernel_two_outputs; kernel_mixed_reader]).
  { constructor; [|constructor; [intros [] | constructor]].
    intros [E|[]]. apply Hne. symmetry. exact E. }
  assert (Hrun : assemble_schedule [kernel_two_outputs; kernel_mixed_reader]
                 = Some (Ok [kernel_mixed_reader; kernel_two_outputs]))
    by (vm_compute; reflexivity).
  assert (Hplain : ~ In (uop_buffer buf_b) (map uop_buffer (assign_preloads kernel_mixed_reader))).
  { intros [E|[]]. discriminate E. }
  split; [exact Hrun|]. split; [reflexivity|]. split; [reflexivity|].
  exact (proj2 (proj2 (proj2 (proj2 (proj2
    (@plain_input_is_read_before_its_writer_runs ref_UOpAPI
       [kernel_two_outputs; kernel_mixed_reader] [kernel_mixed_reader; kernel_two_outputs]
       [(uop_buffer buf_b, kernel_two_outputs); (uop_buffer buf_c, kernel_two_outputs);
        (uop_buffer buf_out, kernel_mixed_reader)]
       kernel_mixed_reader kernel_two_outputs
       [uop_buffer buf_b; uop_buffer buf_c] (uop_buffer buf_b) buf_c
       ND eq_refl Hrun (or_intror (or_introl eq_refl)) eq_refl (or_introl eq_refl)
       eq_refl Hplain (or_introl eq_refl) eq_refl Hne)))))).
Defined.

(** *** The walk on a load that follows a preload *)

Lemma load_after_preload_witness :
  assign_walk [] []
    ([alu ADD [preload buf_b (contig [4%Z]); load buf_b (contig [4%Z])]]
       ++ preload buf_b (contig [4%Z]) :: [] ++ load buf_b (contig [4%Z]) :: [buf_b])
  = Err (RuntimeError assign_cycle_msg).
Proof.
  apply (proj2 (@load_after_preload_is_rejected ref_ShapeAPI ref_UOpAPI []
                  [alu ADD [preload buf_b (contig [4%Z]); load buf_b (contig [4%Z])]]
                  [] [buf_b]
                  (preload buf_b (contig [4%Z])) (load buf_b (contig [4%Z])) buf_b []
                  eq_refl eq_refl eq_refl eq_refl) [buf_b]).
  reflexivity.
Defined.

(** ** More on [schedule_uop] (lines 208-232) *)

Section ScheduleUOp_more.
Context `{SA : ShapeAPI} `{UA : UOpAPI}.
Variable rewrite_views : UOp -> dict UOp UOp -> result UOp.
Variable lower_to_si : UOp -> ScheduleItemContext -> result (UOp * ScheduleItemContext).
Variable toposort : UOp -> list UOp.

(** A step that returns took nothing away and added at most the buffer of
    the [PRELOAD] it was on. *)
Lemma assign_step_ok (sb : dict UOp UOp) (pl pl' : list UOp) (x : UOp) :
  assign_step sb pl x = Ok pl' ->
  (op x <> PRELOAD /\ pl' = pl) \/
  (op x = PRELOAD /\ exists b, uop_buf_uop x = Ok b /\ pl' = pl ++ [b]).
Proof.
  unfold assign_step, Ops_eqb. intros H.
  destruct (Ops_eq_dec (op x) LOAD) as [El|Nl].
  - destruct (uop_buf_uop x) as [b|e]; cbn [rbind] in H; [|discriminate].
    destruct (mem UOp_eq_dec b pl); cbn [rbind] in H; [discriminate|].
    destruct (Ops_eq_dec (op x) PRELOAD) as [Ep|Np]; [congruence|].
    inversion H; subst. left. split; [exact Np | reflexivity].
  - cbn [rbind] in H. destruct (Ops_eq_dec (op x) PRELOAD) as [Ep|Np].
    + right. split; [exact Ep|].
      destruct (uop_buf_uop x) as [b|e]; cbn [rbind] in H; [|discriminate].
      exists b. split; [reflexivity|].
      destruct (dmem UOp_eq_dec sb b).
      * destruct (uop_st_arg x) as [st|e]; cbn [rbind] in H; [|discriminate].
        destruct (st_contiguous st); [|destruct (masked_view_ok st)];
          inversion H; reflexivity.
      * inversion H; reflexivity.
    + inversion H; subst. left. split; [exact Np | reflexivity].
Qed.

Lemma assign_walk_collects (sb : dict UOp UOp) (xs : list UOp) : forall pl pl',
  assign_walk sb pl xs = Ok pl' ->
  forall b, In b pl' <->
    In b pl \/ exists x, In x xs /\ op x = PRELOAD /\ uop_buf_uop x = Ok b.
Proof.
  induction xs as [|x xs IH]; intros pl pl' H b; simpl in H.
  - inversion H; subst. split; [intros Hb; left; exact Hb|].
    intros [Hb|(x & [] & _)]. exact Hb.
  - destruct (assign_step sb pl x) as [pl1|e] eqn:E; cbn [rbind] in H; [|discriminate].
    rewrite (IH _ _ H b).
    destruct (assign_step_ok _ _ _ E) as [[Np ->]|(Ep & b0 & Hb0 & ->)].
    + split.
      * intros [Hb|(y & Hy & Hop & Hbuf)]; [left; exact Hb|].
        right. exists y. split; [right; exact Hy | split; assumption].
      * intros [Hb|(y & [<-|Hy] & Hop & Hbuf)]; [left; exact Hb | congruence |].
        right. exists y. split; [exact Hy | split; assumption].
    + split.
      * intros [Hb|(y & Hy & Hop & Hbuf)].
        -- apply in_app_or in Hb. destruct Hb as [Hb|[<-|[]]]; [left; exact Hb|].
           right. exists x. split; [left; reflexivity | split; assumption].
        -- right. exists y. split; [right; exact Hy | split; assumption].
      * intros [Hb|(y & [<-|Hy] & Hop & Hbuf)].
        -- left. apply in_or_app. left. exact Hb.
        -- left. apply in_or_app. right. left. congruence.
        -- right. exists y. split; [exact Hy | split; assumption].
Qed.

(** X5.  The item of [schedule_uop] (lines 214-232).  When the call
    returns an item, its [assign_preloads] hold no buffer twice; they are
    empty when the context has no assign, whatever the kernel holds, and
    otherwise they are exactly the buffers of the [PRELOAD] nodes of the
    rewritten sink.  The metadata holds no entry twice, and the context
    comes back with nothing but [var_vals] changed. *)
Theorem schedule_uop_assign_preloads
  (pre : UOp) (ctx ctx' : ScheduleContext) (si : ScheduleItem) :
  schedule_uop rewrite_views lower_to_si toposort pre ctx = Ok (si, ctx') ->
  exists store_bufs sink,
    store_bufs_of (src pre) [] = Ok store_bufs /\
    rewrite_views pre store_bufs = Ok sink /\
    NoDup (assign_preloads si) /\
    (assigns ctx = [] -> assign_preloads si = []) /\
    (assigns ctx <> [] ->
       forall b, In b (assign_preloads si) <->
         exists x, In x (toposort sink) /\ op x = PRELOAD /\ uop_buf_uop x = Ok b) /\
    NoDup (metadata si) /\
    ctx' = set_var_vals ctx (var_vals ctx').
Proof.
  intros H. unfold schedule_uop in H.
  destruct (store_bufs_of (src pre) []) as [sb|e] eqn:Esb; cbn [rbind] in H; [|discriminate].
  destruct (rewrite_views pre sb) as [sink|e] eqn:Erw; cbn [rbind] in H; [|discriminate].
  destruct (lower_to_si sink _) as [lowered|e]; cbn [rbind] in H; [|discriminate].
  exists sb, sink. split; [reflexivity|]. split; [exact Erw|].
  destruct (assigns ctx) as [|a0 l0] eqn:Ea; cbn [rbind] in H.
  - destruct (item_bufs _) as [bs|e]; cbn [rbind] in H; [|discriminate].
    inversion H; subst; clear H. cbn [assign_preloads metadata].
    split; [apply dedup_NoDup|]. split; [reflexivity|]. split; [congruence|].
    split; [apply dedup_NoDup | reflexivity].
  - destruct (assign_walk sb [] (rev (toposort sink))) as [pl|e] eqn:Ew;
      cbn [rbind] in H; [|discriminate].
    destruct (item_bufs _) as [bs|e]; cbn [rbind] in H; [|discriminate].
    inversion H; subst; clear H. cbn [assign_preloads metadata].
    split; [apply dedup_NoDup|]. split; [discriminate|].
    split; [|split; [apply dedup_NoDup | reflexivity]].
    intros _ b. rewrite dedup_In. rewrite (assign_walk_collects _ _ _ Ew b).
    split.
    + intros [[]|(x & Hx & Hop & Hb)]. exists x. rewrite in_rev. auto.
    + intros (x & Hx & Hop & Hb). right. exists x. rewrite <- in_rev. auto.
Qed.

End ScheduleUOp_more.

Lemma schedule_uop_assign_preloads_witness :
  exists store_bufs sink,
    store_bufs_of (src kernel_preload_then_load) [] = Ok store_bufs /\
    no_rewrite kernel_preload_then_load store_bufs = Ok sink /\
    NoDup [buf_b] /\
    (assigns (ctx_assigns [buf_b]) = [] -> [buf_b] = []) /\
    (assigns (ctx_assigns [buf_b]) <> [] ->
       forall b, In b [buf_b] <->
         exists x, In x (ref_toposort sink) /\ op x = PRELOAD /\ uop_buf_uop x = Ok b) /\
    NoDup (@nil Metadata) /\
    ctx_assigns [buf_b] = set_var_vals (ctx_assigns [buf_b]) [].
Proof.
  exact (@schedule_uop_assign_preloads ref_ShapeAPI ref_UOpAPI
           no_rewrite no_lowering ref_toposort kernel_preload_then_load
           (ctx_assigns [buf_b]) (ctx_assigns [buf_b])
           (mkScheduleItem kernel_preload_then_load [] [] [buf_b])
           eq_refl).
Defined.

(** ** More on [break_sched] (lines 472-496) *)

Section BreakSched_more.
Context `{SA : ShapeAPI} `{UA : UOpAPI}.

(** What no rule of [break_sched] touches. *)
Definition same_graph_state (ctx ctx' : ScheduleContext) : Prop :=
  tensor_uops ctx' = tensor_uops ctx /\ assigns ctx' = assigns ctx /\
  allbufs ctx' = allbufs ctx /\ contiguous ctx' = contiguous ctx /\
  children ctx' = children ctx /\ becomes_map ctx' = becomes_map ctx.

Lemma same_graph_state_refl (ctx : ScheduleContext) : same_graph_state ctx ctx.
Proof. repeat split. Qed.

Lemma unbind_variable_state (ctx ctx' : ScheduleContext) (bind var val : UOp) (r : option UOp) :
  unbind_variable ctx bind var val = Ok (r, ctx') ->
  same_graph_state ctx ctx' /\ realizes ctx' = realizes ctx /\
  ops_metadata ctx' = ops_metadata ctx.
Proof.
  unfold unbind_variable. intros H.
  destruct (tuple_get (src val) 1) as [v1|e]; cbn [rbind] in H; [|discriminate].
  destruct (uop_const_arg v1) as [c|e]; cbn [rbind] in H; [|discriminate].
  destruct c; try discriminate;
    (destruct (unwrap (uop_st bind)) as [st|e]; cbn [rbind] in H; [|discriminate];
     inversion H; subst; repeat split).
Qed.

Lemma store_or_fuse_state (ctx ctx' : ScheduleContext) (b x st : UOp) (r : option UOp) :
  store_or_fuse ctx b x st = Ok (r, ctx') ->
  same_graph_state ctx ctx' /\ var_vals ctx' = var_vals ctx /\
  dkeys (realizes ctx') = dkeys (realizes ctx).
Proof.
  unfold store_or_fuse. intros H.
  destruct (dgetitem UOp_eq_dec (tensor_uops ctx) b) as [luops|e]; cbn [rbind] in H; [|discriminate].
  destruct (tuple_get luops 0) as [l0|e]; cbn [rbind] in H; [|discriminate].
  set (ctx1 := match uop_metadata l0 with
               | Some m => set_ops_metadata ctx (dset UOp_eq_dec (ops_metadata ctx) x m)
               | None => ctx
               end) in *.
  assert (H1 : same_graph_state ctx ctx1 /\ var_vals ctx1 = var_vals ctx /\
               realizes ctx1 = realizes ctx).
  { unfold ctx1. destruct (uop_metadata l0); repeat split. }
  destruct H1 as ((T & A & B & C & D & E) & V & R).
  destruct (dmem UOp_eq_dec (realizes ctx1) b) eqn:Em; cbn [negb] in H.
  - destruct (uop_shape st) as [shp|e]; cbn [rbind] in H; [|discriminate].
    destruct (unwrap (uop_st st)) as [s|e]; cbn [rbind] in H; [|discriminate].
    inversion H; subst; clear H. unfold same_graph_state, set_realizes.
    cbn [tensor_uops var_vals assigns realizes allbufs ops_metadata contiguous children
         becomes_map].
    split; [repeat split; assumption|]. split; [assumption|].
    rewrite dkeys_dset, Em, R. reflexivity.
  - inversion H; subst; clear H.
    split; [repeat split; assumption|]. split; [assumption|].
    rewrite R. reflexivity.
Qed.

(** X6.  What [break_sched] never does.  Whatever node it is tried on, a
    call that returns leaves the set of realized buffers as it was (the
    keys of [ctx.realizes], in their order) and does not touch
    [tensor_uops], [assigns], [allbufs], [contiguous], [children] or
    [becomes_map]; [var_vals] changes on a [BIND] only, and [realizes]
    and [ops_metadata] on a [VIEW] only. *)
Theorem break_sched_keeps_realized_set
  (ctx ctx' : ScheduleContext) (u : UOp) (r : option UOp) :
  pm_rewrite break_sched ctx u = Ok (r, ctx') ->
  dkeys (realizes ctx') = dkeys (realizes ctx) /\
  same_graph_state ctx ctx' /\
  (op u <> BIND -> var_vals ctx' = var_vals ctx) /\
  (op u <> VIEW -> realizes ctx' = realizes ctx /\ ops_metadata ctx' = ops_metadata ctx).
Proof.
  intros H. destruct u as [o d s a].
  assert (Hsame : forall c c' : ScheduleContext, c' = c ->
            dkeys (realizes c') = dkeys (realizes c) /\ same_graph_state c c' /\
            (o <> BIND -> var_vals c' = var_vals c) /\
            (o <> VIEW -> realizes c' = realizes c /\ ops_metadata c' = ops_metadata c)).
  { intros c c' ->. repeat split. }
  cbn [op].
  destruct o;
    try (cbn in H; inversion H; subst; apply Hsame; reflexivity).
  - (* VIEW *)
    destruct s as [|b [|x [|y s]]].
    + cbn in H. inversion H; subst. apply Hsame; reflexivity.
    + cbn [pm_rewrite break_sched rbind fst snd] in H.
      destruct (Ops_eqb (op b) BUFFER).
      * unfold load_realized in H.
        destruct (unwrap (uop_st (mkUOp VIEW d [b] a))) as [st|e]; cbn in H; [|discriminate].
        inversion H; subst. apply Hsame; reflexivity.
      * cbn in H. inversion H; subst. apply Hsame; reflexivity.
    + cbn [pm_rewrite break_sched rbind fst snd] in H.
      destruct (Ops_eqb (op b) BUFFER).
      * destruct (store_or_fuse ctx b x (mkUOp VIEW d [b; x] a)) as [[r1 c1]|e] eqn:E;
          cbn [rbind fst snd] in H; [|discriminate].
        apply store_or_fuse_state in E. destruct E as (G & V & R).
        assert (c1 = ctx') by (destruct r1; inversion H; reflexivity). subst c1.
        split; [exact R|]. split; [exact G|]. split; [intros _; exact V|].
        intros N; congruence.
      * cbn in H. inversion H; subst. apply Hsame; reflexivity.
    + cbn in H. inversion H; subst. apply Hsame; reflexivity.
  - (* CONST *)
    destruct s as [|st [|y s]]; try (cbn in H; inversion H; subst; apply Hsame; reflexivity).
    cbn [pm_rewrite break_sched rbind fst snd] in H.
    destruct (Ops_eqb (op st) VIEW).
    + destruct (uop_const_arg (mkUOp CONST d [st] a)) as [c|e]; cbn [rbind] in H; [|discriminate].
      destruct (unwrap (uop_st st)) as [s0|e]; cbn in H; [|discriminate].
      inversion H; subst. apply Hsame; reflexivity.
    + cbn in H. inversion H; subst. apply Hsame; reflexivity.
  - (* BIND *)
    destruct s as [|var [|val [|y s]]];
      try (cbn in H; inversion H; subst; apply Hsame; reflexivity).
    cbn [pm_rewrite break_sched rbind fst snd] in H.
    destruct (unbind_variable ctx (mkUOp BIND d [var; val] a) var val) as [[r1 c1]|e] eqn:E;
      cbn [rbind fst snd] in H; [|discriminate].
    apply unbind_variable_state in E. destruct E as (G & R & M).
    assert (c1 = ctx') by (destruct r1; inversion H; reflexivity). subst c1.
    split; [rewrite R; reflexivity|]. split; [exact G|]. split; [intros N; congruence|].
    intros _. split; assumption.
Qed.

End BreakSched_more.

Section StoreOrFuse_facts.
Context `{SA : ShapeAPI} `{UA : UOpAPI}.

(** X7.  [break_sched] on [VIEW(b, x)] with [b] a [BUFFER]: the rule
    [store_or_fuse] answers.  Without tensor nodes linked to [b] it
    raises: [KeyError] when [b] is no key of [ctx.tensor_uops],
    [IndexError] when its list is empty.  Otherwise, when [b] is not
    realized the view is fused (the result is [x] itself and [realizes]
    stays as it is); when [b] is realized the result is a [LOAD] of [b]
    through the view's shape-tracker with the dtype of [x], and
    [realizes] maps [b] to the [STORE] of [x] into [b] through the
    contiguous tracker of the view's shape, every other entry kept. *)
Theorem view_of_buffer_and_op_is_stored_or_fused
  (ctx : ScheduleContext) (b x : UOp) (d : DType) (a : Arg) :
  let view := mkUOp VIEW d [b; x] a in
  op b = BUFFER ->
  (dget UOp_eq_dec (tensor_uops ctx) b = None ->
     pm_rewrite break_sched ctx view = Err KeyError) /\
  (dget UOp_eq_dec (tensor_uops ctx) b = Some [] ->
     pm_rewrite break_sched ctx view = Err IndexError) /\
  (forall l0 luops, dget UOp_eq_dec (tensor_uops ctx) b = Some (l0 :: luops) ->
     (dmem UOp_eq_dec (realizes ctx) b = false ->
        exists ctx', pm_rewrite break_sched ctx view = Ok (Some x, ctx') /\
          realizes ctx' = realizes ctx) /\
     (dmem UOp_eq_dec (realizes ctx) b = true ->
        forall s, uop_st view = Some s ->
        exists ctx',
          pm_rewrite break_sched ctx view
            = Ok (Some (mkUOp LOAD (dtype x) [b; st_to_uop s] ANone), ctx') /\
          dget UOp_eq_dec (realizes ctx') b
            = Some (UOp_store b (st_to_uop (st_from_shape (st_shape s))) x) /\
          forall b', b' <> b ->
            dget UOp_eq_dec (realizes ctx') b' = dget UOp_eq_dec (realizes ctx) b')).
Proof.
  intros view Hb.
  assert (Hrun : pm_rewrite break_sched ctx view
                 = (res <- store_or_fuse ctx b x view ;;
                    match fst res with
                    | Some v => Ok (Some v, snd res)
                    | None => Ok (None, snd res)
                    end)).
  { unfold view. cbn [pm_rewrite break_sched rbind fst snd]. unfold Ops_eqb. rewrite Hb.
    destruct (Ops_eq_dec BUFFER BUFFER) as [_|N]; [|congruence]. reflexivity. }
  rewrite Hrun. unfold store_or_fuse, dgetitem. split; [|split].
  - intros ->. reflexivity.
  - intros ->. reflexivity.
  - intros l0 luops ->. cbn [rbind tuple_get nth_error].
    set (ctx1 := match uop_metadata l0 with
                 | Some m => set_ops_metadata ctx (dset UOp_eq_dec (ops_metadata ctx) x m)
                 | None => ctx
                 end).
    assert (R : realizes ctx1 = realizes ctx).
    { unfold ctx1. destruct (uop_metadata l0); reflexivity. }
    rewrite R. split.
    + intros ->. cbn. exists ctx1. split; [reflexivity | exact R].
    + intros -> s Hs. cbn [negb]. unfold uop_shape. rewrite Hs. cbn [rbind unwrap fst snd].
      eexists. split; [reflexivity|]. unfold set_realizes. cbn [realizes]. split.
      * apply dget_dset_same.
      * intros b' N. apply dget_dset_other. exact N.
Qed.

End StoreOrFuse_facts.

(** *** [break_sched] on a view of a realized buffer *)

Definition ctx_realized : ScheduleContext :=
  mkCtx [(buf_a, [tensor_a])] [] [] [(buf_a, buf_a)] [] [] [] [] [].

Lemma break_sched_keeps_realized_set_witness :
  dkeys [(buf_a, store buf_a (contig [4%Z]) inner_op)] = dkeys (realizes ctx_realized).
Proof.
  exact (proj1 (@break_sched_keeps_realized_set ref_ShapeAPI ref_UOpAPI ctx_realized
                  (set_realizes ctx_realized [(buf_a, store buf_a (contig [4%Z]) inner_op)])
                  inner_view
                  (Some (mkUOp LOAD (DScalar float_) [buf_a; view_of (contig [4%Z])] ANone))
                  eq_refl)).
Defined.

Lemma view_of_buffer_and_op_witness :
  exists ctx',
    pm_rewrite break_sched ctx_realized inner_view
      = Ok (Some (load buf_a (contig [4%Z])), ctx') /\
    dget UOp_eq_dec (realizes ctx') buf_a = Some (store buf_a (contig [4%Z]) inner_op) /\
    forall b', b' <> buf_a ->
      dget UOp_eq_dec (realizes ctx') b' = dget UOp_eq_dec (realizes ctx_realized) b'.
Proof.
  exact (proj2 (proj2 (proj2 (@view_of_buffer_and_op_is_stored_or_fused ref_ShapeAPI ref_UOpAPI
                  ctx_realized buf_a inner_op (DScalar float_) (AST (contig [4%Z])) eq_refl))
                  tensor_a [] eq_refl) eq_refl (contig [4%Z]) eq_refl).
Defined.

(** ** More on [merge_bufs] (lines 403-429) *)

Section MergeBufs_more.
Context `{SA : ShapeAPI} `{UA : UOpAPI}.

Lemma early_become_err (b1 : UOp) (l : list UOp) (e : error) :
  fold_left (early_become b1) l (Err e) = Err e.
Proof. induction l as [|x l IH]; simpl; auto. Qed.

(** The loop of [merge_realized] over tensor nodes that all have a
    shape-tracker. *)
Lemma early_become_fold (b1 : UOp) (l : list UOp) : forall m,
  (forall luop, In luop l -> uop_st luop <> None) ->
  exists m',
    fold_left (early_become b1) l (Ok m) = Ok m' /\
    (forall luop st, In luop l -> uop_st luop = Some st ->
       dget UOp_eq_dec m' luop = Some (uop_view b1 st)) /\
    (forall k, ~ In k l -> dget UOp_eq_dec m' k = dget UOp_eq_dec m k).
Proof.
  induction l as [|x l IH]; intros m Hl.
  - exists m. split; [reflexivity|]. split; [intros luop st []|reflexivity].
  - destruct (uop_st x) as [sx|] eqn:Ex.
    2:{ exfalso. apply (Hl x (or_introl eq_refl)). exact Ex. }
    destruct (IH (dset UOp_eq_dec m x (uop_view b1 sx))) as (m' & Hrun & Hin & Hout).
    { intros luop Hluop. apply Hl. right; exact Hluop. }
    exists m'. split.
    + cbn [fold_left]. unfold early_become at 2. cbn [rbind]. rewrite Ex. cbn [unwrap rbind].
      exact Hrun.
    + split.
      * intros luop st [<-|Hluop] Hst.
        -- destruct (in_dec UOp_eq_dec x l) as [Hx|Hx]; [apply Hin; assumption|].
           rewrite (Hout x Hx). rewrite dget_dset_same. congruence.
        -- apply Hin; assumption.
      * intros k Hk. rewrite Hout.
        -- apply dget_dset_other. intros ->. apply Hk. left; reflexivity.
        -- intros Hkl. apply Hk. right; exact Hkl.
Qed.

(** X8.  The second rule of [merge_bufs] (early become).  On
    [VIEW(b2, VIEW(b1))], a view of a view of a realized buffer, the
    answer is the inner view; every tensor node linked to [b1] or to [b2]
    becomes, in [becomes_map], the view of [b1] through its own
    shape-tracker; the other entries of [becomes_map] stay, and nothing
    else in the context changes: unlike the first rule, this one leaves
    the tensor links and the realize mark of [b2] in place. *)
Theorem merge_realized_early_become
  (ctx : ScheduleContext) (b1 b2 : UOp) (d1 d2 : DType) (a1 a2 : Arg) :
  let v1 := mkUOp VIEW d1 [b1] a1 in
  let v2 := mkUOp VIEW d2 [b2; v1] a2 in
  let get b := match dget UOp_eq_dec (tensor_uops ctx) b with Some l => l | None => [] end in
  op b1 = BUFFER -> op b2 = BUFFER ->
  (forall luop, In luop (get b1 ++ get b2) -> uop_st luop <> None) ->
  exists ctx',
    pm_rewrite merge_bufs ctx v2 = Ok (Some v1, ctx') /\
    (forall luop st, In luop (get b1 ++ get b2) -> uop_st luop = Some st ->
       dget UOp_eq_dec (becomes_map ctx') luop = Some (uop_view b1 st)) /\
    (forall k, ~ In k (get b1 ++ get b2) ->
       dget UOp_eq_dec (becomes_map ctx') k = dget UOp_eq_dec (becomes_map ctx) k) /\
    ctx' = set_becomes_map ctx (becomes_map ctx').
Proof.
  intros v1 v2 get Hb1 Hb2 Hst.
  destruct (@early_become_fold b1 (get b1 ++ get b2) (becomes_map ctx) Hst)
    as (m' & Hrun & Hin & Hout).
  exists (set_becomes_map ctx m'). split; [|split; [exact Hin | split; [exact Hout | reflexivity]]].
  unfold v2, v1. cbn [pm_rewrite merge_bufs rbind fst snd].
  unfold Ops_eqb. rewrite Hb1, Hb2.
  destruct (Ops_eq_dec BUFFER BUFFER) as [_|N]; [|congruence]. cbn [andb].
  unfold merge_realized. fold (get b1). fold (get b2). rewrite Hrun. reflexivity.
Qed.

(** X9.  The first rule of [merge_bufs] refuses what it cannot merge.  On
    [VIEW(b2, VIEW(b1, x))] with two [BUFFER]s: when the two views do not
    have the same shape-tracker (or one has none), the rule raises
    [AssertionError] (the merge would hide a movement op); when they
    have and one of the two buffers has no tensor link, it raises
    [KeyError]. *)
Theorem merge_refuses_different_views
  (ctx : ScheduleContext) (b1 b2 x : UOp) (d1 d2 : DType) (a1 a2 : Arg) :
  let v1 := mkUOp VIEW d1 [b1; x] a1 in
  let v2 := mkUOp VIEW d2 [b2; v1] a2 in
  op b1 = BUFFER -> op b2 = BUFFER ->
  ((uop_st v1 = None \/ uop_st v2 = None \/ uop_st v1 <> uop_st v2) ->
     pm_rewrite merge_bufs ctx v2 = Err AssertionError) /\
  (uop_st v1 <> None -> uop_st v1 = uop_st v2 ->
   (dget UOp_eq_dec (tensor_uops ctx) b1 = None \/
    dget UOp_eq_dec (tensor_uops ctx) b2 = None) ->
     pm_rewrite merge_bufs ctx v2 = Err KeyError).
Proof.
  intros v1 v2 Hb1 Hb2.
  assert (Hrun : pm_rewrite merge_bufs ctx v2
                 = (res <- merge ctx v1 b1 v2 b2 ;;
                    match fst res with
                    | Some v => Ok (Some v, snd res)
                    | None => pm_rewrite (tl merge_bufs) (snd res) v2
                    end)).
  { unfold v2, v1. cbn [pm_rewrite merge_bufs rbind fst snd tl].
    unfold Ops_eqb. rewrite Hb1, Hb2.
    destruct (Ops_eq_dec BUFFER BUFFER) as [_|N]; [|congruence]. reflexivity. }
  rewrite Hrun. unfold merge. split.
  - intros H. destruct (uop_st v1) as [s1|]; [|reflexivity].
    destruct (uop_st v2) as [s2|]; [|reflexivity].
    destruct (ShapeTracker_eq_dec s1 s2) as [->|N]; [|reflexivity].
    exfalso. destruct H as [H|[H|H]]; try discriminate. apply H. reflexivity.
  - intros H1 H2 Hk. destruct (uop_st v1) as [s1|]; [|congruence].
    rewrite <- H2. destruct (ShapeTracker_eq_dec s1 s1) as [_|N]; [|congruence].
    assert (Hrz : exists rz,
              (if dmem UOp_eq_dec (realizes ctx) b2
               then ddel UOp_eq_dec (dset UOp_eq_dec (realizes ctx) b1 b1) b2
               else Ok (realizes ctx)) = Ok rz).
    { unfold dmem. destruct (dget UOp_eq_dec (realizes ctx) b2) as [r2|] eqn:E.
      - destruct (UOp_eq_dec b2 b1) as [->|Hne].
        + eexists. apply ddel_present with (v := b1). apply dget_dset_same.
        + eexists. apply ddel_present with (v := r2). rewrite dget_dset_other; auto.
      - eexists. reflexivity. }
    destruct Hrz as [rz ->]. cbn [rbind]. unfold dgetitem.
    destruct Hk as [->| ->]; [reflexivity|].
    destruct (dget UOp_eq_dec (tensor_uops ctx) b1); reflexivity.
Qed.

End MergeBufs_more.

(** *** [merge_bufs] on concrete views *)

Definition tensor_c : UOp := alu NEG [view_of (contig [4%Z])].
Definition tensor_d : UOp := alu SQRT [view_of (contig [2%Z; 2%Z])].

Definition ctx_links : ScheduleContext :=
  mkCtx [(buf_a, [tensor_c]); (buf_b, [tensor_d])] [] [] [(buf_b, buf_b)] [] [] [] [] [].

Definition realized_view : UOp := mkUOp VIEW (DScalar float_) [buf_a] (AST (contig [4%Z])).

Lemma merge_realized_early_become_witness :
  exists ctx',
    pm_rewrite merge_bufs ctx_links
      (mkUOp VIEW (DScalar float_) [buf_b; realized_view] (AST (contig [4%Z])))
      = Ok (Some realized_view, ctx') /\
    (forall luop st, In luop ([tensor_c] ++ [tensor_d]) -> uop_st luop = Some st ->
       dget UOp_eq_dec (becomes_map ctx') luop = Some (uop_view buf_a st)) /\
    (forall k, ~ In k ([tensor_c] ++ [tensor_d]) ->
       dget UOp_eq_dec (becomes_map ctx') k = dget UOp_eq_dec (becomes_map ctx_links) k) /\
    ctx' = set_becomes_map ctx_links (becomes_map ctx').
Proof.
  apply (@merge_realized_early_become ref_UOpAPI ctx_links buf_a buf_b
           (DScalar float_) (DScalar float_) (AST (contig [4%Z])) (AST (contig [4%Z]))
           eq_refl eq_refl).
  intros luop [<-|[<-|[]]]; discriminate.
Defined.

Lemma merge_refuses_different_views_witness :
  pm_rewrite merge_bufs ctx_links
    (mkUOp VIEW (DScalar float_) [buf_b; inner_view] (AST (contig [2%Z; 2%Z])))
  = Err AssertionError.
Proof.
  apply (proj1 (@merge_refuses_different_views ref_UOpAPI ctx_links buf_a buf_b
                  inner_op (DScalar float_) (DScalar float_)
                  (AST (contig [4%Z])) (AST (contig [2%Z; 2%Z])) eq_refl eq_refl)).
  right; right. discriminate.
Defined.

(** ** Scheduled ops and the context builder (lines 242-245 and 500-506) *)

Definition set_assigns (ctx : ScheduleContext) (l : list UOp) : ScheduleContext :=
  mkCtx (tensor_uops ctx) (var_vals ctx) l (realizes ctx) (allbufs ctx) (ops_metadata ctx)
    (contiguous ctx) (children ctx) (becomes_map ctx).

Definition set_allbufs (ctx : ScheduleContext) (d : dict UOp UOp) : ScheduleContext :=
  mkCtx (tensor_uops ctx) (var_vals ctx) (assigns ctx) (realizes ctx) d (ops_metadata ctx)
    (contiguous ctx) (children ctx) (becomes_map ctx).

Definition set_children (ctx : ScheduleContext) (d : dict UOp (dict UOp unit))
  : ScheduleContext :=
  mkCtx (tensor_uops ctx) (var_vals ctx) (assigns ctx) (realizes ctx) (allbufs ctx)
    (ops_metadata ctx) (contiguous ctx) d (becomes_map ctx).

(** [s.add(x)] on a set kept as a list without repeats. *)
Definition set_add (x : UOp) (s : list UOp) : list UOp :=
  if mem UOp_eq_dec x s then s else s ++ [x].

(** The calls [buffer.ref(cnt)] made so far, in order.  The reference
    count itself is kept by [Buffer] (tinygrad.device). *)
Definition RefCalls : Type := list (Buffer * Z).

Section CreateCtx.
Context `{UA : UOpAPI}.

(** [is_scheduled] *)
Definition is_scheduled (u : UOp) : bool :=
  Ops_eqb (op u) VIEW && Nat.eqb (List.length (src u)) 2 &&
  match src u with
  | s0 :: _ => Ops_eqb (op s0) BUFFER
  | [] => false
  end.

(** [uval] *)
Definition uval (u : UOp) : result UOp :=
  if is_scheduled u then
    r <- tuple_get (src u) 1 ;;
    if Ops_eqb (op r) CONTIGUOUS then
      r0 <- tuple_get (src r) 0 ;;
      if negb (Ops_eqb (op (uop_base r0)) VIEW
               && Nat.eqb (List.length (src (uop_base r0))) 2)
      then Ok r0 else Ok r
    else Ok r
  else Err AssertionError.

(** [ctx.children.setdefault(k, {})[buf_uop] = None] *)
Definition add_child (ch : dict UOp (dict UOp unit)) (k buf_uop : UOp)
  : dict UOp (dict UOp unit) :=
  let inner := match dget UOp_eq_dec ch k with Some d => d | None => [] end in
  dset UOp_eq_dec ch k (dset UOp_eq_dec inner buf_uop tt).

(** The loop [for x in op.base.src] of [append_uop]. *)
Fixpoint link_children (ch : dict UOp (dict UOp unit)) (buf_uop : UOp) (xs : list UOp)
  : result (dict UOp (dict UOp unit)) :=
  match xs with
  | [] => Ok ch
  | x :: rest =>
      if is_scheduled (uop_base x)
      then k <- uop_buf_uop (uop_base x) ;; link_children (add_child ch k buf_uop) buf_uop rest
      else link_children ch buf_uop rest
  end.

(** [append_uop] *)
Definition append_uop (ctx : ScheduleContext) (refs : RefCalls) (view buf_uop : UOp)
  : result (ScheduleContext * RefCalls) :=
  let ctx1 := set_allbufs ctx (dset UOp_eq_dec (allbufs ctx) buf_uop view) in
  o <- uval view ;;
  let ctx2 := if Ops_eqb (op o) ASSIGN
              then set_assigns ctx1 (set_add buf_uop (assigns ctx1)) else ctx1 in
  ch <- link_children (children ctx2) buf_uop (src (uop_base o)) ;;
  Ok (set_children ctx2 ch, refs ++ [(uop_buffer buf_uop, 1%Z)]).

(** [create_ctx]: the rule never rewrites, it only fills the context. *)
Definition create_ctx : list (rule (ScheduleContext * RefCalls)) :=
  [ (fun st view =>
       match view with
       | mkUOp VIEW _ [buf_uop; _] _ =>
           if Ops_eqb (op buf_uop) BUFFER
           then st' <- append_uop (fst st) (snd st) view buf_uop ;; Ok (None, st')
           else Ok (None, st)
       | _ => Ok (None, st)
       end) ].

(** [create_ctx] tried on the nodes [us] one after the other, as the
    rewrite of line 535 reaches them. *)
Fixpoint create_ctx_over (st : ScheduleContext * RefCalls) (us : list UOp)
  : result (ScheduleContext * RefCalls) :=
  match us with
  | [] => Ok st
  | u :: rest => r <- pm_rewrite create_ctx st u ;; create_ctx_over (snd r) rest
  end.

End CreateCtx.

Section CreateCtx_facts.
Context `{UA : UOpAPI}.

(** Every child recorded in [children] is a buffer registered in
    [allbufs]: the lookups [allbufs[tr_next]] for [tr_next] in
    [children[tr]] of the grouping pass find their key. *)
Definition children_registered (ctx : ScheduleContext) : Prop :=
  forall k inner c, dget UOp_eq_dec (children ctx) k = Some inner ->
    In c (dkeys inner) -> In c (dkeys (allbufs ctx)).

Lemma dkeys_dset_In {V : Type} (d : dict UOp V) (k : UOp) (v : V) (c : UOp) :
  In c (dkeys (dset UOp_eq_dec d k v)) <-> c = k \/ In c (dkeys d).
Proof.
  rewrite dkeys_dset. unfold dmem. destruct (dget UOp_eq_dec d k) as [v0|] eqn:E.
  - split; [intros H; right; exact H|]. intros [->|H]; [|exact H].
    destruct (in_dec UOp_eq_dec k (dkeys d)) as [Hin|Hnin]; [exact Hin|].
    apply (proj2 (dget_None_keys UOp_eq_dec d k)) in Hnin. congruence.
  - rewrite in_app_iff. simpl. split.
    + intros [H|[<-|[]]]; [right; exact H | left; reflexivity].
    + intros [->|H]; [right; left; reflexivity | left; exact H].
Qed.

Lemma add_child_get (ch : dict UOp (dict UOp unit)) (k b k' : UOp) (inner : dict UOp unit) :
  dget UOp_eq_dec (add_child ch k b) k' = Some inner ->
  (k' = k /\ forall c, In c (dkeys inner) <->
               c = b \/ exists old, dget UOp_eq_dec ch k = Some old /\ In c (dkeys old)) \/
  (k' <> k /\ dget UOp_eq_dec ch k' = Some inner).
Proof.
  unfold add_child. intros H. destruct (UOp_eq_dec k' k) as [->|N].
  - left. split; [reflexivity|]. rewrite dget_dset_same in H. inversion H; subst; clear H.
    intros c. rewrite dkeys_dset_In.
    destruct (dget UOp_eq_dec ch k) as [old|].
    + split; intros [Hc|Hc]; auto.
      * right. exists old. auto.
      * destruct Hc as (old' & E & Hc). inversion E; subst. right; exact Hc.
    + split; intros [Hc|Hc]; auto; [contradiction|].
      destruct Hc as (old' & E & _). discriminate.
  - right. split; [exact N|]. rewrite dget_dset_other in H by exact N. exact H.
Qed.

(** The loop over the sources only ever adds [buf_uop] as a child. *)
Lemma link_children_children (S : list UOp) (buf_uop : UOp) (xs : list UOp) :
  In buf_uop S ->
  forall ch ch',
  link_children ch buf_uop xs = Ok ch' ->
  (forall k inner c, dget UOp_eq_dec ch k = Some inner -> In c (dkeys inner) -> In c S) ->
  (forall k inner c, dget UOp_eq_dec ch' k = Some inner -> In c (dkeys inner) -> In c S).
Proof.
  intros Hb. induction xs as [|x xs IH]; intros ch ch' H Hch; simpl in H.
  - inversion H; subst. exact Hch.
  - destruct (is_scheduled (uop_base x)).
    + destruct (uop_buf_uop (uop_base x)) as [k0|e]; cbn [rbind] in H; [|discriminate].
      apply (IH _ _ H). intros k inner c Hk Hc.
      destruct (add_child_get _ _ _ _ Hk) as [[-> Hin]|[N Hk']].
      * apply Hin in Hc. destruct Hc as [->|(old & Hold & Hc)]; [exact Hb|].
        apply (Hch k0 old c Hold Hc).
      * apply (Hch k inner c Hk' Hc).
    + apply (IH _ _ H Hch).
Qed.

Lemma append_uop_registered (ctx ctx' : ScheduleContext) (refs refs' : RefCalls)
  (view buf_uop : UOp) :
  append_uop ctx refs view buf_uop = Ok (ctx', refs') ->
  children_registered ctx ->
  children_registered ctx' /\
  (forall k, In k (dkeys (allbufs ctx)) -> In k (dkeys (allbufs ctx'))) /\
  In buf_uop (dkeys (allbufs ctx')) /\
  refs' = refs ++ [(uop_buffer buf_uop, 1%Z)].
Proof.
  unfold append_uop. intros H Hreg.
  destruct (uval view) as [o|e]; cbn [rbind] in H; [|discriminate].
  set (ctx1 := set_allbufs ctx (dset UOp_eq_dec (allbufs ctx) buf_uop view)) in *.
  set (ctx2 := if Ops_eqb (op o) ASSIGN
               then set_assigns ctx1 (set_add buf_uop (assigns ctx1)) else ctx1) in *.
  assert (E2 : children ctx2 = children ctx /\
               allbufs ctx2 = dset UOp_eq_dec (allbufs ctx) buf_uop view).
  { unfold ctx2, ctx1. destruct (Ops_eqb (op o) ASSIGN); split; reflexivity. }
  destruct E2 as [Ech Eab].
  destruct (link_children (children ctx2) buf_uop (src (uop_base o))) as [ch|e] eqn:El;
    cbn [rbind] in H; [|discriminate].
  inversion H; subst; clear H.
  unfold children_registered. cbn [children allbufs set_children]. rewrite Eab.
  split; [|split; [|split; [|reflexivity]]].
  - apply (@link_children_children (dkeys (dset UOp_eq_dec (allbufs ctx) buf_uop view))
             buf_uop (src (uop_base o))) with (ch := children ctx2).
    + apply dkeys_dset_In. left; reflexivity.
    + exact El.
    + rewrite Ech. intros k inner c Hk Hc. apply dkeys_dset_In. right.
      apply (Hreg k inner c Hk Hc).
  - intros k Hk. apply dkeys_dset_In. right; exact Hk.
  - apply dkeys_dset_In. left; reflexivity.
Qed.

(** [create_ctx] fires on the nodes that [is_scheduled] accepts. *)
Lemma create_ctx_step (st : ScheduleContext * RefCalls) (u : UOp) :
  pm_rewrite create_ctx st u =
    if is_scheduled u
    then match src u with
         | buf_uop :: _ => st' <- append_uop (fst st) (snd st) u buf_uop ;; Ok (None, st')
         | [] => Ok (None, st)
         end
    else Ok (None, st).
Proof.
  destruct u as [o d s a]. unfold is_scheduled. cbn [op src].
  destruct o; try reflexivity.
  destruct s as [|b [|x [|y s]]]; try reflexivity.
  cbn [pm_rewrite create_ctx rbind fst snd]. unfold Ops_eqb at 2.
  destruct (Ops_eq_dec VIEW VIEW) as [_|N]; [|congruence].
  cbn [List.length Nat.eqb andb].
  destruct (Ops_eqb (op b) BUFFER); [|reflexivity].
  destruct (append_uop (fst st) (snd st) (mkUOp VIEW d [b; x] a) b) as [st'|e];
    reflexivity.
Qed.

End CreateCtx_facts.

Section CreateCtx_theorems.
Context `{UA : UOpAPI}.

(** The buffer of a scheduled view: its first source. *)
Definition view_buffer (u : UOp) : UOp :=
  match src u with
  | b :: _ => b
  | [] => u
  end.

(** [c] is recorded as a child of [k]. *)
Definition has_child (ch : dict UOp (dict UOp unit)) (k c : UOp) : Prop :=
  exists inner, dget UOp_eq_dec ch k = Some inner /\ In c (dkeys inner).

Lemma add_child_new (ch : dict UOp (dict UOp unit)) (k b : UOp) :
  has_child (add_child ch k b) k b.
Proof.
  unfold has_child, add_child. eexists. split; [apply dget_dset_same|].
  apply dkeys_dset_In. left; reflexivity.
Qed.

Lemma add_child_keeps (ch : dict UOp (dict UOp unit)) (k b k' c : UOp) :
  has_child ch k' c -> has_child (add_child ch k b) k' c.
Proof.
  intros (inner & Hk & Hc). unfold has_child, add_child.
  destruct (UOp_eq_dec k' k) as [->|N].
  - eexists. split; [apply dget_dset_same|]. rewrite Hk.
    apply dkeys_dset_In. right; exact Hc.
  - exists inner. split; [|exact Hc]. rewrite dget_dset_other by exact N. exact Hk.
Qed.

Lemma link_children_grows (b : UOp) (xs : list UOp) : forall ch ch',
  link_children ch b xs = Ok ch' ->
  (forall k c, has_child ch k c -> has_child ch' k c) /\
  (forall x k, In x xs -> is_scheduled (uop_base x) = true ->
     uop_buf_uop (uop_base x) = Ok k -> has_child ch' k b).
Proof.
  induction xs as [|x xs IH]; intros ch ch' H; simpl in H.
  - inversion H; subst. split; [auto | intros x k []].
  - destruct (is_scheduled (uop_base x)) eqn:Es.
    + destruct (uop_buf_uop (uop_base x)) as [k0|e] eqn:Ek; cbn [rbind] in H; [|discriminate].
      destruct (IH _ _ H) as [Hkeep Hnew]. split.
      * intros k c Hc. apply Hkeep. apply add_child_keeps. exact Hc.
      * intros y k [<-|Hy] Hs Hk.
        -- rewrite Ek in Hk. inversion Hk; subst. apply Hkeep. apply add_child_new.
        -- apply (Hnew y k Hy Hs Hk).
    + destruct (IH _ _ H) as [Hkeep Hnew]. split; [exact Hkeep|].
      intros y k [<-|Hy] Hs Hk; [congruence|]. apply (Hnew y k Hy Hs Hk).
Qed.

(** X10.  [create_ctx] over the nodes of a graph (lines 500-506, 535).
    Started from a context in which every recorded child is a registered
    buffer, a run that returns keeps it so: every child in
    [ctx.children] is a key of [ctx.allbufs].  [allbufs] loses no key and
    gains the buffer of every scheduled view that was visited, and
    [buffer.ref(1)] is called exactly once for each visit of a scheduled
    view, on that view's buffer, in visiting order; on every other node
    the rule does nothing. *)
Theorem create_ctx_registers_children (us : list UOp) :
  forall (st st' : ScheduleContext * RefCalls),
  create_ctx_over st us = Ok st' ->
  children_registered (fst st) ->
  children_registered (fst st') /\
  (forall k, In k (dkeys (allbufs (fst st))) -> In k (dkeys (allbufs (fst st')))) /\
  (forall u, In u us -> is_scheduled u = true ->
     In (view_buffer u) (dkeys (allbufs (fst st')))) /\
  snd st' = snd st ++ map (fun u => (uop_buffer (view_buffer u), 1%Z)) (filter is_scheduled us).
Proof.
  induction us as [|u us IH]; intros st st' H Hreg; cbn [create_ctx_over] in H.
  - inversion H; subst. split; [exact Hreg|]. split; [auto|]. split; [intros u []|].
    simpl. rewrite app_nil_r. reflexivity.
  - rewrite create_ctx_step in H. cbn [filter].
    destruct (is_scheduled u) eqn:Es.
    + destruct (src u) as [|b rest] eqn:Esrc.
      { unfold is_scheduled in Es. rewrite Esrc in Es.
        rewrite Bool.andb_false_r in Es. discriminate. }
      destruct (append_uop (fst st) (snd st) u b) as [[c1 r1]|e] eqn:Ea;
        cbn [rbind fst snd] in H; [|discriminate].
      destruct (@append_uop_registered UA _ _ _ _ _ _ Ea Hreg) as (Hreg1 & Hkeys1 & Hb1 & Hrefs1).
      destruct (IH _ _ H Hreg1) as (Hreg' & Hkeys' & Hnew' & Hrefs').
      cbn [fst snd] in *.
      split; [exact Hreg'|]. split; [intros k Hk; apply Hkeys'; apply Hkeys1; exact Hk|]. split.
      * intros v [<-|Hv] Hs.
        -- unfold view_buffer. rewrite Esrc. apply Hkeys'. exact Hb1.
        -- apply (Hnew' v Hv Hs).
      * assert (Evb : view_buffer u = b) by (unfold view_buffer; rewrite Esrc; reflexivity).
        rewrite Hrefs', Hrefs1. cbn [map]. rewrite Evb.
        rewrite <- app_assoc. reflexivity.
    + cbn [rbind fst snd] in H.
      destruct (IH _ _ H Hreg) as (Hreg' & Hkeys' & Hnew' & Hrefs').
      split; [exact Hreg'|]. split; [exact Hkeys'|]. split; [|exact Hrefs'].
      intros v [<-|Hv] Hs; [congruence|]. apply (Hnew' v Hv Hs).
Qed.

(** X11.  One call of [append_uop] (lines 500-505).  When it returns,
    [allbufs] maps the buffer to the view; the buffer is recorded as a
    child of the buffer of every source of its op whose base is a
    scheduled view, and no recorded child is lost; the buffer joins
    [assigns] exactly when the op behind the view ([uval]) is an [ASSIGN];
    the rest of the context is untouched. *)
Theorem append_uop_links_buffer_to_parents
  (ctx ctx' : ScheduleContext) (refs refs' : RefCalls) (view buf_uop o : UOp) :
  append_uop ctx refs view buf_uop = Ok (ctx', refs') ->
  uval view = Ok o ->
  dget UOp_eq_dec (allbufs ctx') buf_uop = Some view /\
  (forall k, k <> buf_uop ->
     dget UOp_eq_dec (allbufs ctx') k = dget UOp_eq_dec (allbufs ctx) k) /\
  (forall x k, In x (src (uop_base o)) -> is_scheduled (uop_base x) = true ->
     uop_buf_uop (uop_base x) = Ok k -> has_child (children ctx') k buf_uop) /\
  (forall k c, has_child (children ctx) k c -> has_child (children ctx') k c) /\
  (forall b, In b (assigns ctx') <-> In b (assigns ctx) \/ (b = buf_uop /\ op o = ASSIGN)) /\
  tensor_uops ctx' = tensor_uops ctx /\ var_vals ctx' = var_vals ctx /\
  realizes ctx' = realizes ctx /\ ops_metadata ctx' = ops_metadata ctx /\
  contiguous ctx' = contiguous ctx /\ becomes_map ctx' = becomes_map ctx.
Proof.
  unfold append_uop. intros H Ho. rewrite Ho in H. cbn [rbind] in H.
  set (ctx1 := set_allbufs ctx (dset UOp_eq_dec (allbufs ctx) buf_uop view)) in *.
  set (ctx2 := if Ops_eqb (op o) ASSIGN
               then set_assigns ctx1 (set_add buf_uop (assigns ctx1)) else ctx1) in *.
  destruct (link_children (children ctx2) buf_uop (src (uop_base o))) as [ch|e] eqn:El;
    cbn [rbind] in H; [|discriminate].
  inversion H; subst; clear H.
  destruct (link_children_grows _ _ _ El) as [Hkeep Hnew].
  assert (E2 : children ctx2 = children ctx /\
               allbufs ctx2 = dset UOp_eq_dec (allbufs ctx) buf_uop view /\
               assigns ctx2 = (if Ops_eqb (op o) ASSIGN
                               then set_add buf_uop (assigns ctx) else assigns ctx) /\
               tensor_uops ctx2 = tensor_uops ctx /\ var_vals ctx2 = var_vals ctx /\
               realizes ctx2 = realizes ctx /\ ops_metadata ctx2 = ops_metadata ctx /\
               contiguous ctx2 = contiguous ctx /\ becomes_map ctx2 = becomes_map ctx).
  { unfold ctx2, ctx1. destruct (Ops_eqb (op o) ASSIGN); repeat split. }
  destruct E2 as (Ech & Eab & Eas & Et & Ev & Er & Em & Ec & Eb).
  unfold set_children.
  cbn [tensor_uops var_vals assigns realizes allbufs ops_metadata contiguous children
       becomes_map].
  rewrite Eab, Eas, Et, Ev, Er, Em, Ec, Eb. rewrite Ech in Hkeep.
  split; [apply dget_dset_same|].
  split; [intros k N; apply dget_dset_other; exact N|].
  split; [exact Hnew|]. split; [exact Hkeep|].
  split; [|repeat split].
  intros b. unfold Ops_eqb, set_add.
  destruct (Ops_eq_dec (op o) ASSIGN) as [E|N].
  - destruct (mem UOp_eq_dec buf_uop (assigns ctx)) eqn:Em'.
    + apply mem_true_iff in Em'. split; [intros Hb; left; exact Hb|].
      intros [Hb|[-> _]]; assumption.
    + rewrite in_app_iff. simpl. split.
      * intros [Hb|[<-|[]]]; [left; exact Hb | right; split; [reflexivity | exact E]].
      * intros [Hb|[-> _]]; [left; exact Hb | right; left; reflexivity].
  - split; [intros Hb; left; exact Hb|]. intros [Hb|[_ E]]; [exact Hb | contradiction].
Qed.

End CreateCtx_theorems.

(** *** The context of a two-buffer graph *)

(** [view_a] is [buf_a] holding an op without sources; [view_b] is [buf_b]
    holding the negation of [view_a]. *)
Definition op_a : UOp := alu EXP2 [].
Definition view_a : UOp := mkUOp VIEW (DScalar float_) [buf_a; op_a] (AST (contig [4%Z])).
Definition op_b : UOp := alu NEG [view_a].
Definition view_b : UOp := mkUOp VIEW (DScalar float_) [buf_b; op_b] (AST (contig [4%Z])).

Definition ctx_two_buffers : ScheduleContext :=
  mkCtx [] [] [] [] [(buf_a, view_a); (buf_b, view_b)] [] [] [(buf_a, [(buf_b, tt)])] [].

Lemma create_ctx_registers_children_witness :
  children_registered ctx_two_buffers /\
  (forall k, In k (dkeys (allbufs empty_ctx)) -> In k (dkeys (allbufs ctx_two_buffers))) /\
  (forall u, In u [buf_a; view_a; buf_b; view_b] -> is_scheduled u = true ->
     In (view_buffer u) (dkeys (allbufs ctx_two_buffers))) /\
  [(uop_buffer buf_a, 1%Z); (uop_buffer buf_b, 1%Z)]
    = [] ++ map (fun u => (uop_buffer (view_buffer u), 1%Z))
              (filter is_scheduled [buf_a; view_a; buf_b; view_b]).
Proof.
  apply (@create_ctx_registers_children ref_UOpAPI [buf_a; view_a; buf_b; view_b]
           (empty_ctx, [])
           (ctx_two_buffers, [(uop_buffer buf_a, 1%Z); (uop_buffer buf_b, 1%Z)])
           eq_refl).
  intros k inner c H. discriminate H.
Defined.

Lemma append_uop_links_buffer_witness :
  has_child [(buf_a, [(buf_b, tt)])] buf_a buf_b.
Proof.
  exact (proj1 (proj2 (proj2
    (@append_uop_links_buffer_to_parents ref_UOpAPI empty_ctx
       (mkCtx [] [] [] [] [(buf_b, view_b)] [] [] [(buf_a, [(buf_b, tt)])] [])
       [] [(uop_buffer buf_b, 1%Z)] view_b buf_b op_b eq_refl eq_refl)))
    view_a buf_a (or_introl eq_refl) eq_refl eq_refl).
Defined.

(** ** The lowering rules [to_si] (lines 178-203) *)

(** [st.simplify()] and [st.unbind()] of tinygrad.shape.shapetracker;
    [unbind] gives the tracker without bound variables and the values
    the variables were bound to. *)
Class SimplifyAPI : Type := {
  st_simplify : ShapeTracker -> ShapeTracker;
  st_unbind : ShapeTracker -> ShapeTracker * dict UOp ConstType
}.

(** [d.update(other)] *)
Definition dupdate (d other : dict UOp ConstType) : dict UOp ConstType :=
  fold_left (fun acc kv => dset UOp_eq_dec acc (fst kv) (snd kv)) other d.

Section ToSIRules.
Context `{SA : ShapeAPI} `{UA : UOpAPI} `{SI : SimplifyAPI}.

(** [_append_st_vars] *)
Definition _append_st_vars (ctx : ScheduleItemContext) (x : UOp)
  : result (option UOp * ScheduleItemContext) :=
  st <- unwrap (uop_st x) ;;
  if mem ShapeTracker_eq_dec st (sic_sts ctx) then Ok (None, ctx) else
  let st' := fst (st_unbind (st_simplify st)) in
  let vv := snd (st_unbind (st_simplify st)) in
  let ctx' := mkSIC (dupdate (sic_var_vals ctx) vv)
                (if mem ShapeTracker_eq_dec st' (sic_sts ctx)
                 then sic_sts ctx else sic_sts ctx ++ [st'])
                (sic_bufs ctx) in
  Ok (if ShapeTracker_eq_dec st' st then None else Some (st_to_uop st'), ctx').

(** [to_si] *)
Definition to_si : list (rule ScheduleItemContext) :=
  [ (* BUFFER -> DEFINE_GLOBAL *)
    (fun ctx x =>
       if Ops_eqb (op x) BUFFER
       then r <- _append_buf ctx x ;; Ok (Some (fst r), snd r)
       else Ok (None, ctx));
    (* simplify and unbind the final VIEWs *)
    (fun ctx x =>
       if Ops_eqb (op x) VIEW then _append_st_vars ctx x else Ok (None, ctx));
    (* don't need SINK on COPY or BUFFER_VIEW *)
    (fun ctx u =>
       match u with
       | mkUOp SINK _ [mkUOp STORE (DScalar void) [b; _; x] _] _ =>
           if Ops_eqb (op x) COPY || Ops_eqb (op x) BUFFER_VIEW
           then Ok (Some (mkUOp (op x) (dtype x) (b :: src x) (arg x)), ctx)
           else Ok (None, ctx)
       | _ => Ok (None, ctx)
       end);
    (* don't need contiguous or assign anymore *)
    (fun ctx u =>
       match u with
       | mkUOp CONTIGUOUS _ [x] _ => Ok (Some x, ctx)
       | _ => Ok (None, ctx)
       end);
    (fun ctx u =>
       match u with
       | mkUOp ASSIGN _ [_; x] _ => Ok (Some x, ctx)
       | _ => Ok (None, ctx)
       end);
    (* PRELOAD becomes LOAD *)
    (fun ctx root =>
       if Ops_eqb (op root) PRELOAD
       then Ok (Some (mkUOp LOAD (dtype root) (src root) (arg root)), ctx)
       else Ok (None, ctx));
    (* once images are loaded they become the base dtype *)
    (fun ctx x =>
       if Ops_eqb (op x) DEFINE_GLOBAL then Ok (None, ctx) else
       match dtype x with
       | DImage _ _ => Ok (Some (mkUOp (op x) (dtype_base (dtype x)) (src x) (arg x)), ctx)
       | _ => Ok (None, ctx)
       end) ].

End ToSIRules.

Section PatternMatcher_facts.
Variable C : Type.

(** What every rule of a matcher keeps, the matcher keeps. *)
Lemma pm_rewrite_keeps (Q : C -> C -> Prop) (u : UOp) (rules : list (rule C)) :
  (forall c, Q c c) ->
  (forall c1 c2 c3, Q c1 c2 -> Q c2 c3 -> Q c1 c3) ->
  Forall (fun r : rule C => forall c res c', r c u = Ok (res, c') -> Q c c') rules ->
  forall c res c', pm_rewrite rules c u = Ok (res, c') -> Q c c'.
Proof.
  intros Hrefl Htrans Hall. induction Hall as [|r rules Hr _ IH]; intros c res c' H.
  - simpl in H. inversion H; subst. apply Hrefl.
  - cbn [pm_rewrite] in H.
    destruct (r c u) as [[res1 c1]|e] eqn:E; cbn [rbind fst snd] in H; [|discriminate].
    destruct res1 as [v|].
    + inversion H; subst. apply (Hr _ _ _ E).
    + apply (Htrans c c1 c'); [apply (Hr _ _ _ E) | apply (IH _ _ _ H)].
Qed.

End PatternMatcher_facts.

(** A rule that only looks at the node: every branch hands the context
    back. *)
Ltac rule_unchanged H :=
  repeat match type of H with
         | context [match ?t with _ => _ end] => destruct t
         end;
  inversion H; reflexivity.

Section ToSIRules_facts.
Context `{SA : ShapeAPI} `{UA : UOpAPI} `{SI : SimplifyAPI}.

Lemma append_st_vars_bufs (ctx ctx' : ScheduleItemContext) (x : UOp) (r : option UOp) :
  _append_st_vars ctx x = Ok (r, ctx') -> sic_bufs ctx' = sic_bufs ctx.
Proof.
  unfold _append_st_vars. intros H.
  destruct (unwrap (uop_st x)) as [st|e]; cbn [rbind] in H; [|discriminate].
  destruct (mem ShapeTracker_eq_dec st (sic_sts ctx)); inversion H; reflexivity.
Qed.

(** X12.  What the lowering rules [to_si] do to their context.  A call that
    returns has appended the node to [ctx.bufs] when the node is a
    [BUFFER], and has left [ctx.bufs] as it was on every other node;
    [var_vals] and the set of seen trackers change on a [VIEW] only.  A
    [PRELOAD] becomes a [LOAD] with the same dtype, sources and arg; a
    [DEFINE_GLOBAL] is never rewritten. *)
Theorem to_si_appends_only_buffers
  (ctx ctx' : ScheduleItemContext) (u : UOp) (r : option UOp) :
  pm_rewrite to_si ctx u = Ok (r, ctx') ->
  sic_bufs ctx' = sic_bufs ctx ++ (if Ops_eqb (op u) BUFFER then [u] else []) /\
  (op u <> VIEW -> sic_var_vals ctx' = sic_var_vals ctx /\ sic_sts ctx' = sic_sts ctx) /\
  (op u = PRELOAD -> r = Some (mkUOp LOAD (dtype u) (src u) (arg u)) /\ ctx' = ctx) /\
  (op u = DEFINE_GLOBAL -> r = None /\ ctx' = ctx).
Proof.
  intros H.
  destruct (Ops_eqb (op u) BUFFER) eqn:Eb.
  - (* the first rule answers *)
    cbn [pm_rewrite to_si] in H. rewrite Eb in H. unfold _append_buf in H.
    destruct (uop_size u) as [sz|e]; cbn [rbind fst snd] in H; [|discriminate].
    inversion H; subst; clear H. cbn [sic_bufs sic_var_vals sic_sts].
    unfold Ops_eqb in Eb. destruct (Ops_eq_dec (op u) BUFFER) as [E|N]; [|discriminate].
    split; [reflexivity|]. split; [intros _; split; reflexivity|].
    split; intros E'; congruence.
  - assert (HQ : sic_bufs ctx' = sic_bufs ctx /\
                 (op u <> VIEW ->
                  sic_var_vals ctx' = sic_var_vals ctx /\ sic_sts ctx' = sic_sts ctx)).
    { revert H.
      apply (@pm_rewrite_keeps ScheduleItemContext
               (fun c c' => sic_bufs c' = sic_bufs c /\
                  (op u <> VIEW ->
                   sic_var_vals c' = sic_var_vals c /\ sic_sts c' = sic_sts c)) u to_si).
      - intros c. split; [reflexivity | intros _; split; reflexivity].
      - intros c1 c2 c3 [B1 V1] [B2 V2]. split; [congruence|].
        intros N. destruct (V1 N), (V2 N). split; congruence.
      - assert (Hid : forall c c' : ScheduleItemContext, c' = c ->
                  sic_bufs c' = sic_bufs c /\
                  (op u <> VIEW ->
                   sic_var_vals c' = sic_var_vals c /\ sic_sts c' = sic_sts c)).
        { intros c c' ->. split; [reflexivity | intros _; split; reflexivity]. }
        unfold to_si. repeat (apply Forall_cons; [intros c res c' Hr|]); [| | | | | | |constructor].
        + rewrite Eb in Hr. inversion Hr. apply Hid. reflexivity.
        + unfold Ops_eqb in Hr. destruct (Ops_eq_dec (op u) VIEW) as [E|N].
          * split; [apply (append_st_vars_bufs _ _ Hr) | intros N; contradiction].
          * inversion Hr. apply Hid. reflexivity.
        + apply Hid. destruct u as [o d s a]. rule_unchanged Hr.
        + apply Hid. destruct u as [o d s a]. rule_unchanged Hr.
        + apply Hid. destruct u as [o d s a]. rule_unchanged Hr.
        + apply Hid. rule_unchanged Hr.
        + apply Hid. rule_unchanged Hr. }
    destruct HQ as [HB HV].
    split; [rewrite HB, app_nil_r; reflexivity|]. split; [exact HV|].
    destruct u as [o d s a]. cbn [op dtype src arg] in *. split; intros ->.
    + cbn in H. inversion H; subst. split; reflexivity.
    + cbn in H. inversion H; subst. split; reflexivity.
Qed.

(** X13.  [_append_st_vars] answers once per view (lines 178-183).  Let
    the tracker of [st.to_uop()] be [st].  After a call that returns,
    take the node the rewrite goes on with: the new view when there is
    one, the old view otherwise.  On that node the rule answers [None]
    and leaves the context as it is, so the rewrite does not loop on it.
    The call itself never changes [ctx.bufs] and forgets no tracker. *)
Theorem append_st_vars_answers_once
  (ctx ctx' : ScheduleItemContext) (x : UOp) (r : option UOp) :
  (forall s, uop_st (st_to_uop s) = Some s) ->
  _append_st_vars ctx x = Ok (r, ctx') ->
  _append_st_vars ctx' (match r with Some v => v | None => x end) = Ok (None, ctx') /\
  sic_bufs ctx' = sic_bufs ctx /\
  incl (sic_sts ctx) (sic_sts ctx').
Proof.
  intros Hst H. pose proof (append_st_vars_bufs _ _ H) as HB.
  split; [|split; [exact HB|]]; unfold _append_st_vars in *.
  - destruct (uop_st x) as [st|] eqn:Ex; cbn [unwrap rbind] in H; [|discriminate].
    destruct (mem ShapeTracker_eq_dec st (sic_sts ctx)) eqn:Em.
    + inversion H; subst. rewrite Ex. cbn [unwrap rbind]. rewrite Em. reflexivity.
    + set (st' := fst (st_unbind (st_simplify st))) in *.
      assert (Hin : mem ShapeTracker_eq_dec st'
                      (if mem ShapeTracker_eq_dec st' (sic_sts ctx)
                       then sic_sts ctx else sic_sts ctx ++ [st']) = true).
      { destruct (mem ShapeTracker_eq_dec st' (sic_sts ctx)) eqn:E'; [exact E'|].
        apply mem_true_iff. apply in_or_app. right. left. reflexivity. }
      destruct (ShapeTracker_eq_dec st' st) as [E|N]; inversion H; subst r ctx'; clear H.
      * rewrite Ex. cbn [unwrap rbind sic_sts]. rewrite <- E at 1. rewrite Hin. reflexivity.
      * rewrite Hst. cbn [unwrap rbind sic_sts]. rewrite Hin. reflexivity.
  - destruct (uop_st x) as [st|] eqn:Ex; cbn [unwrap rbind] in H; [|discriminate].
    destruct (mem ShapeTracker_eq_dec st (sic_sts ctx)) eqn:Em.
    + inversion H; subst. intros y Hy; exact Hy.
    + inversion H; subst; clear H. cbn [sic_sts].
      destruct (mem ShapeTracker_eq_dec (fst (st_unbind (st_simplify st))) (sic_sts ctx));
        intros y Hy; [exact Hy|].
      apply in_or_app. left; exact Hy.
Qed.

End ToSIRules_facts.

(** ** The buffers of an item and the [DEFINE_GLOBAL] nodes of its ast
    (lines 185-187, 212 and 231) *)




Section ItemBufs.
Context `{SA : ShapeAPI} `{UA : UOpAPI} `{SI : SimplifyAPI}.
Variable rewrite_views : UOp -> dict UOp UOp -> result UOp.
Variable lower_to_si : UOp -> ScheduleItemContext -> result (UOp * ScheduleItemContext).
Variable toposort : UOp -> list UOp.





End ItemBufs.

(** *** The lowering rules on concrete nodes *)

(** The trackers of the examples are simple and bind no variable. *)
#[export] Instance ref_SimplifyAPI : SimplifyAPI := {|
  st_simplify := fun st => st;
  st_unbind := fun st => (st, [])
|}.

Lemma to_si_appends_only_buffers_witness :
  sic_bufs (mkSIC [] [] [buf_b; buf_a])
    = sic_bufs (mkSIC [] [] [buf_b]) ++ (if Ops_eqb (op buf_a) BUFFER then [buf_a] else []).
Proof.
  exact (proj1 (@to_si_appends_only_buffers ref_ShapeAPI ref_UOpAPI ref_SimplifyAPI
                  (mkSIC [] [] [buf_b]) (mkSIC [] [] [buf_b; buf_a]) buf_a
                  (Some (dglobal 1 4)) eq_refl)).
Defined.

Lemma append_st_vars_answers_once_witness :
  _append_st_vars (mkSIC [] [contig [4%Z]] []) (view_of (contig [4%Z]))
    = Ok (None, mkSIC [] [contig [4%Z]] []).
Proof.
  exact (proj1 (@append_st_vars_answers_once ref_ShapeAPI ref_UOpAPI ref_SimplifyAPI
                  (mkSIC [] [] []) (mkSIC [] [contig [4%Z]] []) (view_of (contig [4%Z])) None
                  (fun s => eq_refl) eq_refl)).
Defined.


(** *** The buffers of a lowered kernel *)








(** ** Grouping the realized buffers into kernels (lines 336-339) *)

(** [reduce_for_op.get(ubuf, ubuf)] *)
Definition group_key (reduce_for_op : dict UOp UOp) (ubuf : UOp) : UOp :=
  match dget UOp_eq_dec reduce_for_op ubuf with
  | Some r => r
  | None => ubuf
  end.

(** [output_groups[k].append(ubuf)] on a [defaultdict(list)] *)
Definition group_append (og : dict UOp (list UOp)) (k ubuf : UOp) : dict UOp (list UOp) :=
  dset UOp_eq_dec og k
    (match dget UOp_eq_dec og k with Some l => l | None => [] end ++ [ubuf]).

(** The last three lines of [group_realizes]: the loop over [ctx.realizes]
    and [list(output_groups.values())]. *)
Definition output_groups (realizes reduce_for_op : dict UOp UOp) : list (list UOp) :=
  map snd (fold_left (fun og ubuf => group_append og (group_key reduce_for_op ubuf) ubuf)
             (dkeys realizes) []).

Section OutputGroups_facts.
Variable key : UOp -> UOp.

(** What the loop keeps: [og] is a dictionary, its lists hold the buffers
    seen so far, none of them is empty, and a list holds buffers of its
    own key only. *)
Record groups_inv (og : dict UOp (list UOp)) (seen : list UOp) : Prop := mk_groups_inv {
  gi_wf : dict_wf og;
  gi_perm : Permutation (List.concat (map snd og)) seen;
  gi_key : forall k l, dget UOp_eq_dec og k = Some l ->
             l <> [] /\ forall b, In b l -> key b = k
}.

Lemma In_dget {V : Type} (d : dict UOp V) (k : UOp) (v : V) :
  dict_wf d -> In (k, v) d -> dget UOp_eq_dec d k = Some v.
Proof.
  unfold dict_wf. induction d as [|[k0 v0] d IH]; simpl; [intros _ []|].
  intros ND [E|Hin].
  - inversion E; subst. destruct (UOp_eq_dec k k); congruence.
  - inversion ND as [|? ? Hn ND']; subst.
    destruct (UOp_eq_dec k k0) as [->|N].
    + exfalso. apply Hn. change (In (fst (k0, v)) (map fst d)). apply in_map. exact Hin.
    + apply IH; assumption.
Qed.

Lemma group_append_concat (og : dict UOp (list UOp)) (k x : UOp) :
  Permutation (List.concat (map snd (group_append og k x))) (x :: List.concat (map snd og)).
Proof.
  unfold group_append. induction og as [|[k0 v0] d IH]; simpl.
  - constructor. constructor.
  - destruct (UOp_eq_dec k k0) as [->|N]; simpl.
    + rewrite <- app_assoc. simpl. symmetry. apply Permutation_middle.
    + etransitivity; [apply Permutation_app_head; exact IH|].
      symmetry. apply Permutation_middle.
Qed.

Lemma groups_inv_step (og : dict UOp (list UOp)) (seen : list UOp) (x : UOp) :
  groups_inv og seen -> groups_inv (group_append og (key x) x) (seen ++ [x]).
Proof.
  intros [Hwf Hperm Hkey]. constructor.
  - apply dict_wf_dset. exact Hwf.
  - etransitivity; [apply group_append_concat|].
    etransitivity; [apply perm_skip; exact Hperm|]. apply Permutation_cons_append.
  - intros k l Hl. unfold group_append in Hl.
    destruct (UOp_eq_dec k (key x)) as [->|N].
    + rewrite dget_dset_same in Hl. inversion Hl; subst; clear Hl. split.
      * intros E. apply app_eq_nil in E. destruct E as [_ E]. discriminate.
      * intros b Hb. apply in_app_or in Hb. destruct Hb as [Hb|[<-|[]]]; [|reflexivity].
        destruct (dget UOp_eq_dec og (key x)) as [old|] eqn:Eo; [|contradiction].
        apply (proj2 (Hkey _ _ Eo) b Hb).
    + rewrite dget_dset_other in Hl by exact N. apply (Hkey _ _ Hl).
Qed.

Lemma groups_inv_fold (l : list UOp) : forall og seen,
  groups_inv og seen ->
  groups_inv (fold_left (fun og ubuf => group_append og (key ubuf) ubuf) l og) (seen ++ l).
Proof.
  induction l as [|x l IH]; intros og seen H; simpl.
  - rewrite app_nil_r. exact H.
  - replace (seen ++ x :: l) with ((seen ++ [x]) ++ l) by (rewrite <- app_assoc; reflexivity).
    apply IH. apply groups_inv_step. exact H.
Qed.

End OutputGroups_facts.

(** X14.  The kernel groups of [group_realizes] (lines 336-339).  The
    groups returned split the realized buffers: put one after the other
    they are a rearrangement of the keys of [ctx.realizes], so every
    realized buffer is in exactly one group; no group is empty; the
    buffers of one group have the same key [reduce_for_op.get(b, b)], and
    two groups never share a key. *)
Theorem output_groups_partition_realizes (realizes reduce_for_op : dict UOp UOp) :
  let groups := output_groups realizes reduce_for_op in
  Permutation (List.concat groups) (dkeys realizes) /\
  (forall g, In g groups -> g <> []) /\
  (forall g b b', In g groups -> In b g -> In b' g ->
     group_key reduce_for_op b = group_key reduce_for_op b') /\
  (forall g g' b b', In g groups -> In g' groups -> In b g -> In b' g' ->
     group_key reduce_for_op b = group_key reduce_for_op b' -> g = g').
Proof.
  intros groups.
  assert (Hinv : groups_inv (group_key reduce_for_op)
                   (fold_left (fun og ubuf =>
                      group_append og (group_key reduce_for_op ubuf) ubuf)
                      (dkeys realizes) []) ([] ++ dkeys realizes)).
  { apply groups_inv_fold. constructor.
    - constructor.
    - constructor.
    - intros k l H. discriminate H. }
  destruct Hinv as [Hwf Hperm Hkey]. simpl in Hperm.
  assert (Hg : forall g, In g groups -> exists k,
            dget UOp_eq_dec (fold_left (fun og ubuf =>
                      group_append og (group_key reduce_for_op ubuf) ubuf)
                      (dkeys realizes) []) k = Some g).
  { intros g Hin. unfold groups, output_groups in Hin. apply in_map_iff in Hin.
    destruct Hin as ([k g0] & <- & Hin). exists k. apply In_dget; assumption. }
  split; [exact Hperm|]. split; [|split].
  - intros g Hin. destruct (Hg g Hin) as [k Hk]. apply (Hkey _ _ Hk).
  - intros g b b' Hin Hb Hb'. destruct (Hg g Hin) as [k Hk].
    destruct (Hkey _ _ Hk) as [_ Hm]. rewrite (Hm b Hb), (Hm b' Hb'). reflexivity.
  - intros g g' b b' Hin Hin' Hb Hb' E.
    destruct (Hg g Hin) as [k Hk]. destruct (Hg g' Hin') as [k' Hk'].
    destruct (Hkey _ _ Hk) as [_ Hm]. destruct (Hkey _ _ Hk') as [_ Hm'].
    rewrite (Hm b Hb), (Hm' b' Hb') in E. subst k'. congruence.
Qed.

(** ** The search for groupable children: [recursive_group] (lines 247-263) *)

(** [st.size] and [st1 + st2] of tinygrad.shape.shapetracker. *)
Class TrackerOpsAPI : Type := {
  st_size : ShapeTracker -> Z;
  st_add : ShapeTracker -> ShapeTracker -> ShapeTracker
}.

(** The three objects [recursive_group] writes to: [children] (a
    [defaultdict], which gains an empty entry when a missing key is read),
    [group] and [cache]. *)
Record GroupState : Type := mkGS {
  gs_children : dict UOp (dict UOp unit);
  gs_group : dict UOp unit;
  gs_cache : list (UOp * ShapeTracker)
}.

Definition tracked_eq_dec (x y : UOp * ShapeTracker) : {x = y} + {x <> y}.
Proof. decide equality; [apply ShapeTracker_eq_dec | apply UOp_eq_dec]. Defined.

(** [group.setdefault(b)] *)
Definition group_add (s : GroupState) (b : UOp) : GroupState :=
  mkGS (gs_children s) (dset UOp_eq_dec (gs_group s) b tt) (gs_cache s).

Section RecursiveGroup.
Context `{SA : ShapeAPI} `{UA : UOpAPI} `{TA : TrackerOpsAPI}.

(** [dedup(unwrap(x.st) for x in xs if is_scheduled(x.base) and
    x.base.buf_uop == tr)], before the [dedup]. *)
Fixpoint st_childs_of (tr : UOp) (xs : list UOp) : result (list ShapeTracker) :=
  match xs with
  | [] => Ok []
  | x :: rest =>
      if is_scheduled (uop_base x) then
        k <- uop_buf_uop (uop_base x) ;;
        if UOp_eq_dec k tr
        then st <- unwrap (uop_st x) ;; sts <- st_childs_of tr rest ;; Ok (st :: sts)
        else st_childs_of tr rest
      else st_childs_of tr rest
  end.

(** The loop [for tr_next in children[tr]] of [recursive_group]; [rec] is
    the recursive call. *)
Fixpoint group_children
  (rec : UOp -> ShapeTracker -> GroupState -> option (result GroupState))
  (allbufs : dict UOp UOp) (r tr : UOp) (st : ShapeTracker)
  (cs : list UOp) (s : GroupState) {struct cs} : option (result GroupState) :=
  match cs with
  | [] => Some (Ok s)
  | tr_next :: cs' =>
      match (v <- dgetitem UOp_eq_dec allbufs tr_next ;;
             o <- uval v ;; Ok (uop_base o)) with
      | Err e => Some (Err e)
      | Ok tr_next_uop =>
          (* max one reduceop per kernel *)
          if Ops_eqb (op tr_next_uop) REDUCE_AXIS then Some (Ok (group_add s r))
          else
            match st_childs_of tr (src tr_next_uop) with
            | Err e => Some (Err e)
            | Ok sts =>
                (* can only fuse contiguous *)
                match dedup ShapeTracker_eq_dec sts with
                | _ :: _ :: _ => Some (Ok (group_add s r))
                | [] => Some (Err IndexError)
                | [c0] =>
                    match rec tr_next (st_add st c0) s with
                    | Some (Ok s') => group_children rec allbufs r tr st cs' s'
                    | other => other
                    end
                end
            end
      end
  end.

(** [children[tr]] on the [defaultdict]: the entry, and the dictionary
    with the entry made when it was missing. *)
Definition children_of (s : GroupState) (tr : UOp) : dict UOp unit * GroupState :=
  match dget UOp_eq_dec (gs_children s) tr with
  | Some d => (d, s)
  | None => ([], mkGS (dset UOp_eq_dec (gs_children s) tr []) (gs_group s) (gs_cache s))
  end.

(** [recursive_group]; [None] when the recursion is deeper than [fuel]. *)
Fixpoint recursive_group (fuel : nat) (allbufs realizes reduce_for_op : dict UOp UOp)
  (r tr : UOp) (st : ShapeTracker) (s : GroupState) {struct fuel}
  : option (result GroupState) :=
  match fuel with
  | O => None
  | S f =>
      if mem tracked_eq_dec (tr, st) (gs_cache s) then Some (Ok s) else
      let s1 := mkGS (gs_children s) (gs_group s) (gs_cache s ++ [(tr, st)]) in
      match (rv <- dgetitem UOp_eq_dec allbufs r ;;
             rst <- unwrap (uop_st rv) ;; Ok (st_size rst)) with
      | Err e => Some (Err e)
      | Ok rsize =>
          if dmem UOp_eq_dec realizes tr && (if UOp_eq_dec tr r then false else true) then
            (* can only fuse contiguous; max one reduceop per kernel *)
            let s2 := if negb (st_contiguous st) || negb (Z.eqb (st_size st) rsize)
                         || dmem UOp_eq_dec reduce_for_op tr
                      then group_add s1 r else s1 in
            Some (Ok (group_add s2 tr))
          else
            group_children (recursive_group f allbufs realizes reduce_for_op r)
              allbufs r tr st (dkeys (fst (children_of s1 tr))) (snd (children_of s1 tr))
      end
  end.

End RecursiveGroup.

Section RecursiveGroup_facts.
Context `{SA : ShapeAPI} `{UA : UOpAPI} `{TA : TrackerOpsAPI}.
Variables allbufs realizes reduce_for_op : dict UOp UOp.
Variable r : UOp.

(** From [s] to [s'] the group gained only [r] or realized buffers other
    than [r], nothing left the group or the cache, and [children] records
    the same children. *)
Definition group_grows (s s' : GroupState) : Prop :=
  (forall b, In b (dkeys (gs_group s')) ->
     In b (dkeys (gs_group s)) \/ b = r \/ (dmem UOp_eq_dec realizes b = true /\ b <> r)) /\
  incl (dkeys (gs_group s)) (dkeys (gs_group s')) /\
  incl (gs_cache s) (gs_cache s') /\
  (forall k c, has_child (gs_children s') k c <-> has_child (gs_children s) k c).

Lemma group_grows_refl (s : GroupState) : group_grows s s.
Proof.
  split; [intros b Hb; left; exact Hb|]. split; [intros b Hb; exact Hb|].
  split; [intros b Hb; exact Hb | intros k c; reflexivity].
Qed.

Lemma group_grows_trans (s1 s2 s3 : GroupState) :
  group_grows s1 s2 -> group_grows s2 s3 -> group_grows s1 s3.
Proof.
  intros (A1 & B1 & C1 & D1) (A2 & B2 & C2 & D2).
  split; [|split; [|split]].
  - intros b Hb. destruct (A2 b Hb) as [H|H]; [apply A1; exact H | right; exact H].
  - intros b Hb. apply B2, B1, Hb.
  - intros b Hb. apply C2, C1, Hb.
  - intros k c. rewrite D2. apply D1.
Qed.

Lemma group_add_grows (s : GroupState) (b : UOp) :
  b = r \/ (dmem UOp_eq_dec realizes b = true /\ b <> r) -> group_grows s (group_add s b).
Proof.
  intros Hb. unfold group_add.
  split; [|split; [|split]]; cbn [gs_group gs_cache gs_children].
  - intros c Hc. apply dkeys_dset_In in Hc. destruct Hc as [->|Hc]; [right; exact Hb|].
    left; exact Hc.
  - intros c Hc. apply dkeys_dset_In. right; exact Hc.
  - intros c Hc; exact Hc.
  - intros k c; reflexivity.
Qed.

Lemma children_of_grows (s : GroupState) (tr : UOp) :
  group_grows s (snd (children_of s tr)).
Proof.
  unfold children_of. destruct (dget UOp_eq_dec (gs_children s) tr) as [d|] eqn:E;
    cbn [snd]; [apply group_grows_refl|].
  split; [intros b Hb; left; exact Hb|]. split; [intros b Hb; exact Hb|].
  split; [intros b Hb; exact Hb|]. cbn [gs_children].
  intros k c. unfold has_child. split.
  - intros (inner & Hk & Hc). destruct (UOp_eq_dec k tr) as [->|N].
    + rewrite dget_dset_same in Hk. inversion Hk; subst. contradiction.
    + rewrite dget_dset_other in Hk by exact N. exists inner. auto.
  - intros (inner & Hk & Hc). destruct (UOp_eq_dec k tr) as [->|N]; [congruence|].
    exists inner. rewrite dget_dset_other by exact N. auto.
Qed.

Lemma group_children_grows
  (rec : UOp -> ShapeTracker -> GroupState -> option (result GroupState))
  (tr : UOp) (st : ShapeTracker) :
  (forall tn st0 s s', rec tn st0 s = Some (Ok s') -> group_grows s s') ->
  forall cs s s',
  group_children rec allbufs r tr st cs s = Some (Ok s') -> group_grows s s'.
Proof.
  intros Hrec. induction cs as [|tn cs IH]; intros s s' H; cbn [group_children] in H.
  - inversion H; subst. apply group_grows_refl.
  - destruct (v <- dgetitem UOp_eq_dec allbufs tn ;; o <- uval v ;; Ok (uop_base o))
      as [tnu|e]; [|discriminate].
    destruct (Ops_eqb (op tnu) REDUCE_AXIS).
    { inversion H; subst. apply group_add_grows. left; reflexivity. }
    destruct (st_childs_of tr (src tnu)) as [sts|e]; [|discriminate].
    destruct (dedup ShapeTracker_eq_dec sts) as [|c0 [|c1 rest]]; [discriminate| |].
    + destruct (rec tn (st_add st c0) s) as [[s1|e]|] eqn:Er; try discriminate.
      apply (group_grows_trans (Hrec _ _ _ _ Er) (IH _ _ H)).
    + inversion H; subst. apply group_add_grows. left; reflexivity.
Qed.

Lemma recursive_group_grows : forall fuel tr st s s',
  recursive_group fuel allbufs realizes reduce_for_op r tr st s = Some (Ok s') ->
  group_grows s s'.
Proof.
  induction fuel as [|f IH]; intros tr st s s' H; cbn [recursive_group] in H; [discriminate|].
  destruct (mem tracked_eq_dec (tr, st) (gs_cache s)).
  { inversion H; subst. apply group_grows_refl. }
  set (s1 := mkGS (gs_children s) (gs_group s) (gs_cache s ++ [(tr, st)])) in *.
  assert (H1 : group_grows s s1).
  { split; [intros b Hb; left; exact Hb|]. split; [intros b Hb; exact Hb|].
    split; [intros b Hb; apply in_or_app; left; exact Hb | intros k c; reflexivity]. }
  destruct (rv <- dgetitem UOp_eq_dec allbufs r ;; rst <- unwrap (uop_st rv) ;; Ok (st_size rst))
    as [rsize|e]; [|discriminate].
  destruct (dmem UOp_eq_dec realizes tr) eqn:Er; cbn [andb] in H.
  - destruct (UOp_eq_dec tr r) as [E|N].
    + apply (group_grows_trans H1).
      apply (group_grows_trans (children_of_grows s1 tr)).
      apply (@group_children_grows _ tr st IH _ _ _ H).
    + inversion H; subst; clear H. apply (group_grows_trans H1).
      match goal with
      | |- group_grows s1 (group_add ?s2 tr) =>
          apply (@group_grows_trans s1 s2 (group_add s2 tr))
      end.
      * destruct (negb (st_contiguous st) || negb (Z.eqb (st_size st) rsize)
                  || dmem UOp_eq_dec reduce_for_op tr);
          [apply group_add_grows; left; reflexivity | apply group_grows_refl].
      * apply group_add_grows. right. split; assumption.
  - apply (group_grows_trans H1).
    apply (group_grows_trans (children_of_grows s1 tr)).
    apply (@group_children_grows _ tr st IH _ _ _ H).
Qed.

End RecursiveGroup_facts.

Section RecursiveGroup_theorem.
Context `{SA : ShapeAPI} `{UA : UOpAPI} `{TA : TrackerOpsAPI}.

(** X15.  [recursive_group] (lines 247-263).  When a call returns: the
    group has gained nothing but the reduce [r] itself and realized
    buffers other than [r]; nothing has left the group or the cache, and
    [children] records the same children as before.  A pair [(tr, st)]
    met a second time changes nothing.  A pair met the first time is in
    the cache afterwards; if [tr] is a realized buffer other than [r],
    the search stops there with [tr] in the group, and [r] is in the
    group afterwards exactly when it was before, or [st] is not
    contiguous, or its size is not the size of the reduce, or [tr]
    already belongs to another reduce. *)
Theorem recursive_group_adds_only_realized
  (fuel : nat) (allbufs realizes reduce_for_op : dict UOp UOp)
  (r tr : UOp) (st : ShapeTracker) (s s' : GroupState) :
  recursive_group fuel allbufs realizes reduce_for_op r tr st s = Some (Ok s') ->
  group_grows realizes r s s' /\
  (mem tracked_eq_dec (tr, st) (gs_cache s) = true -> s' = s) /\
  (mem tracked_eq_dec (tr, st) (gs_cache s) = false ->
     In (tr, st) (gs_cache s') /\
     (dmem UOp_eq_dec realizes tr = true -> tr <> r ->
        In tr (dkeys (gs_group s')) /\
        (In r (dkeys (gs_group s')) <->
           In r (dkeys (gs_group s)) \/ st_contiguous st = false \/
           dmem UOp_eq_dec reduce_for_op tr = true \/
           exists rv rst, dget UOp_eq_dec allbufs r = Some rv /\ uop_st rv = Some rst /\
                          st_size st <> st_size rst))).
Proof.
  intros H.
  split; [apply (@recursive_group_grows SA UA TA allbufs realizes reduce_for_op r fuel tr st s s' H)|].
  destruct fuel as [|f]; cbn [recursive_group] in H; [discriminate|].
  destruct (mem tracked_eq_dec (tr, st) (gs_cache s)) eqn:Ec.
  { inversion H; subst. split; [reflexivity | discriminate]. }
  split; [discriminate|]. intros _.
  set (s1 := mkGS (gs_children s) (gs_group s) (gs_cache s ++ [(tr, st)])) in *.
  assert (Hin1 : In (tr, st) (gs_cache s1)).
  { cbn. apply in_or_app. right. left. reflexivity. }
  destruct (dget UOp_eq_dec allbufs r) as [rv|] eqn:Erv; cbn [dgetitem rbind] in H.
  2:{ unfold dgetitem in H. rewrite Erv in H. discriminate. }
  unfold dgetitem in H. rewrite Erv in H. cbn [rbind] in H.
  destruct (uop_st rv) as [rst|] eqn:Erst; cbn [unwrap rbind] in H; [|discriminate].
  destruct (dmem UOp_eq_dec realizes tr) eqn:Er; cbn [andb] in H.
  - destruct (UOp_eq_dec tr r) as [E|N].
    + split; [|intros _ N; contradiction].
      assert (G : group_grows realizes r (snd (children_of s1 tr)) s').
      { apply (@group_children_grows UA TA allbufs realizes r
                 (recursive_group f allbufs realizes reduce_for_op r) tr st
                 (fun tn st0 s0 s0' =>
                    @recursive_group_grows SA UA TA allbufs realizes reduce_for_op r f
                      tn st0 s0 s0') _ _ _ H). }
      destruct G as (_ & _ & Hc & _). apply Hc.
      destruct (children_of_grows realizes r s1 tr) as (_ & _ & Hc1 & _). apply Hc1. exact Hin1.
    + inversion H; subst s'; clear H.
      split; [unfold group_add; cbn [gs_cache];
              destruct (negb (st_contiguous st) || negb (Z.eqb (st_size st) (st_size rst))
                        || dmem UOp_eq_dec reduce_for_op tr); exact Hin1|].
      intros _ _.
      cbn [group_add gs_group]. split; [apply dkeys_dset_In; left; reflexivity|].
      rewrite dkeys_dset_In.
      destruct (st_contiguous st) eqn:Ect; cbn [negb orb].
      * destruct (Z.eqb (st_size st) (st_size rst)) eqn:Ez; cbn [negb orb].
        -- apply Z.eqb_eq in Ez.
           destruct (dmem UOp_eq_dec reduce_for_op tr) eqn:Ef.
           ++ cbn [group_add gs_group]. rewrite dkeys_dset_In. split; [intros _|].
              ** right; right; left; reflexivity.
              ** intros _. right. left. reflexivity.
           ++ cbn [s1 gs_group]. split.
              ** intros [E|Hr]; [congruence | left; exact Hr].
              ** intros [Hr|[Hc|[Hc|(rv' & rst' & E1 & E2 & Hne)]]];
                   try discriminate; [right; exact Hr|].
                 inversion E1; subst rv'. rewrite Erst in E2. inversion E2; subst rst'.
                 contradiction.
        -- apply Z.eqb_neq in Ez. cbn [group_add gs_group]. rewrite dkeys_dset_In.
           split; [intros _ | intros _; right; left; reflexivity].
           right; right; right. exists rv, rst. auto.
      * cbn [group_add gs_group]. rewrite dkeys_dset_In.
        split; [intros _; right; left; reflexivity | intros _; right; left; reflexivity].
  - split; [|discriminate].
    assert (G : group_grows realizes r (snd (children_of s1 tr)) s').
    { apply (@group_children_grows UA TA allbufs realizes r
               (recursive_group f allbufs realizes reduce_for_op r) tr st
               (fun tn st0 s0 s0' =>
                  @recursive_group_grows SA UA TA allbufs realizes reduce_for_op r f
                    tn st0 s0 s0') _ _ _ H). }
    destruct G as (_ & _ & Hc & _). apply Hc.
    destruct (children_of_grows realizes r s1 tr) as (_ & _ & Hc1 & _). apply Hc1. exact Hin1.
Qed.

End RecursiveGroup_theorem.

(** *** The search on the two-buffer graph *)

(** On the trackers of the examples: the size of the shape, and [a + b]
    is [b] when [a] is contiguous (the two views merge into the second),
    the views of both otherwise. *)
#[export] Instance ref_TrackerOpsAPI : TrackerOpsAPI := {|
  st_size := ref_st_size;
  st_add := fun a b => if ref_contiguous a then b else mkST (views a ++ views b)
|}.

Lemma recursive_group_witness :
  group_grows [(buf_b, buf_b)] buf_a
    (mkGS [(buf_a, [(buf_b, tt)])] [] [])
    (mkGS [(buf_a, [(buf_b, tt)])] [(buf_b, tt)]
       [(buf_a, contig [4%Z]); (buf_b, contig [4%Z])]).
Proof.
  exact (proj1 (@recursive_group_adds_only_realized ref_ShapeAPI ref_UOpAPI ref_TrackerOpsAPI
                  3 [(buf_a, view_a); (buf_b, view_b)] [(buf_b, buf_b)] []
                  buf_a buf_a (contig [4%Z])
                  (mkGS [(buf_a, [(buf_b, tt)])] [] [])
                  (mkGS [(buf_a, [(buf_b, tt)])] [(buf_b, tt)]
                     [(buf_a, contig [4%Z]); (buf_b, contig [4%Z])])
                  eq_refl)).
Defined.

(** ** Prescheduling the groups (lines 538-545) *)

(** Modelled from the spec: [UOp.sink] builds the [SINK] root over the
    sources it is given. *)
Definition UOp_sink (srcs : list UOp) : UOp := mkUOp SINK (DScalar void) srcs ANone.

Section Preschedule.
Context `{SA : ShapeAPI} `{UA : UOpAPI}.
Variable rewrite_views : UOp -> dict UOp UOp -> result UOp.
Variable lower_to_si : UOp -> ScheduleItemContext -> result (UOp * ScheduleItemContext).
Variable toposort : UOp -> list UOp.

(** [[ctx.realizes[u] for u in store_uops if ctx.realizes[u].op is Ops.STORE]] *)
Fixpoint stores_of (rz : dict UOp UOp) (store_uops : list UOp) : result (list UOp) :=
  match store_uops with
  | [] => Ok []
  | u :: rest =>
      v <- dgetitem UOp_eq_dec rz u ;;
      vs <- stores_of rz rest ;;
      Ok (if Ops_eqb (op v) STORE then v :: vs else vs)
  end.

(** The loop [for buf_uop in store_uops] of line 544, on [becomes_map]. *)
Fixpoint become_group (tu : dict UOp (list UOp)) (bm : dict UOp UOp) (store_uops : list UOp)
  : result (dict UOp UOp) :=
  match store_uops with
  | [] => Ok bm
  | buf_uop :: rest =>
      luops <- dgetitem UOp_eq_dec tu buf_uop ;;
      bm' <- fold_left (early_become buf_uop) luops (Ok bm) ;;
      become_group tu bm' rest
  end.

(** The loop [for store_uops in store_groups] with the list it fills. *)
Fixpoint preschedule (store_groups : list (list UOp)) (ctx : ScheduleContext)
  (prescheduled : list ScheduleItem) : result (list ScheduleItem * ScheduleContext) :=
  match store_groups with
  | [] => Ok (prescheduled, ctx)
  | store_uops :: rest =>
      stores <- stores_of (realizes ctx) store_uops ;;
      match stores with
      | [] => preschedule rest ctx prescheduled
      | _ :: _ =>
          r <- schedule_uop rewrite_views lower_to_si toposort (UOp_sink stores) ctx ;;
          (* can only schedule once *)
          bm <- become_group (tensor_uops (snd r)) (becomes_map (snd r)) store_uops ;;
          preschedule rest (set_becomes_map (snd r) bm) (prescheduled ++ [fst r])
      end
  end.

End Preschedule.

Section Preschedule_facts.
Context `{SA : ShapeAPI} `{UA : UOpAPI}.
Variable rewrite_views : UOp -> dict UOp UOp -> result UOp.
Variable lower_to_si : UOp -> ScheduleItemContext -> result (UOp * ScheduleItemContext).
Variable toposort : UOp -> list UOp.

(** The group holds a buffer whose entry in [realizes] is a [STORE]. *)
Definition has_store (rz : dict UOp UOp) (store_uops : list UOp) : bool :=
  existsb (fun u => match dget UOp_eq_dec rz u with
                    | Some v => Ops_eqb (op v) STORE
                    | None => false
                    end) store_uops.

(** [k] is a tensor node of a buffer [b] of one of the groups [gs], and
    [bm] maps it to the view of [b] through its own tracker. *)
Definition became (tu : dict UOp (list UOp)) (gs : list (list UOp)) (bm : dict UOp UOp)
  (k : UOp) : Prop :=
  exists g b st luops,
    In g gs /\ In b g /\ dget UOp_eq_dec tu b = Some luops /\ In k luops /\
    uop_st k = Some st /\ dget UOp_eq_dec bm k = Some (uop_view b st).

Lemma stores_of_nil (rz : dict UOp UOp) (g : list UOp) : forall stores,
  stores_of rz g = Ok stores -> (stores = [] <-> has_store rz g = false).
Proof.
  induction g as [|u g IH]; intros stores H; simpl in H.
  - inversion H; subst. simpl. tauto.
  - unfold dgetitem in H. simpl.
    destruct (dget UOp_eq_dec rz u) as [v|]; cbn [rbind] in H; [|discriminate].
    destruct (stores_of rz g) as [vs|e]; cbn [rbind] in H; [|discriminate].
    inversion H; subst; clear H. specialize (IH vs eq_refl).
    destruct (Ops_eqb (op v) STORE); simpl.
    + split; discriminate.
    + exact IH.
Qed.

Lemma schedule_uop_ctx (pre : UOp) (ctx ctx' : ScheduleContext) (si : ScheduleItem) :
  schedule_uop rewrite_views lower_to_si toposort pre ctx = Ok (si, ctx') ->
  ctx' = set_var_vals ctx (var_vals ctx').
Proof.
  unfold schedule_uop. intros H.
  destruct (store_bufs_of (src pre) []) as [sb|e]; cbn [rbind] in H; [|discriminate].
  destruct (rewrite_views pre sb) as [sink|e]; cbn [rbind] in H; [|discriminate].
  destruct (lower_to_si sink _) as [lowered|e]; cbn [rbind] in H; [|discriminate].
  destruct (match assigns ctx with [] => Ok [] | _ :: _ => _ end) as [pl|e];
    cbn [rbind] in H; [|discriminate].
  destruct (item_bufs _) as [bs|e]; cbn [rbind] in H; [|discriminate].
  inversion H; subst. reflexivity.
Qed.

Lemma early_become_ok (b1 : UOp) (l : list UOp) : forall m m',
  fold_left (early_become b1) l (Ok m) = Ok m' ->
  forall luop, In luop l -> uop_st luop <> None.
Proof.
  induction l as [|x l IH]; intros m m' H luop Hin; [contradiction|].
  cbn [fold_left] in H. unfold early_become at 2 in H. cbn [rbind] in H.
  destruct (uop_st x) as [sx|] eqn:Ex; cbn [unwrap rbind] in H.
  - destruct Hin as [<-|Hin]; [congruence|]. apply (IH _ _ H luop Hin).
  - rewrite early_become_err in H. discriminate.
Qed.

Lemma become_group_spec (tu : dict UOp (list UOp)) (g : list UOp) : forall bm bm',
  become_group tu bm g = Ok bm' ->
  (forall b luops k, In b g -> dget UOp_eq_dec tu b = Some luops -> In k luops ->
     became tu [g] bm' k) /\
  (forall k, dget UOp_eq_dec bm' k = dget UOp_eq_dec bm k \/ became tu [g] bm' k).
Proof.
  induction g as [|b0 g IH]; intros bm bm' H; cbn [become_group] in H.
  - inversion H; subst. split; [intros b luops k []|]. intros k. left; reflexivity.
  - unfold dgetitem in H.
    destruct (dget UOp_eq_dec tu b0) as [l0|] eqn:E0; cbn [rbind] in H; [|discriminate].
    destruct (fold_left (early_become b0) l0 (Ok bm)) as [m1|e] eqn:Ef;
      cbn [rbind] in H; [|discriminate].
    destruct (@early_become_fold UA b0 l0 bm (early_become_ok _ _ _ Ef))
      as (m1' & Hrun & Hin1 & Hout1).
    rewrite Ef in Hrun. inversion Hrun; subst m1'; clear Hrun.
    destruct (IH _ _ H) as [Hi Hii].
    assert (Hmono : forall k, became tu [g] bm' k -> became tu [b0 :: g] bm' k).
    { intros k (g' & b & st & luops & [<-|[]] & Hb & Ht & Hk & Hs & Hv).
      exists (b0 :: g), b, st, luops.
      split; [left; reflexivity|]. split; [right; exact Hb|]. auto. }
    assert (Hhead : forall k, In k l0 -> became tu [b0 :: g] bm' k).
    { intros k Hk. destruct (Hii k) as [E|Hb]; [|apply Hmono; exact Hb].
      destruct (uop_st k) as [st|] eqn:Es.
      - exists (b0 :: g), b0, st, l0.
        split; [left; reflexivity|]. split; [left; reflexivity|].
        split; [exact E0|]. split; [exact Hk|]. split; [exact Es|].
        rewrite E. apply Hin1; assumption.
      - exfalso. apply (early_become_ok _ _ _ Ef k Hk). exact Es. }
    split.
    + intros b luops k [<-|Hb] Ht Hk.
      * rewrite E0 in Ht. inversion Ht; subst. apply Hhead. exact Hk.
      * apply Hmono. apply (Hi b luops k Hb Ht Hk).
    + intros k. destruct (Hii k) as [E|Hb]; [|right; apply Hmono; exact Hb].
      destruct (in_dec UOp_eq_dec k l0) as [Hk|Hk].
      * right. apply Hhead. exact Hk.
      * left. rewrite E. apply Hout1. exact Hk.
Qed.

End Preschedule_facts.

Section Preschedule_theorem.
Context `{SA : ShapeAPI} `{UA : UOpAPI}.
Variable rewrite_views : UOp -> dict UOp UOp -> result UOp.
Variable lower_to_si : UOp -> ScheduleItemContext -> result (UOp * ScheduleItemContext).
Variable toposort : UOp -> list UOp.

(** Of the context only [var_vals] and [becomes_map] may differ. *)
Definition only_maps_changed (ctx ctx' : ScheduleContext) : Prop :=
  tensor_uops ctx' = tensor_uops ctx /\ realizes ctx' = realizes ctx /\
  assigns ctx' = assigns ctx /\ allbufs ctx' = allbufs ctx /\
  ops_metadata ctx' = ops_metadata ctx /\ contiguous ctx' = contiguous ctx /\
  children ctx' = children ctx.

Lemma became_head (tu : dict UOp (list UOp)) (g : list UOp) (gs : list (list UOp))
  (bm bm' : dict UOp UOp) (k : UOp) :
  became tu [g] bm k -> dget UOp_eq_dec bm' k = dget UOp_eq_dec bm k ->
  became tu (g :: gs) bm' k.
Proof.
  intros (g' & b & st & luops & [<-|[]] & Hb & Ht & Hk & Hs & Hv) E.
  exists g, b, st, luops. split; [left; reflexivity|].
  split; [exact Hb|]. split; [exact Ht|]. split; [exact Hk|]. split; [exact Hs|].
  rewrite E. exact Hv.
Qed.

Lemma became_tail (tu : dict UOp (list UOp)) (g : list UOp) (gs : list (list UOp))
  (bm : dict UOp UOp) (k : UOp) :
  became tu gs bm k -> became tu (g :: gs) bm k.
Proof.
  intros (g' & b & st & luops & Hg & H). exists g', b, st, luops.
  split; [right; exact Hg | exact H].
Qed.

Lemma preschedule_spec (groups : list (list UOp)) :
  forall (ctx : ScheduleContext) (acc items : list ScheduleItem) (ctx' : ScheduleContext),
  preschedule rewrite_views lower_to_si toposort groups ctx acc = Ok (items, ctx') ->
  List.length items
    = List.length acc + List.length (filter (has_store (realizes ctx)) groups) /\
  only_maps_changed ctx ctx' /\
  (forall g b luops k, In g (filter (has_store (realizes ctx)) groups) -> In b g ->
     dget UOp_eq_dec (tensor_uops ctx) b = Some luops -> In k luops ->
     became (tensor_uops ctx) (filter (has_store (realizes ctx)) groups)
       (becomes_map ctx') k) /\
  (forall k, dget UOp_eq_dec (becomes_map ctx') k = dget UOp_eq_dec (becomes_map ctx) k \/
     became (tensor_uops ctx) (filter (has_store (realizes ctx)) groups)
       (becomes_map ctx') k).
Proof.
  induction groups as [|g rest IH]; intros ctx acc items ctx' H; cbn [preschedule] in H.
  - inversion H; subst. cbn [filter List.length]. split; [lia|].
    split; [repeat split|]. split; [intros g b luops k []|]. intros k. left; reflexivity.
  - destruct (stores_of (realizes ctx) g) as [stores|e] eqn:Es; cbn [rbind] in H; [|discriminate].
    pose proof (stores_of_nil _ _ Es) as Hnil. cbn [filter].
    destruct stores as [|s0 stores].
    + rewrite (proj1 Hnil eq_refl). apply (IH _ _ _ _ H).
    + assert (Hs : has_store (realizes ctx) g = true).
      { destruct (has_store (realizes ctx) g); [reflexivity|].
        destruct Hnil as [_ Hn]. specialize (Hn eq_refl). discriminate. }
      rewrite Hs.
      destruct (schedule_uop rewrite_views lower_to_si toposort (UOp_sink (s0 :: stores)) ctx)
        as [[si c1]|e] eqn:Eu; cbn [rbind fst snd] in H; [|discriminate].
      pose proof (schedule_uop_ctx _ _ _ _ _ Eu) as Ec1.
      assert (F1 : tensor_uops c1 = tensor_uops ctx /\ realizes c1 = realizes ctx /\
                   becomes_map c1 = becomes_map ctx /\ only_maps_changed ctx c1).
      { rewrite Ec1. repeat split. }
      destruct F1 as (Ft & Fr & Fb & Fo).
      destruct (become_group (tensor_uops c1) (becomes_map c1) g) as [bm|e] eqn:Eb;
        cbn [rbind] in H; [|discriminate].
      rewrite Ft, Fb in Eb.
      destruct (@become_group_spec UA _ _ _ _ Eb) as [Hi Hii].
      destruct (IH _ _ _ _ H) as (Hlen & Hsame & Hc & Hd).
      cbn [set_becomes_map tensor_uops realizes becomes_map] in Hlen, Hc, Hd.
      rewrite Ft in Hc, Hd. rewrite Fr in Hlen, Hc, Hd.
      split; [rewrite Hlen, length_app; cbn [List.length]; lia|].
      split.
      { destruct Hsame as (A1 & A2 & A3 & A4 & A5 & A6 & A7).
        destruct Fo as (B1 & B2 & B3 & B4 & B5 & B6 & B7).
        cbn [set_becomes_map tensor_uops realizes assigns allbufs ops_metadata contiguous
             children] in A1, A2, A3, A4, A5, A6, A7.
        repeat split; congruence. }
      split.
      * intros g' b luops k [<-|Hg'] Hb Ht Hk.
        -- pose proof (Hi b luops k Hb Ht Hk) as Hbe.
           destruct (Hd k) as [E|Hr]; [|apply became_tail; exact Hr].
           apply (@became_head _ g _ bm _ k Hbe E).
        -- apply became_tail. apply (Hc g' b luops k Hg' Hb Ht Hk).
      * intros k. destruct (Hd k) as [E|Hr]; [|right; apply became_tail; exact Hr].
        destruct (Hii k) as [E'|Hbe].
        -- left. congruence.
        -- right. apply (@became_head _ g _ bm _ k Hbe E).
Qed.

(** X16.  The loop that preschedules the groups (lines 539-545).  When it
    returns, it has made one kernel for each group that holds a buffer
    whose [realizes] entry is a [STORE], in the order of the groups, and
    none for the other groups.  Of the context only [var_vals] and
    [becomes_map] may have changed.  Every tensor node linked to a buffer
    of a scheduled group has become a view, through its own tracker, of a
    buffer of a scheduled group it is linked to; every other entry of
    [becomes_map] is as it was: the tensor nodes of a group without a
    [STORE] are not touched by this loop. *)
Theorem preschedule_covers_scheduled_groups
  (groups : list (list UOp)) (ctx ctx' : ScheduleContext) (items : list ScheduleItem) :
  preschedule rewrite_views lower_to_si toposort groups ctx [] = Ok (items, ctx') ->
  let scheduled := filter (has_store (realizes ctx)) groups in
  List.length items = List.length scheduled /\
  only_maps_changed ctx ctx' /\
  (forall g b luops k, In g scheduled -> In b g ->
     dget UOp_eq_dec (tensor_uops ctx) b = Some luops -> In k luops ->
     became (tensor_uops ctx) scheduled (becomes_map ctx') k) /\
  (forall k, dget UOp_eq_dec (becomes_map ctx') k = dget UOp_eq_dec (becomes_map ctx) k \/
     became (tensor_uops ctx) scheduled (becomes_map ctx') k).
Proof.
  intros H scheduled. destruct (preschedule_spec _ _ _ H) as (Hlen & Hsame & Hc & Hd).
  split; [exact Hlen|]. split; [exact Hsame|]. split; [exact Hc | exact Hd].
Qed.

End Preschedule_theorem.

(** *** Prescheduling two groups, one of them without a store *)

Definition ctx_store : ScheduleContext :=
  mkCtx [(buf_a, [tensor_c]); (buf_b, [tensor_d])] [] []
        [(buf_a, store buf_a (contig [4%Z]) inner_op); (buf_b, buf_b)] [] [] [] [] [].

Lemma preschedule_witness :
  let scheduled := filter (has_store (realizes ctx_store)) [[buf_a]; [buf_b]] in
  List.length [mkScheduleItem (UOp_sink [store buf_a (contig [4%Z]) inner_op]) [] [] []]
    = List.length scheduled /\
  only_maps_changed ctx_store
    (set_becomes_map ctx_store [(tensor_c, uop_view buf_a (contig [4%Z]))]) /\
  (forall g b luops k, In g scheduled -> In b g ->
     dget UOp_eq_dec (tensor_uops ctx_store) b = Some luops -> In k luops ->
     became (tensor_uops ctx_store) scheduled
       (becomes_map (set_becomes_map ctx_store [(tensor_c, uop_view buf_a (contig [4%Z]))]))
       k) /\
  (forall k,
     dget UOp_eq_dec
       (becomes_map (set_becomes_map ctx_store [(tensor_c, uop_view buf_a (contig [4%Z]))])) k
       = dget UOp_eq_dec (becomes_map ctx_store) k \/
     became (tensor_uops ctx_store) scheduled
       (becomes_map (set_becomes_map ctx_store [(tensor_c, uop_view buf_a (contig [4%Z]))]))
       k).
Proof.
  exact (@preschedule_covers_scheduled_groups ref_ShapeAPI ref_UOpAPI
           no_rewrite no_lowering ref_toposort [[buf_a]; [buf_b]] ctx_store
           (set_becomes_map ctx_store [(tensor_c, uop_view buf_a (contig [4%Z]))])
           [mkScheduleItem (UOp_sink [store buf_a (contig [4%Z]) inner_op]) [] [] []]
           eq_refl).
Defined.

(** ** Wrapping tensor nodes in buffers: [add_buffers] (lines 91-113) *)

(** What [add_buffers] writes to: [ctx.tensor_uops], its [cache], and the
    number of buffers [UOp.new_buffer] has handed out (its global
    counter). *)
Record BufState : Type := mkBS {
  bs_tensor_uops : dict UOp (list UOp);
  bs_cache : dict UOp UOp;
  bs_allocated : nat
}.

Section AddBuffers.
Context `{SA : ShapeAPI} `{UA : UOpAPI}.

(** [UOp.new_buffer(device, size, dtype)] of tinygrad.ops, for the value
    of its counter; [st.unit_stride_axes()] of tinygrad.shape; and the
    test of line 103 on a shape with a symbolic dimension, where it is
    decided by the arithmetic of tinygrad.ops on symbolic values. *)
Variable new_buffer : nat -> string -> Z -> DType -> UOp.
Variable unit_stride_axes : ShapeTracker -> list nat.
Variable symbolic_image_test : UOp -> result bool.

(** [any(shape[x] % 4 == 0 for x in axes)] on an integer shape. *)
Fixpoint any_dim_mod4 (shape : list Z) (axes : list nat) : result bool :=
  match axes with
  | [] => Ok false
  | x :: rest =>
      d <- tuple_get shape x ;;
      if Z.eqb (d mod 4) 0 then Ok true else any_dim_mod4 shape rest
  end.

(** Line 103: the image dtype cannot be kept. *)
Definition cannot_be_image (buf : UOp) : result bool :=
  match dtype buf with
  | DImage _ img_shape =>
      shp <- uop_shape buf ;;
      if all_int shp then
        if negb (Z.eqb (prod (ints shp)) (prod img_shape)) then Ok true else
        st <- unwrap (uop_st buf) ;;
        fits <- any_dim_mod4 (ints shp) (unit_stride_axes st) ;;
        Ok (negb fits)
      else symbolic_image_test buf
  | _ => Ok false
  end.

(** [tuple(add_buffers(x, ctx, cache) for x in xs)]; [rec] is the
    recursive call. *)
Fixpoint add_buffers_srcs (rec : UOp -> BufState -> option (result (UOp * BufState)))
  (xs : list UOp) (s : BufState) {struct xs} : option (result (list UOp * BufState)) :=
  match xs with
  | [] => Some (Ok ([], s))
  | x :: rest =>
      match rec x s with
      | Some (Ok (x', s1)) =>
          match add_buffers_srcs rec rest s1 with
          | Some (Ok (rest', s2)) => Some (Ok (x' :: rest', s2))
          | Some (Err e) => Some (Err e)
          | None => None
          end
      | Some (Err e) => Some (Err e)
      | None => None
      end
  end.

(** The last part of [add_buffers], on a base that needs a buffer. *)
Definition bufferize (rec : UOp -> BufState -> option (result (UOp * BufState)))
  (buf : UOp) (s : BufState) : option (result (UOp * BufState)) :=
  (* make things that can't be images not images *)
  match cannot_be_image buf with
  | Err e => Some (Err e)
  | Ok demote =>
      let dt := if demote then dtype_base (dtype buf) else dtype buf in
      (* ASSIGN already has a target buffer, otherwise we create a new one *)
      match (if Ops_eqb (op buf) ASSIGN
             then b <- uop_buf_uop buf ;; Ok (b, s)
             else dev <- uop_device buf ;;
                  sz <- uop_size buf ;;
                  Ok (new_buffer (bs_allocated s) dev sz dt,
                      mkBS (bs_tensor_uops s) (bs_cache s) (S (bs_allocated s)))) with
      | Err e => Some (Err e)
      | Ok (buf_uop, s1) =>
          match add_buffers_srcs rec (src buf) s1 with
          | Some (Ok (srcs, s2)) =>
              let o := mkUOp (op buf) dt srcs (arg buf) in
              let ret := mkUOp VIEW (dtype_base dt) [buf_uop; o]
                           (match uop_st buf with Some st => AST st | None => ANone end) in
              (* track the underlying tensor uop for this buffer; (early) bufferize *)
              Some (Ok (ret, mkBS (dset UOp_eq_dec (bs_tensor_uops s2) buf_uop [buf])
                                  (dset UOp_eq_dec (bs_cache s2) buf ret)
                                  (bs_allocated s2)))
          | Some (Err e) => Some (Err e)
          | None => None
          end
      end
  end.

(** [add_buffers]; [None] when the recursion is deeper than [fuel]. *)
Fixpoint add_buffers (fuel : nat) (buf : UOp) (s : BufState) {struct fuel}
  : option (result (UOp * BufState)) :=
  match fuel with
  | O => None
  | S f =>
      match dget UOp_eq_dec (bs_cache s) buf with
      | Some r => Some (Ok (r, s))
      | None =>
          (* SINK is passthrough *)
          if Ops_eqb (op buf) SINK then
            match add_buffers_srcs (add_buffers f) (src buf) s with
            | Some (Ok (srcs, s1)) => Some (Ok (mkUOp (op buf) (dtype buf) srcs (arg buf), s1))
            | Some (Err e) => Some (Err e)
            | None => None
            end
          (* skip creating buffers for CONST/BIND/DEVICE/BUFFER *)
          else if uop_is_realized (uop_base buf)
                  || mem Ops_eq_dec (op (uop_base buf)) [CONST; BIND; DEVICE]
          then Some (Ok (buf, s))
          (* VIEW is passthrough *)
          else if UOp_eq_dec buf (uop_base buf) then bufferize (add_buffers f) buf s
          else
            match add_buffers f (uop_base buf) s with
            | Some (Ok (b, s1)) =>
                match uop_st buf with
                | Some st =>
                    let ret := uop_view b st in
                    Some (Ok (ret, mkBS (bs_tensor_uops s1)
                                        (dset UOp_eq_dec (bs_cache s1) buf ret)
                                        (bs_allocated s1)))
                | None => Some (Err AssertionError)
                end
            | other => other
            end
      end
  end.

End AddBuffers.

Section AddBuffers_facts.
Context `{SA : ShapeAPI} `{UA : UOpAPI}.
Variable new_buffer : nat -> string -> Z -> DType -> UOp.
Variable unit_stride_axes : ShapeTracker -> list nat.
Variable symbolic_image_test : UOp -> result bool.

(** From [s] to [s'] no key left the cache or [tensor_uops], the counter
    of buffers did not go back, and every link that is new or was
    rewritten holds exactly one tensor node. *)
Definition bufs_grow (s s' : BufState) : Prop :=
  incl (dkeys (bs_cache s)) (dkeys (bs_cache s')) /\
  incl (dkeys (bs_tensor_uops s)) (dkeys (bs_tensor_uops s')) /\
  bs_allocated s <= bs_allocated s' /\
  (forall b l, dget UOp_eq_dec (bs_tensor_uops s') b = Some l ->
     dget UOp_eq_dec (bs_tensor_uops s) b = Some l \/ exists x, l = [x]).

Lemma bufs_grow_refl (s : BufState) : bufs_grow s s.
Proof.
  split; [intros x Hx; exact Hx|]. split; [intros x Hx; exact Hx|].
  split; [lia|]. intros b l H. left; exact H.
Qed.

Lemma bufs_grow_trans (s1 s2 s3 : BufState) :
  bufs_grow s1 s2 -> bufs_grow s2 s3 -> bufs_grow s1 s3.
Proof.
  intros (A1 & B1 & C1 & D1) (A2 & B2 & C2 & D2).
  split; [intros x Hx; apply A2, A1, Hx|]. split; [intros x Hx; apply B2, B1, Hx|].
  split; [lia|]. intros b l H.
  destruct (D2 b l H) as [H'|H']; [apply D1; exact H' | right; exact H'].
Qed.

Lemma add_buffers_srcs_grow
  (rec : UOp -> BufState -> option (result (UOp * BufState))) :
  (forall x s r s', rec x s = Some (Ok (r, s')) -> bufs_grow s s') ->
  forall xs s rs s',
  add_buffers_srcs rec xs s = Some (Ok (rs, s')) ->
  bufs_grow s s' /\ List.length rs = List.length xs.
Proof.
  intros Hrec. induction xs as [|x xs IH]; intros s rs s' H; cbn [add_buffers_srcs] in H.
  - inversion H; subst. split; [apply bufs_grow_refl | reflexivity].
  - destruct (rec x s) as [[[x' s1]|e]|] eqn:Ex; try discriminate.
    destruct (add_buffers_srcs rec xs s1) as [[[rest' s2]|e]|] eqn:Er; try discriminate.
    inversion H; subst; clear H. destruct (IH _ _ _ Er) as [G L].
    split; [apply (bufs_grow_trans (Hrec _ _ _ _ Ex) G) | simpl; rewrite L; reflexivity].
Qed.

Lemma bufferize_grow (rec : UOp -> BufState -> option (result (UOp * BufState)))
  (buf : UOp) (s : BufState) (r : UOp) (s' : BufState) :
  (forall x s r s', rec x s = Some (Ok (r, s')) -> bufs_grow s s') ->
  bufferize new_buffer unit_stride_axes symbolic_image_test rec buf s = Some (Ok (r, s')) ->
  bufs_grow s s'.
Proof.
  intros Hrec H. unfold bufferize in H.
  destruct (cannot_be_image unit_stride_axes symbolic_image_test buf) as [demote|e];
    [|discriminate].
  match type of H with
  | match ?m with _ => _ end = _ => destruct m as [[buf_uop s1]|e] eqn:Eb; [|discriminate]
  end.
  assert (G1 : bufs_grow s s1).
  { destruct (Ops_eqb (op buf) ASSIGN).
    - destruct (uop_buf_uop buf) as [b|e]; cbn [rbind] in Eb; [|discriminate].
      inversion Eb; subst. apply bufs_grow_refl.
    - destruct (uop_device buf) as [dev|e]; cbn [rbind] in Eb; [|discriminate].
      destruct (uop_size buf) as [sz|e]; cbn [rbind] in Eb; [|discriminate].
      inversion Eb; subst. split; [intros x Hx; exact Hx|].
      split; [intros x Hx; exact Hx|]. split; [cbn; lia|]. intros b l Hl. left; exact Hl. }
  destruct (add_buffers_srcs rec (src buf) s1) as [[[srcs s2]|e]|] eqn:Es; try discriminate.
  destruct (@add_buffers_srcs_grow rec Hrec (src buf) s1 srcs s2 Es) as [G2 _].
  inversion H; subst; clear H.
  apply (bufs_grow_trans G1). apply (bufs_grow_trans G2).
  split; [|split; [|split]]; cbn [bs_cache bs_tensor_uops bs_allocated].
  - intros x Hx. apply dkeys_dset_In. right; exact Hx.
  - intros x Hx. apply dkeys_dset_In. right; exact Hx.
  - lia.
  - intros b l Hl. destruct (UOp_eq_dec b buf_uop) as [->|N].
    + rewrite dget_dset_same in Hl. inversion Hl; subst. right. exists buf. reflexivity.
    + rewrite dget_dset_other in Hl by exact N. left; exact Hl.
Qed.

(** X18.  What [add_buffers] never does (lines 91-113).  A call that
    returns has removed no key from its cache nor from
    [ctx.tensor_uops], has not taken back a buffer number, and every
    link of [tensor_uops] that is new or was written again holds exactly
    one tensor node. *)
Lemma add_buffers_grow : forall fuel buf s r s',
  add_buffers new_buffer unit_stride_axes symbolic_image_test fuel buf s = Some (Ok (r, s')) ->
  bufs_grow s s'.
Proof.
  induction fuel as [|f IH]; intros buf s r s' H; cbn [add_buffers] in H; [discriminate|].
  destruct (dget UOp_eq_dec (bs_cache s) buf) as [c|].
  { inversion H; subst. apply bufs_grow_refl. }
  destruct (Ops_eqb (op buf) SINK).
  { destruct (add_buffers_srcs _ (src buf) s) as [[[srcs s1]|e]|] eqn:Es; try discriminate.
    destruct (@add_buffers_srcs_grow _ (IH) (src buf) s srcs s1 Es) as [G _].
    inversion H; subst. exact G. }
  destruct (uop_is_realized (uop_base buf)
            || mem Ops_eq_dec (op (uop_base buf)) [CONST; BIND; DEVICE]).
  { inversion H; subst. apply bufs_grow_refl. }
  destruct (UOp_eq_dec buf (uop_base buf)) as [E|N].
  { apply (@bufferize_grow _ buf s r s' (IH) H). }
  destruct (add_buffers _ _ _ f (uop_base buf) s) as [[[b s1]|e]|] eqn:Eb; try discriminate.
  destruct (uop_st buf) as [st|]; [|discriminate].
  inversion H; subst; clear H. apply (bufs_grow_trans (IH _ _ _ _ Eb)).
  split; [|split; [|split]]; cbn [bs_cache bs_tensor_uops bs_allocated].
  - intros x Hx. apply dkeys_dset_In. right; exact Hx.
  - intros x Hx; exact Hx.
  - lia.
  - intros b0 l Hl. left; exact Hl.
Qed.

End AddBuffers_facts.

Lemma add_buffers_srcs_length
  (rec : UOp -> BufState -> option (result (UOp * BufState))) :
  forall xs s rs s',
  add_buffers_srcs rec xs s = Some (Ok (rs, s')) -> List.length rs = List.length xs.
Proof.
  induction xs as [|x xs IH]; intros s rs s' H; cbn [add_buffers_srcs] in H.
  - inversion H; subst. reflexivity.
  - destruct (rec x s) as [[[x' s1]|e]|]; try discriminate.
    destruct (add_buffers_srcs rec xs s1) as [[[rest' s2]|e]|] eqn:Er; try discriminate.
    inversion H; subst; clear H. simpl. rewrite (IH _ _ _ Er). reflexivity.
Qed.

Section AddBuffers_theorem.
Context `{SA : ShapeAPI} `{UA : UOpAPI}.
Variable new_buffer : nat -> string -> Z -> DType -> UOp.
Variable unit_stride_axes : ShapeTracker -> list nat.
Variable symbolic_image_test : UOp -> result bool.

(** X17.  [add_buffers] on a node that is not a [SINK] (lines 91-113).
    When a call returns, the same call made again answers the same node
    and changes nothing more: the node is in the cache, or it is one that
    is handed back as it is.  A node whose base is realized or is a
    [CONST], [BIND] or [DEVICE] comes back unchanged and nothing is
    written.  A node that is its own base and is none of these comes
    back as [VIEW(buffer, op)] where [op] has the opcode and arg of the
    node and as many sources; the buffer is linked in [tensor_uops] to
    exactly this node, and it is the target of the node when the node is
    an [ASSIGN]. *)
Theorem add_buffers_memoizes (fuel : nat) (buf : UOp) (s : BufState) (r : UOp) (s' : BufState) :
  add_buffers new_buffer unit_stride_axes symbolic_image_test fuel buf s = Some (Ok (r, s')) ->
  op buf <> SINK ->
  (forall fuel', add_buffers new_buffer unit_stride_axes symbolic_image_test (S fuel') buf s'
                 = Some (Ok (r, s'))) /\
  (dget UOp_eq_dec (bs_cache s) buf = None ->
   uop_is_realized (uop_base buf)
   || mem Ops_eq_dec (op (uop_base buf)) [CONST; BIND; DEVICE] = true ->
     r = buf /\ s' = s) /\
  (dget UOp_eq_dec (bs_cache s) buf = None ->
   uop_is_realized (uop_base buf)
   || mem Ops_eq_dec (op (uop_base buf)) [CONST; BIND; DEVICE] = false ->
   uop_base buf = buf ->
     exists buf_uop o,
       r = mkUOp VIEW (dtype_base (dtype o)) [buf_uop; o]
             (match uop_st buf with Some st => AST st | None => ANone end) /\
       op o = op buf /\ arg o = arg buf /\ List.length (src o) = List.length (src buf) /\
       dget UOp_eq_dec (bs_tensor_uops s') buf_uop = Some [buf] /\
       dget UOp_eq_dec (bs_cache s') buf = Some r /\
       (op buf = ASSIGN -> uop_buf_uop buf = Ok buf_uop)).
Proof.
  intros H Hsink.
  destruct fuel as [|f]; cbn [add_buffers] in H; [discriminate|].
  assert (Hns : Ops_eqb (op buf) SINK = false).
  { unfold Ops_eqb. destruct (Ops_eq_dec (op buf) SINK); [contradiction | reflexivity]. }
  rewrite Hns in H.
  assert (Hhit : forall c, dget UOp_eq_dec (bs_cache c) buf = Some r ->
            forall fuel', add_buffers new_buffer unit_stride_axes symbolic_image_test
                            (S fuel') buf c = Some (Ok (r, c))).
  { intros c Hc fuel'. cbn [add_buffers]. rewrite Hc. reflexivity. }
  destruct (dget UOp_eq_dec (bs_cache s) buf) as [c|] eqn:Ec.
  { inversion H; subst. split; [apply Hhit; exact Ec|]. split; discriminate. }
  destruct (uop_is_realized (uop_base buf)
            || mem Ops_eq_dec (op (uop_base buf)) [CONST; BIND; DEVICE]) eqn:Ep.
  { inversion H; subst. split.
    - intros fuel'. cbn [add_buffers]. rewrite Ec, Hns, Ep. reflexivity.
    - split; [intros _ _; split; reflexivity | intros _ Hf; discriminate]. }
  destruct (UOp_eq_dec buf (uop_base buf)) as [E|N].
  - unfold bufferize in H.
    destruct (cannot_be_image unit_stride_axes symbolic_image_test buf) as [demote|e];
      [|discriminate].
    match type of H with
    | match ?m with _ => _ end = _ => destruct m as [[buf_uop s1]|e] eqn:Eb; [|discriminate]
    end.
    destruct (add_buffers_srcs _ (src buf) s1) as [[[srcs s2]|e]|] eqn:Es; try discriminate.
    pose proof (@add_buffers_srcs_length _ (src buf) s1 srcs s2 Es) as Hlen.
    inversion H; subst r s'; clear H.
    split; [apply Hhit; cbn [bs_cache]; apply dget_dset_same|].
    split; [intros _ Hf; discriminate|]. intros _ _ _.
    exists buf_uop,
      (mkUOp (op buf) (if demote then dtype_base (dtype buf) else dtype buf) srcs (arg buf)).
    split; [reflexivity|]. cbn [op arg src bs_tensor_uops bs_cache].
    split; [reflexivity|]. split; [reflexivity|]. split; [exact Hlen|].
    split; [apply dget_dset_same|]. split; [apply dget_dset_same|].
    intros Ha. unfold Ops_eqb in Eb. rewrite Ha in Eb.
    destruct (Ops_eq_dec ASSIGN ASSIGN) as [_|Nn]; [|congruence].
    destruct (uop_buf_uop buf) as [b|e]; cbn [rbind] in Eb; [|discriminate].
    inversion Eb; subst. reflexivity.
  - destruct (add_buffers _ _ _ f (uop_base buf) s) as [[[b s1]|e]|] eqn:Eb; try discriminate.
    destruct (uop_st buf) as [st|]; [|discriminate].
    inversion H; subst r s'; clear H.
    split; [apply Hhit; cbn [bs_cache]; apply dget_dset_same|].
    split; [intros _ Hf; discriminate|]. intros _ _ Hb. congruence.
Qed.

End AddBuffers_theorem.

(** *** [add_buffers] on the negation of a realized buffer *)

(** A buffer node numbered by the counter, the axes of stride 1 of the
    last view, and no symbolic image shapes in the examples. *)
Definition ref_new_buffer (n : nat) (device : string) (size : Z) (dt : DType) : UOp :=
  mkUOp BUFFER dt [mkUOp DEVICE (DScalar void) [] (AStr device)] (ABufNum (Z.of_nat n) size).

Definition ref_unit_stride_axes (st : ShapeTracker) : list nat :=
  match rev (views st) with
  | v :: _ =>
      map fst (filter (fun p => if sint_eq_dec (snd p) (SInt 1) then true else false)
                 (combine (seq 0 (List.length (v_strides v))) (v_strides v)))
  | [] => []
  end.

Definition no_symbolic_image (_ : UOp) : result bool := Ok true.

Definition neg_of_realized : UOp := alu NEG [realized_view].

Definition neg_of_realized_view : UOp :=
  mkUOp VIEW (DScalar float_) [ref_new_buffer 0 "CPU" 4 (DScalar float_); neg_of_realized]
    (AST (contig [4%Z])).

Definition bufs_after : BufState :=
  mkBS [(ref_new_buffer 0 "CPU" 4 (DScalar float_), [neg_of_realized])]
       [(neg_of_realized, neg_of_realized_view)] 1.

Lemma add_buffers_memoizes_witness :
  add_buffers ref_new_buffer ref_unit_stride_axes no_symbolic_image 1
    neg_of_realized bufs_after
  = Some (Ok (neg_of_realized_view, bufs_after)).
Proof.
  refine (proj1 (@add_buffers_memoizes ref_ShapeAPI ref_UOpAPI
                   ref_new_buffer ref_unit_stride_axes no_symbolic_image
                   2 neg_of_realized (mkBS [] [] 0) neg_of_realized_view bufs_after
                   eq_refl _) 0).
  discriminate.
Defined.

Lemma add_buffers_grow_witness : bufs_grow (mkBS [] [] 0) bufs_after.
Proof.
  exact (@add_buffers_grow ref_ShapeAPI ref_UOpAPI
           ref_new_buffer ref_unit_stride_axes no_symbolic_image
           2 neg_of_realized (mkBS [] [] 0) neg_of_realized_view bufs_after eq_refl).
Defined.

(** ** More on the folding rules (lines 371-401) *)

Section Folding_more.
Context `{SA : ShapeAPI} `{UA : UOpAPI}.

(** Only [contiguous] may differ, and it lost no key. *)
Definition only_contiguous_grows (ctx ctx' : ScheduleContext) : Prop :=
  ctx' = set_contiguous ctx (contiguous ctx') /\
  incl (dkeys (contiguous ctx)) (dkeys (contiguous ctx')).

Lemma only_contiguous_grows_refl (ctx : ScheduleContext) : only_contiguous_grows ctx ctx.
Proof. split; [destruct ctx; reflexivity | intros x Hx; exact Hx]. Qed.

Lemma only_contiguous_grows_trans (c1 c2 c3 : ScheduleContext) :
  only_contiguous_grows c1 c2 -> only_contiguous_grows c2 c3 -> only_contiguous_grows c1 c3.
Proof.
  intros [E1 I1] [E2 I2]. split; [|intros x Hx; apply I2, I1, Hx].
  rewrite E2. rewrite E1 at 1. reflexivity.
Qed.

Lemma found_contiguous_grows (ctx ctx' : ScheduleContext) (contig base b : UOp)
  (r : option UOp) :
  found_contiguous ctx contig base b = Ok (r, ctx') ->
  r = None /\ only_contiguous_grows ctx ctx'.
Proof.
  unfold found_contiguous. intros H.
  destruct (src contig) as [|c0 rest]; [discriminate|].
  destruct (Ops_eqb (op c0) VIEW);
    [|inversion H; split; [reflexivity | apply only_contiguous_grows_refl]].
  destruct (src c0) as [|old_base rest'];
    [inversion H; split; [reflexivity | apply only_contiguous_grows_refl]|].
  destruct (Ops_eqb (op old_base) VIEW);
    [|inversion H; split; [reflexivity | apply only_contiguous_grows_refl]].
  destruct (unwrap (uop_st c0)) as [st|e]; cbn [rbind] in H; [|discriminate].
  destruct (uop_shape old_base) as [shp|e]; cbn [rbind] in H; [|discriminate].
  destruct (st_invert st shp) as [sti|];
    [|inversion H; split; [reflexivity | apply only_contiguous_grows_refl]].
  inversion H; subst; clear H. split; [reflexivity|]. split.
  - destruct ctx; reflexivity.
  - cbn [contiguous set_contiguous]. intros x Hx. apply dkeys_dset_In. right; exact Hx.
Qed.

End Folding_more.

(** A rule that hands its context back on every branch that returns. *)
Ltac rule_same H :=
  repeat (cbn [rbind] in H;
          match type of H with
          | context [rbind ?m _] => destruct m; cbn [rbind] in H; try discriminate
          | context [match ?t with _ => _ end] => destruct t; try discriminate
          end);
  inversion H; reflexivity.

Section Folding_theorems.
Context `{SA : ShapeAPI} `{UA : UOpAPI}.

(** X19.  What the folding rules of lines 371-401 never do.  Whatever
    node they are tried on, a call that returns has changed nothing in
    the context but [ctx.contiguous], which lost no key; and on a node
    that is not a [VIEW] the context is exactly as it was.  The realize
    marks, the tensor links and the buffers of the context are out of
    reach of constant folding. *)
Theorem folding_rules_touch_only_contiguous
  (ctx ctx' : ScheduleContext) (u : UOp) (r : option UOp) :
  pm_rewrite ops_folding_rules ctx u = Ok (r, ctx') ->
  only_contiguous_grows ctx ctx' /\ (op u <> VIEW -> ctx' = ctx).
Proof.
  apply (@pm_rewrite_keeps ScheduleContext
           (fun c c' => only_contiguous_grows c c' /\ (op u <> VIEW -> c' = c))
           u ops_folding_rules).
  - intros c. split; [apply only_contiguous_grows_refl | reflexivity].
  - intros c1 c2 c3 [G1 E1] [G2 E2].
    split; [apply (only_contiguous_grows_trans G1 G2)|].
    intros N. rewrite (E2 N). apply (E1 N).
  - assert (Hid : forall c c' : ScheduleContext, c' = c ->
              only_contiguous_grows c c' /\ (op u <> VIEW -> c' = c)).
    { intros c c' ->. split; [apply only_contiguous_grows_refl | reflexivity]. }
    unfold ops_folding_rules.
    repeat (apply Forall_cons; [intros c res c' Hr|]);
      [| | | | | | | | | | | |constructor].
    + apply Hid. unfold fold_size0 in Hr. rule_same Hr.
    + apply Hid. unfold fold_const_buffer in Hr. destruct u as [o d s a]. rule_same Hr.
    + apply Hid. unfold fold_detach in Hr. rule_same Hr.
    + apply Hid. unfold fold_reduce_empty in Hr. destruct u as [o d s a]. rule_same Hr.
    + apply Hid. unfold fold_reduce_const in Hr. destruct u as [o d s a]. rule_same Hr.
    + apply Hid. unfold fold_copy_const in Hr. destruct u as [o d s a]. rule_same Hr.
    + apply Hid. unfold fold_copy_same_device in Hr. destruct u as [o d s a]. rule_same Hr.
    + apply Hid. unfold fold_contiguous_view in Hr. destruct u as [o d s a]. rule_same Hr.
    + apply Hid. unfold fold_double_contiguous in Hr. destruct u as [o d s a]. rule_same Hr.
    + unfold fold_found_contiguous in Hr. destruct u as [o d s a]. cbn [op].
      destruct o; try (apply Hid; inversion Hr; reflexivity).
      destruct s as [|b [|contig [|y s]]]; try (apply Hid; inversion Hr; reflexivity).
      destruct (Ops_eqb (op b) BUFFER && Ops_eqb (op contig) CONTIGUOUS);
        [|apply Hid; inversion Hr; reflexivity].
      apply found_contiguous_grows in Hr. destruct Hr as [_ G].
      split; [exact G | intros N; congruence].
    + apply Hid. unfold fold_replace_contiguous in Hr. rule_same Hr.
    + apply Hid. unfold fold_sink in Hr. rule_same Hr.
Qed.

End Folding_theorems.

Section FoldSink.
Context `{SA : ShapeAPI} `{UA : UOpAPI}.

(** X20.  The folding rules on a [SINK] (lines 371-401).  Only the last
    rule looks at a [SINK]: the answer is the [SINK] over the bases of
    the sources that are not realized and whose base is neither a [CONST]
    nor a [BIND], in their order, with the same dtype and arg, or [None]
    when these are the sources it already has; the context is not
    touched.  So no source of the new [SINK] is a [CONST] or a [BIND],
    and each is the base of a source that was not realized. *)
Theorem folding_cleans_sink (ctx : ScheduleContext) (root : UOp) :
  op root = SINK ->
  let new_src :=
    map uop_base
      (filter (fun x => negb (uop_is_realized x)
                        && negb (mem Ops_eq_dec (op (uop_base x)) [CONST; BIND]))
         (src root)) in
  pm_rewrite ops_folding_rules ctx root
    = Ok (if list_eq_dec UOp_eq_dec new_src (src root) then None
          else Some (mkUOp SINK (dtype root) new_src (arg root)), ctx) /\
  (forall x, In x new_src ->
     op x <> CONST /\ op x <> BIND /\
     exists y, In y (src root) /\ uop_is_realized y = false /\ x = uop_base y).
Proof.
  intros Hop new_src. split.
  - destruct root as [o d s a]. cbn [op] in Hop. subst o.
    unfold ops_folding_rules. cbn [pm_rewrite].
    unfold fold_size0 at 1. cbn [op Ops_eqb]. unfold Ops_eqb at 1.
    destruct (Ops_eq_dec SINK SINK) as [_|N]; [|congruence].
    cbn [rbind fst snd].
    unfold fold_const_buffer, fold_detach, fold_reduce_empty, fold_reduce_const,
      fold_copy_const, fold_copy_same_device, fold_contiguous_view,
      fold_double_contiguous, fold_found_contiguous, fold_replace_contiguous.
    cbn [op rbind fst snd Ops_eqb]. unfold Ops_eqb at 1.
    destruct (Ops_eq_dec SINK DETACH) as [E|_]; [discriminate|].
    cbn [rbind fst snd].
    replace (mem Ops_eq_dec SINK GroupOp_ALU) with false by (vm_compute; reflexivity).
    cbn [rbind fst snd]. unfold fold_sink. cbn [op src dtype arg]. unfold Ops_eqb at 1.
    destruct (Ops_eq_dec SINK SINK) as [_|N]; [|congruence].
    subst new_src. cbn [src].
    destruct (list_eq_dec UOp_eq_dec _ s); reflexivity.
  - intros x Hx. unfold new_src in Hx. apply in_map_iff in Hx.
    destruct Hx as (y & <- & Hy). apply filter_In in Hy. destruct Hy as [Hy Hc].
    apply andb_prop in Hc. destruct Hc as [Hr Hm].
    apply negb_true_iff in Hr. apply negb_true_iff in Hm.
    apply mem_false_iff in Hm.
    split; [intros E; apply Hm; left; symmetry; exact E|].
    split; [intros E; apply Hm; right; left; symmetry; exact E|].
    exists y. auto.
Qed.

End FoldSink.

(** *** The folding rules on concrete nodes *)

Lemma folding_cleans_sink_witness :
  pm_rewrite ops_folding_rules empty_ctx (sink [realized_view; inner_view])
    = Ok (Some (sink [inner_view]), empty_ctx).
Proof.
  exact (proj1 (@folding_cleans_sink ref_ShapeAPI ref_UOpAPI empty_ctx
                  (sink [realized_view; inner_view]) eq_refl)).
Defined.

Lemma folding_rules_touch_only_contiguous_witness :
  only_contiguous_grows ctx_realized ctx_realized.
Proof.
  exact (proj1 (@folding_rules_touch_only_contiguous ref_ShapeAPI ref_UOpAPI
                  ctx_realized ctx_realized
                  (mkUOp DETACH (DScalar float_) [neg_of_realized] ANone)
                  (Some neg_of_realized) eq_refl)).
Defined.

(** ** Deciding what gets realized: [do_realize] (lines 433-470) *)

(** The context together with the global table [buffers] of tinygrad.ops
    (from a [BUFFER] node to its device buffer), which [create_subbuffer]
    writes to. *)
Definition RealizeState : Type := (ScheduleContext * dict UOp Buffer)%type.

(** [realize]: [ctx.realizes[b] = to_store] *)
Definition realize (ctx : ScheduleContext) (b to_store : UOp) : ScheduleContext :=
  set_realizes ctx (dset UOp_eq_dec (realizes ctx) b to_store).

Section DoRealize.
Context `{SA : ShapeAPI} `{UA : UOpAPI}.

(** Code of other modules: [can_pad(u, realizes, set())] of tinygrad.ops;
    [resolve] of a comparison that has a symbolic side; the environment
    variable [DONT_REALIZE_EXPAND]; and [Buffer.view(size, dtype, offset *
    itemsize)] of tinygrad.device, given the base buffer, the size and
    dtype of the new one, the offset of the view and the dtype whose
    [itemsize] scales it. *)
Variable can_pad : UOp -> dict UOp UOp -> bool.
Variable resolve_ge_symbolic : list sint -> list (sint * sint) -> bool.
Variable resolve_lt_symbolic : list sint -> list sint -> bool.
Variable DONT_REALIZE_EXPAND : bool.
Variable buffer_view : Buffer -> Z -> DType -> sint -> DType -> Buffer.

(** [resolve(prod(shape) >= prod([y-x for x,y in m]))], [shape] all
    integers. *)
Definition resolve_ge (shape : list sint) (m : list (sint * sint)) : bool :=
  if all_int (map fst m) && all_int (map snd m)
  then Z.geb (prod (ints shape))
             (prod (map (fun p => snd p - fst p)%Z (combine (ints (map fst m)) (ints (map snd m)))))
  else resolve_ge_symbolic shape m.

(** [resolve(prod(shape1) < prod(shape2))] *)
Definition resolve_lt (shape1 shape2 : list sint) : bool :=
  if all_int shape1 && all_int shape2
  then Z.ltb (prod (ints shape1)) (prod (ints shape2))
  else resolve_lt_symbolic shape1 shape2.

(** [realize_before_view] *)
Definition realize_before_view (ctx : ScheduleContext) (view src_ b : UOp)
  : result (option UOp * ScheduleContext) :=
  st <- unwrap (uop_st view) ;;
  (* fold simple pads *)
  simple_pad <- match views st with
                | [v] =>
                    match v_mask v with
                    | Some m =>
                        shp <- uop_shape src_ ;;
                        Ok (all_int shp && resolve_ge shp m)
                    | None => Ok false
                    end
                | _ => Ok false
                end ;;
  if simple_pad
  then Ok (None, if can_pad src_ (realizes ctx) then ctx else realize ctx b src_)
  else
    shp <- uop_shape src_ ;;
    (* early realize before expand *)
    if resolve_lt shp (st_shape st) && negb DONT_REALIZE_EXPAND
    then Ok (None, realize ctx b src_)
    (* otherwise safety check pads *)
    else if forallb (fun v => match v_mask v with None => true | Some _ => false end) (views st)
            || can_pad src_ (realizes ctx)
         then Ok (None, ctx)
         else Ok (None, realize ctx b src_).

(** [fold_img_cast] *)
Definition fold_img_cast (ctx : ScheduleContext) (xb view b x : UOp)
  : result (option UOp * ScheduleContext) :=
  match dtype xb with
  | DImage _ _ =>
      if negb (dmem UOp_eq_dec (realizes ctx) b) then Ok (None, ctx) else
      if negb (dmem UOp_eq_dec (realizes ctx) xb) then Ok (None, ctx) else
      o <- uval (uop_base x) ;;
      if Ops_eqb (op o) COPY then Ok (None, ctx) else
      rz <- ddel UOp_eq_dec (realizes ctx) b ;;
      st <- unwrap (uop_st view) ;;
      Ok (Some (uop_view x st), set_realizes ctx rz)
  | _ => Ok (None, ctx)
  end.

(** [create_subbuffer] *)
Definition create_subbuffer (s : RealizeState) (base b root x : UOp)
  : result (option UOp * RealizeState) :=
  dev <- uop_device b ;;
  if negb (String.prefix "DISK" dev) then Ok (None, s) else
  xb <- uop_buf_uop x ;;
  sz <- uop_size b ;;
  st <- unwrap (uop_st x) ;;
  v0 <- tuple_get (views st) 0 ;;
  let sub := buffer_view (uop_buffer xb) sz (dtype b) (v_offset v0) (dtype x) in
  Ok (Some (mkUOp (op base) (dtype base)
              [b; mkUOp BUFFER_VIEW (dtype root) (src root) (arg root)] (arg base)),
      (fst s, dset UOp_eq_dec (snd s) b sub)).

(** [ctx.realizes.update((x.buf_uop, x) for x in sink.src)] *)
Fixpoint realize_sink_parents (ctx : ScheduleContext) (xs : list UOp) : result ScheduleContext :=
  match xs with
  | [] => Ok ctx
  | x :: rest => b <- uop_buf_uop x ;; realize_sink_parents (realize ctx b x) rest
  end.

(** The node is [VIEW(b, to_store)] with [b] a [BUFFER]: the match of
    [UPatScheduled()]. *)
Definition scheduled_parts (u : UOp) : option (UOp * UOp) :=
  match u with
  | mkUOp VIEW _ [b; to_store] _ => if Ops_eqb (op b) BUFFER then Some (b, to_store) else None
  | _ => None
  end.

(** The match of [UPat.any(UPatScheduled(), UPatScheduled().view())]. *)
Definition scheduled_or_view_parts (u : UOp) : option (UOp * UOp) :=
  match scheduled_parts u with
  | Some p => Some p
  | None =>
      match u with
      | mkUOp VIEW _ [inner] _ => scheduled_parts inner
      | _ => None
      end
  end.

(** [do_realize] *)
Definition do_realize : list (rule RealizeState) :=
  [ (* always realize SINK parents *)
    (fun s sink =>
       if Ops_eqb (op sink) SINK
       then ctx' <- realize_sink_parents (fst s) (src sink) ;; Ok (None, (ctx', snd s))
       else Ok (None, s));
    (* always realize ASSIGN/CONTIGUOUS/COPY/BUFFER_VIEW *)
    (fun s base =>
       match scheduled_parts base with
       | Some (b, to_store) =>
           if mem Ops_eq_dec (op to_store) [ASSIGN; CONTIGUOUS; COPY; BUFFER_VIEW]
           then Ok (None, (realize (fst s) b to_store, snd s))
           else Ok (None, s)
       | None => Ok (None, s)
       end);
    (* realize before expand or unsafe pad ops *)
    (fun s view =>
       match view with
       | mkUOp VIEW _ [base] _ =>
           match scheduled_parts base with
           | Some (b, src_) =>
               r <- realize_before_view (fst s) view src_ b ;; Ok (fst r, (snd r, snd s))
           | None => Ok (None, s)
           end
       | _ => Ok (None, s)
       end);
    (* don't realize image to image casts *)
    (fun s view =>
       match view with
       | mkUOp VIEW _ [base] _ =>
           match scheduled_parts base with
           | Some (b, mkUOp CAST (DScalar float_) [mkUOp VIEW dx [xb; y] ax] _) =>
               r <- fold_img_cast (fst s) xb view b (mkUOp VIEW dx [xb; y] ax) ;;
               Ok (fst r, (snd r, snd s))
           | _ => Ok (None, s)
           end
       | _ => Ok (None, s)
       end);
    (* realize before COPY or BUFFER_VIEW *)
    (fun s u =>
       match u with
       | mkUOp COPY _ [_; x] _ =>
           match scheduled_or_view_parts x with
           | Some (b, to_store) => Ok (None, (realize (fst s) b to_store, snd s))
           | None => Ok (None, s)
           end
       | _ => Ok (None, s)
       end);
    (fun s u =>
       match u with
       | mkUOp BUFFER_VIEW _ [x] _ =>
           match scheduled_or_view_parts x with
           | Some (b, to_store) => Ok (None, (realize (fst s) b to_store, snd s))
           | None => Ok (None, s)
           end
       | _ => Ok (None, s)
       end);
    (* substitute BITCAST/CONTIGUOUS with BUFFER_VIEW on DISK *)
    (fun s base =>
       match scheduled_parts base with
       | Some (b, mkUOp o dr [x] ar) =>
           if mem Ops_eq_dec o [BITCAST; CONTIGUOUS]
           then create_subbuffer s base b (mkUOp o dr [x] ar) x
           else Ok (None, s)
       | _ => Ok (None, s)
       end) ].

End DoRealize.

Section DoRealize_facts.
Context `{SA : ShapeAPI} `{UA : UOpAPI}.
Variable can_pad : UOp -> dict UOp UOp -> bool.
Variable resolve_ge_symbolic : list sint -> list (sint * sint) -> bool.
Variable resolve_lt_symbolic : list sint -> list sint -> bool.
Variable DONT_REALIZE_EXPAND : bool.
Variable buffer_view : Buffer -> Z -> DType -> sint -> DType -> Buffer.

(** Only [realizes] may differ between the two contexts. *)
Definition only_realizes_changed (ctx ctx' : ScheduleContext) : Prop :=
  ctx' = set_realizes ctx (realizes ctx').

(** Only [realizes] changed and it lost no key. *)
Definition marks_grow (ctx ctx' : ScheduleContext) : Prop :=
  only_realizes_changed ctx ctx' /\ incl (dkeys (realizes ctx)) (dkeys (realizes ctx')).

Lemma marks_grow_refl (ctx : ScheduleContext) : marks_grow ctx ctx.
Proof. split; [destruct ctx; reflexivity | intros x Hx; exact Hx]. Qed.

Lemma only_realizes_changed_trans (c1 c2 c3 : ScheduleContext) :
  only_realizes_changed c1 c2 -> only_realizes_changed c2 c3 -> only_realizes_changed c1 c3.
Proof.
  unfold only_realizes_changed. intros E1 E2. rewrite E2. rewrite E1 at 1. reflexivity.
Qed.

Lemma marks_grow_trans (c1 c2 c3 : ScheduleContext) :
  marks_grow c1 c2 -> marks_grow c2 c3 -> marks_grow c1 c3.
Proof.
  intros [E1 I1] [E2 I2]. split; [apply (only_realizes_changed_trans E1 E2)|].
  intros x Hx. apply I2, I1, Hx.
Qed.

Lemma realize_grows (ctx : ScheduleContext) (b v : UOp) : marks_grow ctx (realize ctx b v).
Proof.
  split; [destruct ctx; reflexivity|]. unfold realize. cbn [realizes set_realizes].
  intros x Hx. apply dkeys_dset_In. right; exact Hx.
Qed.

Lemma realize_sink_parents_grows (xs : list UOp) : forall ctx ctx',
  realize_sink_parents ctx xs = Ok ctx' -> marks_grow ctx ctx'.
Proof.
  induction xs as [|x xs IH]; intros ctx ctx' H; simpl in H.
  - inversion H; subst. apply marks_grow_refl.
  - destruct (uop_buf_uop x) as [b|e]; cbn [rbind] in H; [|discriminate].
    apply (marks_grow_trans (realize_grows ctx b x) (IH _ _ H)).
Qed.

Lemma realize_before_view_grows (ctx ctx' : ScheduleContext) (view src_ b : UOp)
  (r : option UOp) :
  realize_before_view can_pad resolve_ge_symbolic resolve_lt_symbolic DONT_REALIZE_EXPAND
    ctx view src_ b = Ok (r, ctx') ->
  r = None /\ (ctx' = ctx \/ ctx' = realize ctx b src_).
Proof.
  unfold realize_before_view. intros H.
  destruct (unwrap (uop_st view)) as [st|e]; cbn [rbind] in H; [|discriminate].
  match type of H with
  | rbind ?m _ = _ => destruct m as [simple_pad|e]; cbn [rbind] in H; [|discriminate]
  end.
  destruct simple_pad.
  - inversion H; subst. split; [reflexivity|].
    destruct (can_pad src_ (realizes ctx)); [left | right]; reflexivity.
  - destruct (uop_shape src_) as [shp|e]; cbn [rbind] in H; [|discriminate].
    destruct (resolve_lt resolve_lt_symbolic shp (st_shape st) && negb DONT_REALIZE_EXPAND).
    + inversion H; subst. split; [reflexivity | right; reflexivity].
    + destruct (forallb _ (views st) || can_pad src_ (realizes ctx));
        inversion H; subst; (split; [reflexivity|]); [left | right]; reflexivity.
Qed.

Lemma fold_img_cast_changes (ctx ctx' : ScheduleContext) (xb view b x : UOp) (r : option UOp) :
  fold_img_cast ctx xb view b x = Ok (r, ctx') -> only_realizes_changed ctx ctx'.
Proof.
  unfold fold_img_cast, only_realizes_changed. intros H.
  assert (Hid : forall c : ScheduleContext, c = set_realizes c (realizes c)).
  { intros c. destruct c; reflexivity. }
  destruct (dtype xb); try (inversion H; subst; apply Hid).
  destruct (negb (dmem UOp_eq_dec (realizes ctx) b)); [inversion H; subst; apply Hid|].
  destruct (negb (dmem UOp_eq_dec (realizes ctx) xb)); [inversion H; subst; apply Hid|].
  destruct (uval (uop_base x)) as [o|e]; cbn [rbind] in H; [|discriminate].
  destruct (Ops_eqb (op o) COPY); [inversion H; subst; apply Hid|].
  destruct (ddel UOp_eq_dec (realizes ctx) b) as [rz|e]; cbn [rbind] in H; [|discriminate].
  destruct (unwrap (uop_st view)) as [st|e]; cbn [rbind] in H; [|discriminate].
  inversion H; subst. reflexivity.
Qed.

Lemma create_subbuffer_state (s s' : RealizeState) (base b root x : UOp) (r : option UOp) :
  create_subbuffer buffer_view s base b root x = Ok (r, s') ->
  fst s' = fst s /\ incl (dkeys (snd s)) (dkeys (snd s')).
Proof.
  unfold create_subbuffer. intros H.
  destruct (uop_device b) as [dev|e]; cbn [rbind] in H; [|discriminate].
  destruct (negb (String.prefix "DISK" dev)).
  { inversion H; subst. split; [reflexivity | intros k Hk; exact Hk]. }
  destruct (uop_buf_uop x) as [xb|e]; cbn [rbind] in H; [|discriminate].
  destruct (uop_size b) as [sz|e]; cbn [rbind] in H; [|discriminate].
  destruct (unwrap (uop_st x)) as [st|e]; cbn [rbind] in H; [|discriminate].
  destruct (tuple_get (views st) 0) as [v0|e]; cbn [rbind] in H; [|discriminate].
  inversion H; subst. cbn [fst snd]. split; [reflexivity|].
  intros k Hk. rewrite dkeys_dset. destruct (dmem UOp_eq_dec (snd s) b); [exact Hk|].
  apply in_or_app. left; exact Hk.
Qed.

End DoRealize_facts.

(** Take the branches of a rule apart; [fin] closes those that hand the
    state back. *)
Ltac peel_rule H fin :=
  repeat match type of H with
         | match ?t with _ => _ end = _ => destruct t; try (inversion H; subst; fin)
         end.

Section DoRealize_theorems.
Context `{SA : ShapeAPI} `{UA : UOpAPI}.
Variable can_pad : UOp -> dict UOp UOp -> bool.
Variable resolve_ge_symbolic : list sint -> list (sint * sint) -> bool.
Variable resolve_lt_symbolic : list sint -> list sint -> bool.
Variable DONT_REALIZE_EXPAND : bool.
Variable buffer_view : Buffer -> Z -> DType -> sint -> DType -> Buffer.

(** What one try of [do_realize] on [u] keeps. *)
Definition realize_keeps (u : UOp) (s s' : RealizeState) : Prop :=
  only_realizes_changed (fst s) (fst s') /\
  incl (dkeys (snd s)) (dkeys (snd s')) /\
  (op u <> VIEW \/ List.length (src u) <> 1 ->
     incl (dkeys (realizes (fst s))) (dkeys (realizes (fst s')))).

Lemma realize_keeps_of_marks (u : UOp) (s : RealizeState) (ctx' : ScheduleContext) :
  marks_grow (fst s) ctx' -> realize_keeps u s (ctx', snd s).
Proof.
  intros [E I]. split; [exact E|]. split; [intros k Hk; exact Hk | intros _; exact I].
Qed.

Lemma realize_keeps_same (u : UOp) (s s' : RealizeState) : s' = s -> realize_keeps u s s'.
Proof.
  intros ->. destruct s as [c t]. apply realize_keeps_of_marks. apply marks_grow_refl.
Qed.

(** X22.  What [do_realize] never does (lines 433-470).  Whatever node it
    is tried on, a call that returns has changed nothing in the context
    but [ctx.realizes], and has removed no entry from the table of
    device buffers.  A realize mark is taken back only on a [VIEW] with
    a single source (the image cast rule): on every other node every
    buffer marked before is still marked. *)
Theorem do_realize_only_marks (s s' : RealizeState) (u : UOp) (r : option UOp) :
  pm_rewrite (do_realize can_pad resolve_ge_symbolic resolve_lt_symbolic
                DONT_REALIZE_EXPAND buffer_view) s u = Ok (r, s') ->
  only_realizes_changed (fst s) (fst s') /\
  incl (dkeys (snd s)) (dkeys (snd s')) /\
  (op u <> VIEW \/ List.length (src u) <> 1 ->
     incl (dkeys (realizes (fst s))) (dkeys (realizes (fst s')))).
Proof.
  apply (@pm_rewrite_keeps RealizeState (realize_keeps u) u).
  - intros c. apply realize_keeps_same. reflexivity.
  - intros c1 c2 c3 (E1 & B1 & K1) (E2 & B2 & K2).
    split; [apply (only_realizes_changed_trans E1 E2)|].
    split; [intros k Hk; apply B2, B1, Hk|].
    intros Hu k Hk. apply (K2 Hu), (K1 Hu), Hk.
  - unfold do_realize.
    repeat (apply Forall_cons; [intros c res c' Hr|]); [| | | | | | |constructor].
    + destruct (Ops_eqb (op u) SINK); [|inversion Hr; apply realize_keeps_same; reflexivity].
      destruct (realize_sink_parents (fst c) (src u)) as [ctx1|e] eqn:E;
        cbn [rbind] in Hr; [|discriminate].
      inversion Hr; subst. apply realize_keeps_of_marks.
      apply (realize_sink_parents_grows _ _ E).
    + destruct (scheduled_parts u) as [[b ts]|];
        [|inversion Hr; apply realize_keeps_same; reflexivity].
      destruct (mem Ops_eq_dec (op ts) [ASSIGN; CONTIGUOUS; COPY; BUFFER_VIEW]);
        inversion Hr; subst; [|apply realize_keeps_same; reflexivity].
      apply realize_keeps_of_marks. apply realize_grows.
    + destruct u as [o d sr a].
      peel_rule Hr ltac:(apply realize_keeps_same; reflexivity).
      match type of Hr with
      | rbind ?m _ = _ => destruct m as [[r1 ctx1]|e] eqn:E; cbn [rbind fst snd] in Hr;
                          [|discriminate]
      end.
      inversion Hr; subst. apply realize_before_view_grows in E.
      destruct E as [_ [->| ->]].
      * apply realize_keeps_same. destruct c; reflexivity.
      * apply realize_keeps_of_marks. apply realize_grows.
    + destruct u as [o d sr a].
      peel_rule Hr ltac:(apply realize_keeps_same; reflexivity).
      match type of Hr with
      | rbind ?m _ = _ => destruct m as [[r1 ctx1]|e] eqn:E; cbn [rbind fst snd] in Hr;
                          [|discriminate]
      end.
      inversion Hr; subst. apply fold_img_cast_changes in E.
      split; [exact E|]. split; [intros k Hk; exact Hk|].
      cbn [op src List.length]. intros [N|N]; exfalso; apply N; reflexivity.
    + destruct u as [o d sr a].
      peel_rule Hr ltac:(apply realize_keeps_same; reflexivity).
      inversion Hr; subst. apply realize_keeps_of_marks. apply realize_grows.
    + destruct u as [o d sr a].
      peel_rule Hr ltac:(apply realize_keeps_same; reflexivity).
      inversion Hr; subst. apply realize_keeps_of_marks. apply realize_grows.
    + peel_rule Hr ltac:(apply realize_keeps_same; reflexivity).
      apply create_subbuffer_state in Hr. destruct Hr as [E I].
      split; [unfold only_realizes_changed; rewrite E; destruct (fst c); reflexivity|].
      split; [exact I|]. intros _. rewrite E. intros k Hk; exact Hk.
Qed.

End DoRealize_theorems.

Section AlwaysRealize.
Context `{SA : ShapeAPI} `{UA : UOpAPI}.
Variable can_pad : UOp -> dict UOp UOp -> bool.
Variable resolve_ge_symbolic : list sint -> list (sint * sint) -> bool.
Variable resolve_lt_symbolic : list sint -> list sint -> bool.
Variable DONT_REALIZE_EXPAND : bool.
Variable buffer_view : Buffer -> Z -> DType -> sint -> DType -> Buffer.

(** X21.  [do_realize] on [VIEW(b, to_store)] with [b] a [BUFFER] and
    [to_store] an [ASSIGN], [CONTIGUOUS], [COPY] or [BUFFER_VIEW] (lines
    455-470).  When the call returns, [b] is marked: [ctx.realizes] maps
    [b] to [to_store], and every other entry of [realizes] is as it was.
    The node itself is rewritten only by the sub-buffer rule, that is
    only when [to_store] is a [CONTIGUOUS]. *)
Theorem contiguous_assign_copy_are_realized
  (s s' : RealizeState) (b to_store : UOp) (d : DType) (a : Arg) (r : option UOp) :
  op b = BUFFER ->
  In (op to_store) [ASSIGN; CONTIGUOUS; COPY; BUFFER_VIEW] ->
  pm_rewrite (do_realize can_pad resolve_ge_symbolic resolve_lt_symbolic
                DONT_REALIZE_EXPAND buffer_view) s (mkUOp VIEW d [b; to_store] a)
    = Ok (r, s') ->
  dget UOp_eq_dec (realizes (fst s')) b = Some to_store /\
  (forall k, k <> b ->
     dget UOp_eq_dec (realizes (fst s')) k = dget UOp_eq_dec (realizes (fst s)) k) /\
  (r <> None -> op to_store = CONTIGUOUS).
Proof.
  intros Hb Hop H.
  assert (Hsp : scheduled_parts (mkUOp VIEW d [b; to_store] a) = Some (b, to_store)).
  { cbn. unfold Ops_eqb. rewrite Hb.
    destruct (Ops_eq_dec BUFFER BUFFER) as [_|N]; [reflexivity | congruence]. }
  apply (proj2 (mem_true_iff Ops_eq_dec _ _)) in Hop.
  unfold do_realize in H. cbn [pm_rewrite] in H.
  rewrite Hsp in H. cbn [op Ops_eqb rbind fst snd] in H.
  unfold Ops_eqb at 1 in H.
  destruct (Ops_eq_dec VIEW SINK) as [E|_]; [discriminate|].
  cbn [rbind fst snd] in H. rewrite Hop in H. cbn [rbind fst snd] in H.
  set (s1 := (realize (fst s) b to_store, snd s)) in *.
  assert (Hr1 : dget UOp_eq_dec (realizes (fst s1)) b = Some to_store /\
                forall k, k <> b ->
                  dget UOp_eq_dec (realizes (fst s1)) k
                  = dget UOp_eq_dec (realizes (fst s)) k).
  { unfold s1, realize. cbn [fst realizes set_realizes].
    split; [apply dget_dset_same | intros k N; apply dget_dset_other; exact N]. }
  destruct to_store as [o1 d1 s1' a1]. cbn [op] in *.
  destruct s1' as [|x [|z rest]].
  - inversion H; subst. split; [apply Hr1|]. split; [apply Hr1 | intros N; congruence].
  - destruct (mem Ops_eq_dec o1 [BITCAST; CONTIGUOUS]) eqn:Em.
    + cbn [rbind] in H.
      match type of H with
      | rbind ?m _ = _ => destruct m as [[r2 s2]|e] eqn:Ec; cbn [rbind fst snd] in H;
                          [|discriminate]
      end.
      apply create_subbuffer_state in Ec. destruct Ec as [Ef _].
      assert (s2 = s') by (destruct r2; inversion H; reflexivity). subst s2.
      rewrite Ef. split; [apply Hr1|]. split; [apply Hr1|].
      intros _. apply mem_true_iff in Em. apply mem_true_iff in Hop.
      destruct Em as [<-|[<-|[]]]; [|reflexivity].
      destruct Hop as [E|[E|[E|[E|[]]]]]; discriminate.
    + inversion H; subst. split; [apply Hr1|]. split; [apply Hr1 | intros N; congruence].
  - inversion H; subst. split; [apply Hr1|]. split; [apply Hr1 | intros N; congruence].
Qed.

End AlwaysRealize.

(** *** [do_realize] on a contiguous op *)

(** Every pad is safe, symbolic comparisons hold, the environment is
    empty, and a view of a buffer shares its identity. *)
Definition always_pad (_ : UOp) (_ : dict UOp UOp) : bool := true.
Definition ge_holds (_ : list sint) (_ : list (sint * sint)) : bool := true.
Definition lt_holds (_ _ : list sint) : bool := true.
Definition ref_buffer_view (base : Buffer) (size : Z) (dt : DType) (_ : sint) (_ : DType)
  : Buffer := mkBuffer (buf_id base) (buf_device base) size dt.

Definition contiguous_op : UOp := mkUOp CONTIGUOUS (DScalar float_) [realized_view] ANone.
Definition contiguous_view : UOp :=
  mkUOp VIEW (DScalar float_) [buf_b; contiguous_op] (AST (contig [4%Z])).

Lemma contiguous_is_realized_witness :
  dget UOp_eq_dec (realizes (realize empty_ctx buf_b contiguous_op)) buf_b
    = Some contiguous_op.
Proof.
  refine (proj1 (@contiguous_assign_copy_are_realized ref_ShapeAPI ref_UOpAPI
                   always_pad ge_holds lt_holds false ref_buffer_view
                   (empty_ctx, []) (realize empty_ctx buf_b contiguous_op, [])
                   buf_b contiguous_op (DScalar float_) (AST (contig [4%Z])) None
                   eq_refl _ eq_refl)).
  right; left; reflexivity.
Defined.

Lemma do_realize_only_marks_witness :
  only_realizes_changed empty_ctx (realize empty_ctx buf_b contiguous_op).
Proof.
  exact (proj1 (@do_realize_only_marks ref_ShapeAPI ref_UOpAPI
                  always_pad ge_holds lt_holds false ref_buffer_view
                  (empty_ctx, []) (realize empty_ctx buf_b contiguous_op, [])
                  contiguous_view None eq_refl)).
Defined.

(** ** From the store groups to the schedule (lines 538-574) *)

Section ScheduleGroups.
Context `{SA : ShapeAPI} `{UA : UOpAPI}.
Variable rewrite_views : UOp -> dict UOp UOp -> result UOp.
Variable lower_to_si : UOp -> ScheduleItemContext -> result (UOp * ScheduleItemContext).
Variable toposort : UOp -> list UOp.

(** The end of [create_schedule_with_vars], from the store groups on: the
    kernels are prescheduled, ordered, and returned with [ctx.var_vals]
    and [ctx.becomes_map].  The debug print is left out. *)
Definition schedule_groups (store_groups : list (list UOp)) (ctx : ScheduleContext)
  : option (result (list ScheduleItem * dict UOp ConstType * dict UOp UOp)) :=
  match preschedule rewrite_views lower_to_si toposort store_groups ctx [] with
  | Err e => Some (Err e)
  | Ok (prescheduled, ctx') =>
      match assemble_schedule prescheduled with
      | None => None
      | Some (Err e) => Some (Err e)
      | Some (Ok schedule) => Some (Ok (schedule, var_vals ctx', becomes_map ctx'))
      end
  end.

Lemma bfs_incl (A : Type) (A_eq_dec : forall x y : A, {x = y} + {x <> y})
  (graph : A -> list A) (U : list A) :
  (forall u, incl (graph u) U) ->
  forall fuel d q s r,
  incl (s ++ q) U -> bfs A_eq_dec fuel graph d q s = Some r -> incl r U.
Proof.
  intros Hg. induction fuel as [|f IH]; intros d q s r Hsq H.
  - destruct q as [|si q]; simpl in H; [|discriminate].
    inversion H; subst. rewrite app_nil_r in Hsq. exact Hsq.
  - destruct q as [|si q]; simpl in H.
    + inversion H; subst. rewrite app_nil_r in Hsq. exact Hsq.
    + destruct (fold_left (relax A_eq_dec) (graph si) (d, q)) as [d' q'] eqn:E.
      cbn [fst snd] in H.
      destruct (relax_fold A_eq_dec _ _ _ E) as (_ & pushed & Hq & _ & Hp).
      apply (IH _ _ _ _) in H; [exact H|].
      subst q'. intros x Hx. apply in_app_or in Hx. destruct Hx as [Hx|Hx].
      * apply Hsq. apply in_app_or in Hx. destruct Hx as [Hx|[<-|[]]].
        -- apply in_or_app. left; exact Hx.
        -- apply in_or_app. right. left. reflexivity.
      * apply in_app_or in Hx. destruct Hx as [Hx|Hx].
        -- apply Hsq. apply in_or_app. right. right. exact Hx.
        -- apply (Hg si). apply (Hp x Hx).
Qed.

(** X24.  The schedule and the store groups (lines 538-574).  When the
    end of [create_schedule_with_vars] returns, the schedule holds
    exactly as many kernels as there are store groups with a buffer
    whose [realizes] entry is a [STORE]; each of them is a kernel that
    was prescheduled for one of these groups; the [var_vals] and
    [becomes_map] returned are those of the context after prescheduling;
    and [becomes_map] maps every tensor node linked to a buffer of a
    scheduled group to a view of such a buffer. *)
Theorem schedule_has_one_kernel_per_store_group
  (groups : list (list UOp)) (ctx : ScheduleContext)
  (schedule : list ScheduleItem) (vv : dict UOp ConstType) (bm : dict UOp UOp) :
  schedule_groups groups ctx = Some (Ok (schedule, vv, bm)) ->
  let scheduled := filter (has_store (realizes ctx)) groups in
  List.length schedule = List.length scheduled /\
  (exists prescheduled ctx',
     preschedule rewrite_views lower_to_si toposort groups ctx [] = Ok (prescheduled, ctx') /\
     incl schedule prescheduled /\ vv = var_vals ctx' /\ bm = becomes_map ctx') /\
  (forall g b luops k, In g scheduled -> In b g ->
     dget UOp_eq_dec (tensor_uops ctx) b = Some luops -> In k luops ->
     became (tensor_uops ctx) scheduled bm k).
Proof.
  intros H scheduled. unfold schedule_groups in H.
  destruct (preschedule rewrite_views lower_to_si toposort groups ctx [])
    as [[prescheduled ctx']|e] eqn:Ep; [|discriminate].
  destruct (@preschedule_spec SA UA rewrite_views lower_to_si toposort groups ctx []
              prescheduled ctx' Ep) as (Hlen & _ & Hc & _).
  destruct (assemble_schedule prescheduled) as [[s|e]|] eqn:Ea; try discriminate.
  inversion H; subst s vv bm; clear H.
  unfold assemble_schedule in Ea.
  destruct (schedule_targets_of prescheduled []) as [t|e] eqn:Et; cbn [rbind] in Ea;
    [|discriminate].
  destruct (kernel_graph t (kg_empty ScheduleItem) prescheduled) as [g|e] eqn:Eg;
    [|discriminate].
  destruct (bfs _ _ _ _ _ _) as [s|] eqn:Eb; [|discriminate].
  destruct (Nat.eqb (List.length s) (List.length prescheduled)) eqn:El; [|discriminate].
  inversion Ea; subst s; clear Ea. apply Nat.eqb_eq in El.
  assert (Ht : targets_ok prescheduled t).
  { eapply schedule_targets_ok; eauto; [intros y Hy; exact Hy | apply targets_ok_empty]. }
  destruct (@kernel_graph_spec UA prescheduled t prescheduled _ _ Eg) as (Hwf & _); auto.
  { intros y Hy; exact Hy. }
  specialize (Hwf (kg_empty_wf prescheduled)).
  split; [rewrite El, Hlen; reflexivity|]. split; [|exact Hc].
  exists prescheduled, ctx'. split; [reflexivity|]. split; [|split; reflexivity].
  revert Eb. apply (@bfs_incl _ ScheduleItem_eq_dec (kg_graph g) prescheduled Hwf).
  intros x Hx. simpl in Hx. apply filter_In in Hx. apply Hx.
Qed.

End ScheduleGroups.

Lemma schedule_groups_witness :
  List.length [mkScheduleItem (UOp_sink [store buf_a (contig [4%Z]) inner_op]) [] [] []]
    = List.length (filter (has_store (realizes ctx_store)) [[buf_a]; [buf_b]]).
Proof.
  exact (proj1 (@schedule_has_one_kernel_per_store_group ref_ShapeAPI ref_UOpAPI
                  no_rewrite no_lowering ref_toposort [[buf_a]; [buf_b]] ctx_store
                  [mkScheduleItem (UOp_sink [store buf_a (contig [4%Z]) inner_op]) [] [] []]
                  [] [(tensor_c, uop_view buf_a (contig [4%Z]))] eq_refl)).
Defined.

(** ** Loads of buffers stored by the same kernel: [multioutput] (lines 206, 210) *)

(** [multioutput]; its context is the dictionary of line 210, from the
    buffer of every store of the kernel to the value stored. *)
Definition multioutput : list (rule (dict UOp UOp)) :=
  [ (fun sb u =>
       match u with
       | mkUOp LOAD _ [b; _] _ => Ok (dget UOp_eq_dec sb b, sb)
       | _ => Ok (None, sb)
       end) ].

Section Multioutput_facts.
Context `{UA : UOpAPI}.

Lemma store_bufs_of_app (l1 l2 : list UOp) : forall acc,
  store_bufs_of (l1 ++ l2) acc = (m <- store_bufs_of l1 acc ;; store_bufs_of l2 m).
Proof.
  induction l1 as [|x l1 IH]; intros acc; simpl; [reflexivity|].
  destruct (uop_buf_uop x) as [b|e]; cbn [rbind]; [|reflexivity].
  destruct (tuple_get (src x) 2) as [v|e]; cbn [rbind]; [|reflexivity].
  apply IH.
Qed.

Lemma store_bufs_of_other (b : UOp) (l : list UOp) : forall acc sb,
  (forall y, In y l -> uop_buf_uop y <> Ok b) ->
  store_bufs_of l acc = Ok sb -> dget UOp_eq_dec sb b = dget UOp_eq_dec acc b.
Proof.
  induction l as [|x l IH]; intros acc sb Hl H; simpl in H.
  - inversion H; reflexivity.
  - destruct (uop_buf_uop x) as [bx|e] eqn:Ex; cbn [rbind] in H; [|discriminate].
    destruct (tuple_get (src x) 2) as [v|e]; cbn [rbind] in H; [|discriminate].
    rewrite (IH _ _ (fun y Hy => Hl y (or_intror Hy)) H).
    apply dget_dset_other. intros ->. apply (Hl x (or_introl eq_refl)). exact Ex.
Qed.

(** X23.  A kernel that loads what it stores (lines 206 and 210).  With
    the dictionary built from the stores of the kernel, [multioutput]
    puts, in place of a [LOAD] of a buffer the kernel stores to, the
    value of the last store to that buffer, and leaves a [LOAD] of any
    other buffer as it is. *)
Theorem load_of_stored_buffer_becomes_its_value
  (stores : list UOp) (sb : dict UOp UOp) (b v : UOp) (d : DType) (a : Arg) :
  store_bufs_of stores [] = Ok sb ->
  (forall pre x post val,
     stores = pre ++ x :: post -> uop_buf_uop x = Ok b ->
     (forall y, In y post -> uop_buf_uop y <> Ok b) ->
     tuple_get (src x) 2 = Ok val ->
     pm_rewrite multioutput sb (mkUOp LOAD d [b; v] a) = Ok (Some val, sb)) /\
  ((forall x, In x stores -> uop_buf_uop x <> Ok b) ->
     pm_rewrite multioutput sb (mkUOp LOAD d [b; v] a) = Ok (None, sb)).
Proof.
  intros H. split.
  - intros pre x post val -> Hx Hpost Hval.
    rewrite store_bufs_of_app in H.
    destruct (store_bufs_of pre []) as [m1|e]; cbn [rbind] in H; [|discriminate].
    cbn [store_bufs_of] in H. rewrite Hx, Hval in H. cbn [rbind] in H.
    pose proof (@store_bufs_of_other b post _ sb Hpost H) as E. rewrite dget_dset_same in E.
    cbn. rewrite E. reflexivity.
  - intros Hn. pose proof (@store_bufs_of_other b stores _ sb Hn H) as E. cbn in E.
    cbn. rewrite E. reflexivity.
Qed.

End Multioutput_facts.

Lemma load_of_stored_buffer_witness :
  pm_rewrite multioutput [(buf_a, inner_op)] (load buf_a (contig [4%Z]))
    = Ok (Some inner_op, [(buf_a, inner_op)]).
Proof.
  refine (proj1 (@load_of_stored_buffer_becomes_its_value ref_UOpAPI
                   [store buf_a (contig [4%Z]) inner_op] [(buf_a, inner_op)]
                   buf_a (view_of (contig [4%Z])) (DScalar float_) ANone eq_refl)
            [] (store buf_a (contig [4%Z]) inner_op) [] inner_op eq_refl eq_refl _ eq_refl).
  intros y [].
Defined.
